(** * UniverseModel: a shallow embedding of [universe_model.py]

    The development follows the Python module class by class:
    [Entity], [Interaction], [Observer] (an [Entity] that owns a
    [networkx.MultiDiGraph]), [Universe] with its [tick] loop, and the rule
    functions [scale_distance] and [group_formation_rule].

    Modelling choices, all forced by the source:
    - Python objects are mutable and shared by reference.  Entities live in
      an object store (a finite map from references to records); an
      interaction holds its participants as references.  Interactions are
      never mutated after [__init__], so they are embedded as values.  Every
      entity gets a [properties] dictionary of its own in [__init__] and
      nothing reassigns it, so no two entities share one.
    - [entity in participants] uses the default identity-based [__eq__],
      hence it is membership of the reference.
    - [properties] and [metadata] are dictionaries of dynamically typed
      values ([value]); [+] on them can raise [TypeError].
    - [uuid.uuid4()] and [time.time()] are read from an explicit [Runtime],
      and so is the order in which a two-element [frozenset] is listed.
    - Exceptions are values of [exn]; a computation returns [exn + A]
      together with the state reached when it stopped, because Python
      mutates in place and keeps what was done before a raise.
    - A rule is any function of the roster and the store that returns
      interactions; it may keep a state of its own (the world [W] of the
      engine) but it changes neither the roster nor an entity: recording and
      effects are the engine's.
    - [scale] is a Python float, an IEEE 754 double: it is embedded as a
      primitive [float] (binary64), so that [scale_distance] and the
      threshold of [fusion_rule] round as they do in Python.  Timestamps
      are floats too, but they are only stored and copied, never computed
      with: they are embedded as rationals ([Q]).

    [gravity_rule], [fusion_rule] and [persistent_interaction_rule] draw
    from [random] or keep module globals: they run in a [World] that holds
    the runtime, the generator as an oracle and the globals.
    [scale_biased_encounter_rule], which hands float weights to
    [random.choices], and [visualize_universe] are not embedded; nothing
    below depends on them. *)

From Stdlib Require Import ZArith QArith String Ascii Floats.
From stdpp Require Import gmap strings list fin_maps.

Set Default Proof Using "Type".

(** ** Identifiers, references and dynamically typed values *)

(** A [uuid.UUID] is a 128-bit integer; it is ordered and hashed by it. *)
Abbreviation uuid := N (only parsing).

(** A reference to a Python object (its identity). *)
Abbreviation ref := nat (only parsing).

Inductive exn :=
  | ValueError (msg : string)
  | TypeError
  | AttributeError.

(** The values the module stores in [properties] and [metadata]. *)
Inductive value :=
  | VNone
  | VInt (n : Z)
  | VStr (s : string).

#[global] Instance value_eq_dec : EqDecision value.
Proof. solve_decision. Defined.

Definition value_to_sum (v : value) : unit + (Z + string) :=
  match v with
  | VNone => inl tt
  | VInt n => inr (inl n)
  | VStr s => inr (inr s)
  end.

Definition value_of_sum (x : unit + (Z + string)) : value :=
  match x with
  | inl _ => VNone
  | inr (inl n) => VInt n
  | inr (inr s) => VStr s
  end.

#[global] Instance value_countable : Countable value.
Proof.
  apply (inj_countable' value_to_sum value_of_sum).
  intros []; reflexivity.
Defined.

(** Python truth value: [None], [0] and [""] are false. *)
Definition truthy (v : value) : bool :=
  match v with
  | VNone => false
  | VInt n => negb (n =? 0)%Z
  | VStr s => negb (String.eqb s "")
  end.

(** Python [a + b]. *)
Definition py_add (a b : value) : exn + value :=
  match a, b with
  | VInt x, VInt y => inr (VInt (x + y))
  | VStr x, VStr y => inr (VStr (x ++ y))
  | _, _ => inl TypeError
  end.

(** [d.get(k, default)] *)
Definition dict_get (d : gmap string value) (k : string) (default : value) : value :=
  match d !! k with
  | Some v => v
  | None => default
  end.

(** ** The error-and-state monad of the embedding *)

Definition M (S A : Type) : Type := S -> (exn + A) * S.

Definition ret {S A} (a : A) : M S A := fun s => (inr a, s).

Definition raise {S A} (e : exn) : M S A := fun s => (inl e, s).

Definition bind {S A B} (m : M S A) (k : A -> M S B) : M S B :=
  fun s =>
    match m s with
    | (inl e, s') => (inl e, s')
    | (inr a, s') => k a s'
    end.

Definition get {S} : M S S := fun s => (inr s, s).

Definition put {S} (s : S) : M S unit := fun _ => (inr tt, s).

Notation "x <- m ;; k" := (bind m (fun x => k))
  (at level 100, m at next level, right associativity).
Notation "m ;;; k" := (bind m (fun _ => k))
  (at level 100, right associativity).

(** [for x in xs: body(x)] *)
Fixpoint for_each {S A} (xs : list A) (body : A -> M S unit) : M S unit :=
  match xs with
  | [] => ret tt
  | x :: xs' => body x ;;; for_each xs' body
  end.

(** ** The runtime: [uuid.uuid4], [time.time], [str(uuid)] *)

Record Runtime := mkRuntime {
  uuid4_source : nat -> uuid;   (* the n-th value uuid4() hands out *)
  uuid4_calls : nat;
  clock : nat -> Q;             (* the n-th reading of time.time() *)
  time_calls : nat;
  (* [list(frozenset({a, b}))] lists [a] first iff this holds (hash order) *)
  frozenset_order : uuid -> uuid -> bool
}.

Definition uuid4 : M Runtime uuid := fun rt =>
  (inr (uuid4_source rt (uuid4_calls rt)),
   mkRuntime (uuid4_source rt) (S (uuid4_calls rt)) (clock rt) (time_calls rt)
             (frozenset_order rt)).

Definition time_time : M Runtime Q := fun rt =>
  (inr (clock rt (time_calls rt)),
   mkRuntime (uuid4_source rt) (uuid4_calls rt) (clock rt) (S (time_calls rt))
             (frozenset_order rt)).

Definition hex_digit (d : N) : ascii :=
  nth (N.to_nat d)
      (list_ascii_of_string "0123456789abcdef") "0"%char.

Fixpoint hex_fixed (len : nat) (u : N) (acc : string) : string :=
  match len with
  | O => acc
  | S len' => hex_fixed len' (u / 16)%N (String (hex_digit (u mod 16)%N) acc)
  end.

(** [str(u)] for a UUID: 32 hex digits grouped 8-4-4-4-12. *)
Definition str_uuid (u : uuid) : string :=
  let h := hex_fixed 32 u "" in
  substring 0 8 h ++ "-" ++ substring 8 4 h ++ "-" ++ substring 12 4 h ++ "-"
    ++ substring 16 4 h ++ "-" ++ substring 20 12 h.

(** ** class Interaction *)

Module Interaction.
Record t := mk {
  id : uuid;
  timestamp : Q;
  participants : list ref;
  interaction_type : string;
  metadata : gmap string value
}.
End Interaction.
Abbreviation Interaction := Interaction.t.

(** [Interaction.__init__(participants, interaction_type, metadata)].
    [metadata=None] is [None] here; an empty dictionary is falsy as well. *)
Definition Interaction_init (participants : list ref)
    (interaction_type : string) (metadata : option (gmap string value))
    : M Runtime Interaction :=
  if (length participants <? 2)%nat
  then raise (ValueError "Interaction requires at least two participants.")
  else
    i <- uuid4 ;;
    t <- time_time ;;
    ret (Interaction.mk i t participants interaction_type
           (match metadata with
            | Some md => md
            | None => ∅
            end)).

(** ** networkx.MultiDiGraph, as far as [Observer] uses it *)

Module MultiDiGraph.
(** The attribute dictionary of a node; a key that is absent is [None]. *)
Record node_attrs := mk_node {
  properties : option (gmap string value);
  scale : option float;
  local_time : option Z
}.

(** The attribute dictionary of an edge.  Every edge of the module is
    made by [add_edge] with exactly these three attributes. *)
Record edge_attrs := mk_edge {
  type : string;
  timestamp : Q;
  metadata : gmap string value
}.

(** Nodes by id; edges by (source, target, key). *)
Record t := mk {
  nodes : gmap uuid node_attrs;
  edges : gmap (uuid * uuid * uuid) edge_attrs
}.

Definition empty : t := mk ∅ ∅.

(** [n in G] *)
Definition has_node (g : t) (n : uuid) : bool :=
  bool_decide (is_Some (nodes g !! n)).

(** [attrs.update(new)] on a node's dictionary. *)
Definition update_attrs (old new : node_attrs) : node_attrs :=
  mk_node
    (match properties new with Some p => Some p | None => properties old end)
    (match scale new with Some s => Some s | None => scale old end)
    (match local_time new with Some l => Some l | None => local_time old end).

(** [G.add_node(n, **attrs)] *)
Definition add_node (g : t) (n : uuid) (attrs : node_attrs) : t :=
  match nodes g !! n with
  | None => mk (<[n := attrs]> (nodes g)) (edges g)
  | Some old => mk (<[n := update_attrs old attrs]> (nodes g)) (edges g)
  end.

(** [G.add_edge(u, v, key=key, **attrs)]: missing end points are
    added with empty attributes; an existing key is updated in place. *)
Definition add_edge (g : t) (u v key : uuid) (attrs : edge_attrs) : t :=
  let g1 := if has_node g u then g else add_node g u (mk_node None None None) in
  let g2 := if has_node g1 v then g1 else add_node g1 v (mk_node None None None) in
  mk (nodes g2) (<[(u, v, key) := attrs]> (edges g2)).

Definition number_of_nodes (g : t) : nat := size (nodes g).

Definition number_of_edges (g : t) : nat := size (edges g).
End MultiDiGraph.
Abbreviation MultiDiGraph := MultiDiGraph.t.

(** ** class Entity and class Observer(Entity) *)

Module Entity.
(** [reality_model] is [Some g] exactly for instances of [Observer]. *)
Record t := mk {
  id : uuid;
  interaction_history : list Interaction;
  local_time : Z;
  scale : float;
  properties : gmap string value;
  reality_model : option MultiDiGraph
}.
End Entity.
Abbreviation Entity := Entity.t.

(** The object store. A reference outside it is an object that is not an
    [Entity]: reading an attribute of it raises [AttributeError]. *)
Abbreviation Heap := (gmap nat Entity) (only parsing).

(** [Entity.__init__(scale)], with the fresh id already drawn *)
Definition Entity_init (i : uuid) (s : float) : Entity :=
  Entity.mk i [] 0 s ∅ None.

(** [Observer.__init__(scale)] *)
Definition Observer_init (i : uuid) (s : float) : Entity :=
  Entity.mk i [] 0 s ∅ (Some MultiDiGraph.empty).

(** [isinstance(entity, Observer)] *)
Definition is_Observer (e : Entity) : bool :=
  match Entity.reality_model e with
  | Some _ => true
  | None => false
  end.

Definition deref (r : ref) : M Heap Entity := fun h =>
  match h !! r with
  | Some e => (inr e, h)
  | None => (inl AttributeError, h)
  end.

Definition store (r : ref) (e : Entity) : M Heap unit := fun h =>
  (inr tt, <[r := e]> h).

Definition set_history_time (e : Entity) (hist : list Interaction) (lt : Z) : Entity :=
  Entity.mk (Entity.id e) hist lt (Entity.scale e) (Entity.properties e)
            (Entity.reality_model e).

Definition set_properties (e : Entity) (p : gmap string value) : Entity :=
  Entity.mk (Entity.id e) (Entity.interaction_history e) (Entity.local_time e)
            (Entity.scale e) p (Entity.reality_model e).

Definition set_reality_model (e : Entity) (g : MultiDiGraph) : Entity :=
  Entity.mk (Entity.id e) (Entity.interaction_history e) (Entity.local_time e)
            (Entity.scale e) (Entity.properties e) (Some g).

(** [Interaction.record_interaction(self, entity)] *)
Definition record_interaction (self : Interaction) (entity : ref) : M Heap unit :=
  e <- deref entity ;;
  store entity
    (set_history_time e (Entity.interaction_history e ++ [self])
                      (Entity.local_time e + 1)).

(** [Interaction.apply_effects(self, entity)] on the entity record: the new
    [properties], or the exception of the addition. *)
Definition effects_on (self : Interaction) (props : gmap string value)
    : exn + gmap string value :=
  if String.eqb (Interaction.interaction_type self) "gravity" then
    let current_mass := dict_get props "mass" (VInt 0) in
    match py_add current_mass
            (dict_get (Interaction.metadata self) "mass_change" (VInt 1)) with
    | inr v => inr (<["mass" := v]> props)
    | inl e => inl e
    end
  else if String.eqb (Interaction.interaction_type self) "fusion" then
    let current_energy := dict_get props "energy" (VInt 0) in
    match py_add current_energy
            (dict_get (Interaction.metadata self) "energy_gain" (VInt 10)) with
    | inr v => inr (<["energy" := v]> props)
    | inl e => inl e
    end
  else if String.eqb (Interaction.interaction_type self) "group_formed" then
    inr (<["group_id" := dict_get (Interaction.metadata self) "group_id" VNone]> props)
  else inr props.

Definition apply_effects (self : Interaction) (entity : ref) : M Heap unit :=
  e <- deref entity ;;
  match effects_on self (Entity.properties e) with
  | inr p => store entity (set_properties e p)
  | inl x => raise x
  end.

(** ** Observer.perceive_signal *)

Module Observer.
(** [self.reality_model], which only an [Observer] has. *)
Definition get_reality_model (self : ref) : M Heap MultiDiGraph :=
  o <- deref self ;;
  match Entity.reality_model o with
  | Some g => ret g
  | None => raise AttributeError
  end.

Definition set_model (self : ref) (g : MultiDiGraph) : M Heap unit :=
  o <- deref self ;;
  store self (set_reality_model o g).

(** [G.nodes[n]["properties"] = p; G.nodes[n]["local_time"] = lt] *)
Definition refresh_node (g : MultiDiGraph) (n : uuid)
    (p : gmap string value) (lt : Z) : MultiDiGraph :=
  MultiDiGraph.mk
    (alter (fun old => MultiDiGraph.mk_node (Some p) (MultiDiGraph.scale old) (Some lt))
           n (MultiDiGraph.nodes g))
    (MultiDiGraph.edges g).

(** The [if entity.id not in self.reality_model: ... else: ...] of the
    loop over the participants, on the graph. *)
Definition upsert_node (g : MultiDiGraph) (e : Entity) : MultiDiGraph :=
  if MultiDiGraph.has_node g (Entity.id e)
  then refresh_node g (Entity.id e) (Entity.properties e) (Entity.local_time e)
  else MultiDiGraph.add_node g (Entity.id e)
         (MultiDiGraph.mk_node (Some (Entity.properties e))
            (Some (Entity.scale e)) (Some (Entity.local_time e))).

(** The body of [for entity in interaction.participants]. *)
Definition perceive_participant (self entity : ref) : M Heap unit :=
  e <- deref entity ;;
  g <- get_reality_model self ;;
  set_model self (upsert_node g e).

Definition edge_of (interaction : Interaction) : MultiDiGraph.edge_attrs :=
  MultiDiGraph.mk_edge (Interaction.interaction_type interaction)
    (Interaction.timestamp interaction) (Interaction.metadata interaction).

(** The two [add_edge] calls of a binary interaction. *)
Definition perceive_edges (self : ref) (interaction : Interaction) : M Heap unit :=
  match Interaction.participants interaction with
  | [r1; r2] =>
      e1 <- deref r1 ;;
      e2 <- deref r2 ;;
      g <- get_reality_model self ;;
      set_model self
        (MultiDiGraph.add_edge
           (MultiDiGraph.add_edge g (Entity.id e1) (Entity.id e2)
              (Interaction.id interaction) (edge_of interaction))
           (Entity.id e2) (Entity.id e1)
           (Interaction.id interaction) (edge_of interaction))
  | _ => ret tt
  end.

Definition perceive_signal (self : ref) (interaction : Interaction) : M Heap unit :=
  if bool_decide (self ∈ Interaction.participants interaction)
  then
    for_each (Interaction.participants interaction) (perceive_participant self) ;;;
    perceive_edges self interaction
  else ret tt.

(** The entries of the report of [find_patterns] that are functions of the
    node and edge maps.  [most_frequent_interactions] and
    [highly_connected_entities] depend on networkx's iteration order and on
    float division, [num_perceived_clusters] on a graph search; they are
    not part of this record. *)
Record patterns := mk_patterns {
  num_perceived_entities : nat;
  num_perceived_relationships : nat;
  perceived_groups : gmap value nat
}.

(** The loop that fills the [Counter] of group ids. *)
Definition count_groups (nodes : gmap uuid MultiDiGraph.node_attrs) : gmap value nat :=
  map_fold
    (fun _ attrs counter =>
       let node_properties :=
         match MultiDiGraph.properties attrs with
         | Some p => p
         | None => ∅
         end in
       match node_properties !! "group_id" with
       | Some g => <[g := S (default 0 (counter !! g))]> counter
       | None => counter
       end)
    ∅ nodes.

Definition find_patterns_of (g : MultiDiGraph) : patterns :=
  mk_patterns
    (MultiDiGraph.number_of_nodes g)
    (MultiDiGraph.number_of_edges g)
    (filter (fun gc => 1 < gc.2) (count_groups (MultiDiGraph.nodes g))).

Definition find_patterns (self : ref) : M Heap patterns :=
  g <- get_reality_model self ;;
  ret (find_patterns_of g).
End Observer.

(** ** class Universe *)

Section Engine.
(** Whatever a rule may read and change besides the object store: the
    runtime, the random generator, module globals. *)
Context {W : Type}.

(** A rule is called with the roster; it reads the entities and returns a
    list of interactions or [None], or raises.  It cannot change the roster
    or the store. *)
Definition Rule : Type := list ref -> gmap nat Entity -> M W (option (list Interaction)).

Record Universe := mkUniverse {
  entities : list ref;
  interaction_rules : list Rule;
  interaction_history : list Interaction
}.

Definition Universe_init : Universe := mkUniverse [] [] [].

Definition add_entity (self : Universe) (entity : ref) : Universe :=
  mkUniverse (entities self ++ [entity]) (interaction_rules self)
             (interaction_history self).

Definition add_interaction_rule (self : Universe) (rule : Rule) : Universe :=
  mkUniverse (entities self) (interaction_rules self ++ [rule])
             (interaction_history self).

(** [for rule in self.interaction_rules: ...], with [new_interactions]
    as the accumulator. *)
Fixpoint rule_loop (rules : list Rule) (ents : list ref) (h : gmap nat Entity)
    (new_interactions : list Interaction) : M W (list Interaction) :=
  match rules with
  | [] => ret new_interactions
  | rule :: rules' =>
      interactions <- rule ents h ;;
      rule_loop rules' ents h
        (match interactions with
         | Some (i :: l) => new_interactions ++ i :: l
         | Some [] | None => new_interactions
         end)
  end.

(** The body of the inner loop of [tick]. *)
Definition tick_participant (interaction : Interaction) (entity : ref) : M Heap unit :=
  record_interaction interaction entity ;;;
  apply_effects interaction entity ;;;
  e <- deref entity ;;
  if is_Observer e then Observer.perceive_signal entity interaction else ret tt.

Definition effects_loop (new_interactions : list Interaction) : M Heap unit :=
  for_each new_interactions
    (fun interaction =>
       for_each (Interaction.participants interaction) (tick_participant interaction)).

(** [Universe.tick(self)]: the result, and the universe, the store and the
    world as the call leaves them. *)
Definition tick (self : Universe) (h : gmap nat Entity) (w : W)
    : (exn + list Interaction) * (Universe * gmap nat Entity * W) :=
  match rule_loop (interaction_rules self) (entities self) h [] w with
  | (inl e, w') => (inl e, (self, h, w'))
  | (inr new_interactions, w') =>
      let self' := mkUniverse (entities self) (interaction_rules self)
                     (interaction_history self ++ new_interactions) in
      match effects_loop new_interactions h with
      | (inl e, h') => (inl e, (self', h', w'))
      | (inr _, h') => (inr new_interactions, (self', h', w'))
      end
  end.
End Engine.

Arguments Rule : clear implicits.
Arguments Universe : clear implicits.

(** ** Rules *)

(** [scale_distance(scale1, scale2)], on doubles as Python computes it;
    [min(x, y)] is [y] when [y < x] and [x] otherwise. *)
Definition scale_distance (scale1 scale2 : float) : float :=
  let dist := PrimFloat.abs (scale1 - scale2) in
  let other := (1 - dist)%float in
  if (other <? dist)%float then other else dist.

(** A [Counter] with its insertion order. *)
Fixpoint counter_incr {K} `{EqDecision K} (k : K) (c : list (K * Z)) : list (K * Z) :=
  match c with
  | [] => [(k, 1%Z)]
  | (k', n) :: c' =>
      if decide (k = k') then (k', (n + 1)%Z) :: c' else (k', n) :: counter_incr k c'
  end.

(** [frozenset({a, b})], by its least and greatest member. *)
Definition frozenset2 (a b : uuid) : uuid * uuid := (N.min a b, N.max a b).

(** [next((e for e in entities if e.id == i), None)].  The roster has been
    walked by the counting loop before, so every member is an entity. *)
Definition find_by_id (ents : list ref) (h : gmap nat Entity) (i : uuid) : option ref :=
  List.find (fun r => match h !! r with
                      | Some e => bool_decide (Entity.id e = i)
                      | None => false
                      end) ents.

(** The counting of one history entry. *)
Definition count_interaction (h : gmap nat Entity) (interaction : Interaction)
    (counts : list (uuid * uuid * Z)) : exn + list (uuid * uuid * Z) :=
  match Interaction.participants interaction with
  | [r1; r2] =>
      match h !! r1, h !! r2 with
      | Some p1, Some p2 =>
          inr (counter_incr (frozenset2 (Entity.id p1) (Entity.id p2)) counts)
      | _, _ => inl AttributeError
      end
  | _ => inr counts
  end.

Fixpoint count_history (h : gmap nat Entity) (hist : list Interaction)
    (counts : list (uuid * uuid * Z)) : exn + list (uuid * uuid * Z) :=
  match hist with
  | [] => inr counts
  | interaction :: hist' =>
      match count_interaction h interaction counts with
      | inr counts' => count_history h hist' counts'
      | inl e => inl e
      end
  end.

(** The first loop of [group_formation_rule]. *)
Fixpoint count_pairs (h : gmap nat Entity) (ents : list ref)
    (counts : list (uuid * uuid * Z)) : exn + list (uuid * uuid * Z) :=
  match ents with
  | [] => inr counts
  | r :: ents' =>
      match h !! r with
      | Some e =>
          match count_history h (Entity.interaction_history e) counts with
          | inr counts' => count_pairs h ents' counts'
          | inl x => inl x
          end
      | None => inl AttributeError
      end
  end.

(** The body of [if e1 and e2:]: the decision on the two group ids. *)
Definition join_group (h : gmap nat Entity) (e1 e2 : ref)
    (new_interactions : list Interaction) : M Runtime (list Interaction) :=
  let group_id_of r :=
    match h !! r with
    | Some e => dict_get (Entity.properties e) "group_id" VNone
    | None => VNone
    end in
  let group_id_e1 := group_id_of e1 in
  let group_id_e2 := group_id_of e2 in
  if bool_decide (group_id_e1 = VNone) && bool_decide (group_id_e2 = VNone)
  then
    g <- uuid4 ;;
    i <- Interaction_init [e1; e2] "group_formed"
           (Some {["group_id" := VStr (str_uuid g)]}) ;;
    ret (new_interactions ++ [i])
  else if bool_decide (group_id_e1 ≠ group_id_e2)
  then
    new_group_id <-
      (if truthy group_id_e1 then ret group_id_e1
       else if truthy group_id_e2 then ret group_id_e2
       else (g <- uuid4 ;; ret (VStr (str_uuid g)))) ;;
    i <- Interaction_init [e1; e2] "group_formed"
           (Some {["group_id" := new_group_id]}) ;;
    ret (new_interactions ++ [i])
  else ret new_interactions.

(** The body of the second loop for a pair that reached the threshold. *)
Definition form_group (ents : list ref) (h : gmap nat Entity) (pair_ids : uuid * uuid)
    (new_interactions : list Interaction) : M Runtime (list Interaction) :=
  if bool_decide (pair_ids.1 = pair_ids.2)
  then raise (ValueError "not enough values to unpack (expected 2, got 1)")
  else
    rt <- get ;;
    let '(e1_id, e2_id) :=
      if frozenset_order rt pair_ids.1 pair_ids.2
      then (pair_ids.1, pair_ids.2) else (pair_ids.2, pair_ids.1) in
    match find_by_id ents h e1_id, find_by_id ents h e2_id with
    | Some e1, Some e2 => join_group h e1 e2 new_interactions
    | _, _ => ret new_interactions
    end.

(** The second loop of [group_formation_rule]. *)
Fixpoint form_groups (ents : list ref) (h : gmap nat Entity)
    (interaction_threshold : Z) (counts : list (uuid * uuid * Z))
    (new_interactions : list Interaction) : M Runtime (list Interaction) :=
  match counts with
  | [] => ret new_interactions
  | (pair_ids, count) :: counts' =>
      if (interaction_threshold <=? count)%Z
      then
        l <- form_group ents h pair_ids new_interactions ;;
        form_groups ents h interaction_threshold counts' l
      else form_groups ents h interaction_threshold counts' new_interactions
  end.

(** [group_formation_rule(entities, interaction_threshold)] *)
Definition group_formation_rule_with (interaction_threshold : Z)
    (ents : list ref) (h : gmap nat Entity) : M Runtime (option (list Interaction)) :=
  match count_pairs h ents [] with
  | inl e => raise e
  | inr interaction_counts =>
      l <- form_groups ents h interaction_threshold interaction_counts [] ;;
      ret (Some l)
  end.

(** The rule as it is registered: [interaction_threshold=2]. *)
Definition group_formation_rule : Rule Runtime := group_formation_rule_with 2.

(** The rule of [test_group_formation_rule] that makes [e1] and [e2]
    interact in every tick. *)
Definition guaranteed_interaction_rule (e1 e2 : ref) : Rule Runtime :=
  fun ents _ =>
    if bool_decide (e1 ∈ ents) && bool_decide (e2 ∈ ents)
    then i <- Interaction_init [e1; e2] "guaranteed_bond" None ;; ret (Some [i])
    else ret (Some []).

(** * The rules that draw random numbers or keep module globals

    [random] is a generator the rules cannot inspect: it is an oracle of the
    world, read one draw at a time.  [random.choice(seq)] is the element at
    a position below [len(seq)] that the oracle decides.
    [random.sample(seq, 2)] is the elements at two distinct positions: the
    first below [len(seq)], the second among the positions that are left,
    as CPython selects from its pool (for a population of more than 21 it
    draws again until the second position is new; the embedding takes the
    position the generator settles on). *)

(** ** The module's globals and the random generator *)

Record World := mkWorld {
  runtime : Runtime;
  random_source : nat -> nat;   (* the n-th draw of the generator *)
  random_calls : nat;
  persistent_pair : option (list ref);
  persistent_interaction_count : Z
}.

Definition set_runtime (w : World) (rt : Runtime) : World :=
  mkWorld rt (random_source w) (random_calls w) (persistent_pair w)
          (persistent_interaction_count w).

Definition set_persistent (w : World) (pair : option (list ref)) (count : Z) : World :=
  mkWorld (runtime w) (random_source w) (random_calls w) pair count.

(** A computation of the runtime, run in the world. *)
Definition lift_runtime {A} (m : M Runtime A) : M World A := fun w =>
  (fst (m (runtime w)), set_runtime w (snd (m (runtime w)))).

(** A position below [n] that the generator decides. *)
Definition randbelow (n : nat) : M World nat := fun w =>
  (inr (random_source w (random_calls w) mod n),
   mkWorld (runtime w) (random_source w) (S (random_calls w)) (persistent_pair w)
           (persistent_interaction_count w)).

(** [random.choice(seq)] for a sequence that is not empty. *)
Definition random_choice {A} (first : A) (others : list A) : M World A :=
  k <- randbelow (S (length others)) ;;
  ret (nth k (first :: others) first).

(** The two positions of [random.sample(seq, 2)], [n = len(seq)]: the pool
    holds the last element at the position taken first. *)
Definition sample_positions (n : nat) : M World (nat * nat) :=
  i <- randbelow n ;;
  j <- randbelow (n - 1) ;;
  ret (i, if j =? i then n - 1 else j).

(** [random.sample(seq, 2)] for a sequence of two elements or more. *)
Definition random_sample2 {A} (seq : list A) : M World (list A) :=
  ij <- sample_positions (length seq) ;;
  ret (omap (fun k => seq !! k) [ij.1; ij.2]).

(** ** The rules that draw random numbers *)

(** [gravity_rule(entities)] *)
Definition gravity_rule : Rule World := fun ents _ =>
  if length ents <? 2 then ret None
  else
    participants <- random_sample2 ents ;;
    i <- lift_runtime (Interaction_init participants "gravity"
                         (Some {["mass_change" := VInt 1]})) ;;
    ret (Some [i]).

(** The inner loop of [fusion_rule]: the partners of [e1] among the later
    members of the roster.  The threshold 0.05 is the double
    [0x1.999999999999ap-5]. *)
Fixpoint fusion_partners (h : gmap nat Entity) (e1 : ref) (later : list ref)
    (fusion_candidates : list (ref * ref)) : exn + list (ref * ref) :=
  match later with
  | [] => inr fusion_candidates
  | e2 :: later' =>
      match h !! e1, h !! e2 with
      | Some x1, Some x2 =>
          fusion_partners h e1 later'
            (if (scale_distance (Entity.scale x1) (Entity.scale x2)
                 <? 0x1.999999999999ap-5)%float
             then fusion_candidates ++ [(e1, e2)]
             else fusion_candidates)
      | _, _ => inl AttributeError
      end
  end.

(** The two loops of [fusion_rule]. *)
Fixpoint fusion_pairs (h : gmap nat Entity) (ents : list ref)
    (fusion_candidates : list (ref * ref)) : exn + list (ref * ref) :=
  match ents with
  | [] => inr fusion_candidates
  | e1 :: later =>
      match fusion_partners h e1 later fusion_candidates with
      | inr candidates => fusion_pairs h later candidates
      | inl x => inl x
      end
  end.

(** [fusion_rule(entities)] *)
Definition fusion_rule : Rule World := fun ents h =>
  match fusion_pairs h ents [] with
  | inl x => raise x
  | inr [] => ret None
  | inr (c :: cs) =>
      e12 <- random_choice c cs ;;
      i <- lift_runtime (Interaction_init [e12.1; e12.2] "fusion"
                           (Some {["energy_gain" := VInt 5]})) ;;
      ret (Some [i])
  end.

(** ** The rule that keeps module globals *)

(** [persistent_interaction_rule(entities, max_interactions)] *)
Definition persistent_interaction_rule_with (max_interactions : Z) : Rule World :=
  fun ents _ =>
    if length ents <? 2 then ret None
    else
      w <- get ;;
      (match persistent_pair w with
       | None =>
           pair <- random_sample2 ents ;;
           w' <- get ;;
           put (set_persistent w' (Some pair) 0)
       | Some _ => ret tt
       end) ;;;
      w <- get ;;
      if (persistent_interaction_count w <? max_interactions)%Z
      then
        put (set_persistent w (persistent_pair w)
               (persistent_interaction_count w + 1)) ;;;
        i <- lift_runtime
               (Interaction_init (default [] (persistent_pair w))
                  "persistent_bond" None) ;;
        ret (Some [i])
      else ret None.

(** The rule as it is registered: [max_interactions=5]. *)
Definition persistent_interaction_rule : Rule World :=
  persistent_interaction_rule_with 5.

(** A rule of the runtime, registered in a universe of the world. *)
Definition in_world (rule : Rule Runtime) : Rule World :=
  fun ents h => lift_runtime (rule ents h).

(** ** Scenarios of the test suite *)

(** A runtime: ids 1000, 1001, ..., the clock at 0, 1, ..., sets listed in
    increasing order. *)
Definition runtime0 : Runtime :=
  mkRuntime (fun n => N.of_nat (1000 + n)) 0 (fun n => inject_Z (Z.of_nat n)) 0 N.leb.

(** An entity that [properties["group_id"] = g] has put in a group. *)
Definition in_group (i : uuid) (s : float) (g : string) : Entity :=
  Entity.mk i [] 0 s {["group_id" := VStr g]} None.

(** An observer and five entities, as [test_observer_finds_patterns] sets
    them up: [e1], [e2] in "group1", [e3], [e4] in "group2"; [e5] is one
    more entity, in no group.  Scales are written as the doubles Python
    reads from the decimal literals, here 0.5, 0.1, 0.2, 0.3, 0.4 and
    0.9. *)
Definition observed_world : gmap nat Entity :=
  <[0 := Observer_init 100 0.5%float]>
  (<[1 := in_group 101 0x1.999999999999ap-4%float "group1"]>
  (<[2 := in_group 102 0x1.999999999999ap-3%float "group1"]>
  (<[3 := in_group 103 0x1.3333333333333p-2%float "group2"]>
  (<[4 := in_group 104 0x1.999999999999ap-2%float "group2"]>
  (<[5 := Entity_init 105 0x1.ccccccccccccdp-1%float]> ∅))))).

Definition the_observer : Entity := Observer_init 100 0.5%float.

Definition first_entity : Entity := in_group 101 0x1.999999999999ap-4%float "group1".

Definition signal (k : uuid) (a b : ref) (ty : string) : Interaction :=
  Interaction.mk k (inject_Z (Z.of_N k)) [a; b] ty ∅.

Definition first_signal : Interaction := signal 1 0 1 "type_A".

(** [e1] later on: it has gained mass and its local time has advanced. *)
Definition first_entity_later : Entity :=
  Entity.mk 101 [first_signal] 1 0x1.999999999999ap-4%float
    (<["mass" := VInt 3]> {["group_id" := VStr "group1"]}) None.

(** An interaction the observer has no part in. *)
Definition foreign_signal : Interaction := signal 9 1 2 "type_C".

(** The six perceptions of the test: four other entities. *)
Definition six_with_four : list Interaction :=
  [signal 1 0 1 "type_A"; signal 2 0 1 "type_A"; signal 3 0 2 "type_B";
   signal 4 0 3 "type_A"; signal 5 0 4 "type_B"; signal 6 0 2 "type_B"].

(** Six perceptions across five other entities. *)
Definition six_with_five : list Interaction :=
  [signal 1 0 1 "type_A"; signal 2 0 1 "type_A"; signal 3 0 2 "type_B";
   signal 4 0 3 "type_A"; signal 5 0 4 "type_B"; signal 6 0 5 "type_B"].

(** Three entities that have not interacted. *)
Definition three_entities : gmap nat Entity :=
  <[1 := Entity_init 101 0.25%float]>
  (<[2 := Entity_init 102 0.75%float]>
  (<[3 := Entity_init 103 0.5%float]> ∅)).

(** What the guaranteed rule makes in the first tick under [runtime0]. *)
Definition bond : Interaction :=
  Interaction.mk 1000 0 [1; 2] "guaranteed_bond" ∅.

(** The same after one tick of the guaranteed rule: [e1] and [e2] have
    interacted once. *)
Definition bonded_once : gmap nat Entity :=
  <[1 := Entity.mk 101 [bond] 1 0.25%float ∅ None]>
  (<[2 := Entity.mk 102 [bond] 1 0.75%float ∅ None]>
  (<[3 := Entity_init 103 0.5%float]> ∅)).

(** A rule that asks for an interaction with a single participant. *)
Definition lonely_rule : Rule Runtime :=
  fun ents _ =>
    i <- Interaction_init (take 1 ents) "lonely" None ;; ret (Some [i]).

Definition test_universe : Universe Runtime :=
  mkUniverse [1; 2; 3] [guaranteed_interaction_rule 1 2; group_formation_rule] [].

(** The interaction of [test_interaction_records_history_and_applies_effects]. *)
Definition gravity2 : Interaction :=
  Interaction.mk 7 0 [1; 2] "gravity" {["mass_change" := VInt 2]}.

(** ** Scenarios of the rules *)

(** A world: [runtime0], a generator whose n-th draw is [n], no pair yet. *)
Definition world0 : World := mkWorld runtime0 (fun n => n) 0 None 0.

Definition gravity_universe : Universe World :=
  mkUniverse [1; 2; 3] [gravity_rule] [].

(** What [gravity_rule] makes first in [world0]. *)
Definition first_gravity : Interaction :=
  Interaction.mk 1000 0 [1; 2] "gravity" {["mass_change" := VInt 1]}.

(** [e1] with a mass that is no number. *)
Definition heavy_entities : gmap nat Entity :=
  <[1 := Entity.mk 101 [] 0 0.25%float {["mass" := VStr "heavy"]} None]> three_entities.

(** Scales next to each other across the ends of the unit interval: 0.01,
    0.5 and 0.99. *)
Definition loop_neighbours : gmap nat Entity :=
  <[1 := Entity_init 101 0x1.47ae147ae147bp-7%float]>
  (<[2 := Entity_init 102 0.5%float]>
  (<[3 := Entity_init 103 0x1.fae147ae147aep-1%float]> ∅)).

(** Scales at the threshold of [fusion_rule]: 0.004 and 0.054. *)
Definition threshold_neighbours : gmap nat Entity :=
  <[1 := Entity_init 101 0x1.0624dd2f1a9fcp-8%float]>
  (<[2 := Entity_init 102 0x1.ba5e353f7ced9p-5%float]> ∅).

(** The universe of the main block, with the rules that are embedded. *)
Definition main_universe : Universe World :=
  mkUniverse [1; 2; 3]
    [gravity_rule; fusion_rule; in_world group_formation_rule;
     persistent_interaction_rule] [].

(** An observer and an entity that interact in every tick. *)
Definition observer_universe : Universe Runtime :=
  mkUniverse [0; 1] [guaranteed_interaction_rule 0 1] [].

(** Where a tick of [observer_universe] leaves it. *)
Definition observer_after_tick : Universe Runtime * gmap nat Entity * Runtime :=
  (tick observer_universe observed_world runtime0).2.

(** A "gravity" interaction of the observer with [e1]. *)
Definition observer_gravity : Interaction :=
  Interaction.mk 7 0 [0; 1] "gravity" {["mass_change" := VInt 2]}.

(** A universe in which [e1] interacts with itself. *)
Definition self_universe : Universe Runtime :=
  mkUniverse [1; 2; 3] [guaranteed_interaction_rule 1 1; group_formation_rule] [].

Definition self_bond : Interaction :=
  Interaction.mk 1000 0 [1; 1] "guaranteed_bond" ∅.

(** The store after one tick of [self_universe]. *)
Definition self_bonded : gmap nat Entity :=
  <[1 := Entity.mk 101 [self_bond; self_bond] 2 0.25%float ∅ None]> three_entities.

(** The group that [group_formation_rule] forms of [bonded_once]. *)
Definition first_group : Interaction :=
  Interaction.mk 1001 0 [1; 2] "group_formed" {["group_id" := VStr (str_uuid 1000)]}.

(** * Reasoning about computations *)

Section MonadFacts.
Context {S : Type}.

Lemma bind_inr {A B} (m : M S A) (k : A -> M S B) s b s' :
  bind m k s = (inr b, s') ->
  exists a s1, m s = (inr a, s1) /\ k a s1 = (inr b, s').
Proof.
  unfold bind. destruct (m s) as [[e|a] s1]; [discriminate|]. eauto.
Qed.

Lemma bind_run {A B} (m : M S A) (k : A -> M S B) s a s1 :
  m s = (inr a, s1) -> bind m k s = k a s1.
Proof. unfold bind. by intros ->. Qed.

(** Every state a computation can stop in, normally or not, is related
    to the state it started from. *)
Definition moves_by {A} (R : relation S) (m : M S A) : Prop :=
  forall s, R s (m s).2.

Lemma moves_by_ret {A} (R : relation S) `{!Reflexive R} (a : A) :
  moves_by R (ret a).
Proof. intros s. simpl. reflexivity. Qed.

Lemma moves_by_raise {A} (R : relation S) `{!Reflexive R} e :
  moves_by R (raise (A:=A) e).
Proof. intros s. simpl. reflexivity. Qed.

Lemma moves_by_bind {A B} (R : relation S) `{!Transitive R}
    (m : M S A) (k : A -> M S B) :
  moves_by R m -> (forall a, moves_by R (k a)) -> moves_by R (bind m k).
Proof.
  intros Hm Hk s. unfold bind. specialize (Hm s).
  destruct (m s) as [[e|a] s1]; simpl in *; [done|].
  etrans; [exact Hm|]. apply Hk.
Qed.

Lemma moves_by_for_each {A} (R : relation S) `{!PreOrder R}
    (xs : list A) (body : A -> M S unit) :
  (forall x, x ∈ xs -> moves_by R (body x)) -> moves_by R (for_each xs body).
Proof.
  induction xs as [|x xs IH]; intros Hb; simpl.
  - apply moves_by_ret, _.
  - apply moves_by_bind; [apply _| |].
    + apply Hb. left.
    + intros _. apply IH. intros y Hy. apply Hb. by right.
Qed.
End MonadFacts.

(** ** What a step leaves alone *)

(** Everything of an entity but the graph an observer owns. *)
Definition core (e : Entity) : uuid * list Interaction * Z * float * gmap string value :=
  (Entity.id e, Entity.interaction_history e, Entity.local_time e,
   Entity.scale e, Entity.properties e).

(** The store at every reference outside [P] is the same. *)
Definition same_outside (P : ref -> Prop) (h h' : gmap nat Entity) : Prop :=
  forall r, ~ P r -> h' !! r = h !! r.

(** No entity appears, disappears, or changes anything but its graph. *)
Definition same_cores (h h' : gmap nat Entity) : Prop :=
  forall r, core <$> h' !! r = core <$> h !! r.

#[global] Instance same_outside_preorder P : PreOrder (same_outside P).
Proof.
  split.
  - by intros h r _.
  - intros h1 h2 h3 H12 H23 r Hr. rewrite H23, H12; done.
Qed.

#[global] Instance same_cores_preorder : PreOrder same_cores.
Proof.
  split.
  - by intros h r.
  - intros h1 h2 h3 H12 H23 r. by rewrite H23, H12.
Qed.

Lemma same_outside_mono (P P' : ref -> Prop) h h' :
  (forall r, P r -> P' r) -> same_outside P h h' -> same_outside P' h h'.
Proof. intros Hsub H r Hr. apply H. intros Hin. apply Hr, Hsub, Hin. Qed.

Lemma deref_moves (R : relation (gmap nat Entity)) `{!Reflexive R} r :
  moves_by R (deref r).
Proof. intros h. unfold deref. destruct (h !! r); simpl; reflexivity. Qed.

Lemma store_outside r e : moves_by (same_outside (eq r)) (store r e).
Proof.
  intros h r' Hr'. simpl. by apply lookup_insert_ne.
Qed.

Lemma record_interaction_outside i r :
  moves_by (same_outside (eq r)) (record_interaction i r).
Proof.
  apply moves_by_bind; [apply _|apply deref_moves, _|].
  intros e. apply store_outside.
Qed.

Lemma apply_effects_outside i r :
  moves_by (same_outside (eq r)) (apply_effects i r).
Proof.
  apply moves_by_bind; [apply _|apply deref_moves, _|].
  intros e. destruct (effects_on i (Entity.properties e)).
  - apply moves_by_raise, _.
  - apply store_outside.
Qed.

Lemma get_reality_model_moves (R : relation (gmap nat Entity)) `{!PreOrder R} r :
  moves_by R (Observer.get_reality_model r).
Proof.
  apply moves_by_bind; [apply _|apply deref_moves, _|].
  intros e. destruct (Entity.reality_model e).
  - apply moves_by_ret, _.
  - apply moves_by_raise, _.
Qed.

Lemma set_model_outside r g : moves_by (same_outside (eq r)) (Observer.set_model r g).
Proof.
  apply moves_by_bind; [apply _|apply deref_moves, _|].
  intros e. apply store_outside.
Qed.

Lemma set_model_cores r g : moves_by same_cores (Observer.set_model r g).
Proof.
  intros h r'. unfold Observer.set_model, bind, deref.
  destruct (h !! r) as [e|] eqn:He; simpl; [|done].
  destruct (decide (r = r')) as [<-|Hne].
  - by rewrite lookup_insert_eq, He.
  - by rewrite lookup_insert_ne.
Qed.

Section PerceiveMoves.
Context (R : relation (gmap nat Entity)) `{!PreOrder R}.
Context (self : ref).
Hypothesis set_model_R : forall g, moves_by R (Observer.set_model self g).

Lemma perceive_participant_moves p :
  moves_by R (Observer.perceive_participant self p).
Proof using All.
  apply moves_by_bind; [apply _|apply deref_moves, _|]. intros e.
  apply moves_by_bind; [apply _|apply get_reality_model_moves, _|]. intros g.
  apply set_model_R.
Qed.

Lemma perceive_edges_moves i : moves_by R (Observer.perceive_edges self i).
Proof using All.
  unfold Observer.perceive_edges.
  destruct (Interaction.participants i) as [|r1 [|r2 [|]]];
    try (apply moves_by_ret, _).
  apply moves_by_bind; [apply _|apply deref_moves, _|]. intros e1.
  apply moves_by_bind; [apply _|apply deref_moves, _|]. intros e2.
  apply moves_by_bind; [apply _|apply get_reality_model_moves, _|]. intros g.
  apply set_model_R.
Qed.

Lemma perceive_signal_moves i : moves_by R (Observer.perceive_signal self i).
Proof using All.
  unfold Observer.perceive_signal. case_bool_decide.
  - apply moves_by_bind; [apply _| |].
    + apply moves_by_for_each; [apply _|]. intros p _.
      apply perceive_participant_moves.
    + intros _. apply perceive_edges_moves.
  - apply moves_by_ret, _.
Qed.
End PerceiveMoves.

Lemma perceive_signal_outside self i :
  moves_by (same_outside (eq self)) (Observer.perceive_signal self i).
Proof. apply perceive_signal_moves; [apply _|]. apply set_model_outside. Qed.

Lemma perceive_signal_cores self i :
  moves_by same_cores (Observer.perceive_signal self i).
Proof. apply perceive_signal_moves; [apply _|]. apply set_model_cores. Qed.

Lemma tick_participant_outside i r :
  moves_by (same_outside (eq r)) (tick_participant i r).
Proof.
  apply moves_by_bind; [apply _|apply record_interaction_outside|]. intros _.
  apply moves_by_bind; [apply _|apply apply_effects_outside|]. intros _.
  apply moves_by_bind; [apply _|apply deref_moves, _|]. intros e.
  destruct (is_Observer e).
  - apply perceive_signal_outside.
  - apply moves_by_ret, _.
Qed.

Lemma moves_by_weaken {S A} (R R' : relation S) (m : M S A) :
  (forall s s', R s s' -> R' s s') -> moves_by R m -> moves_by R' m.
Proof. intros HR Hm s. apply HR, Hm. Qed.

(** [r] takes part in one of the interactions [new]. *)
Definition participates (new : list Interaction) (r : ref) : Prop :=
  exists i, i ∈ new /\ r ∈ Interaction.participants i.

(** The effect phase of a tick changes the store only at participants of
    the interactions it is given. *)
Lemma effects_loop_outside new :
  moves_by (same_outside (participates new)) (effects_loop new).
Proof.
  unfold effects_loop.
  apply moves_by_for_each; [apply _|]. intros i Hi.
  apply moves_by_for_each; [apply _|]. intros p Hp.
  eapply moves_by_weaken; [|apply tick_participant_outside].
  intros h h'. apply same_outside_mono. intros r <-. by exists i.
Qed.

(** * The tick *)

Section Tick.
Context {W : Type}.
Implicit Types (u : Universe W) (h : gmap nat Entity) (w : W).

(** The interactions the rules of [u] produce in a tick started in [h]
    and [w] (none when a rule raises). *)
Definition produced u h w : list Interaction :=
  match rule_loop (interaction_rules u) (entities u) h [] w with
  | (inr new, _) => new
  | (inl _, _) => []
  end.

(** Calling each rule of a list once, in order, each on the same roster
    and the same store, threading only the world: the values they return. *)
Inductive rules_called (ents : list ref) h : list (Rule W) -> W ->
    list (option (list Interaction)) -> W -> Prop :=
  | rules_called_nil w : rules_called ents h [] w [] w
  | rules_called_cons rule rules w out w1 outs w2 :
      rule ents h w = (inr out, w1) ->
      rules_called ents h rules w1 outs w2 ->
      rules_called ents h (rule :: rules) w (out :: outs) w2.

(** What a returned value contributes: nothing for [None] and for []. *)
Definition output (out : option (list Interaction)) : list Interaction :=
  match out with
  | Some l => l
  | None => []
  end.

(** The entries one participant gets from the interactions of a tick:
    each interaction once per position it holds among the participants. *)
Definition occurrences (r : ref) (new : list Interaction) : list Interaction :=
  flat_map (fun i => repeat i (count_occ Nat.eq_dec (Interaction.participants i) r)) new.

Lemma rule_loop_inr rules ents h acc w new w' :
  rule_loop rules ents h acc w = (inr new, w') ->
  exists outs, rules_called ents h rules w outs w' /\
               new = acc ++ concat (map output outs).
Proof.
  revert acc w. induction rules as [|rule rules IH]; intros acc w; simpl.
  - intros [= <- <-]. exists []. split; [constructor|]. simpl. by rewrite app_nil_r.
  - intros Hrun. apply bind_inr in Hrun as (out & w1 & Hrule & Hrest).
    apply IH in Hrest as (outs & Hcalled & ->).
    exists (out :: outs). split; [by econstructor|]. simpl.
    destruct out as [[|i l]|]; simpl; by rewrite <-?app_assoc.
Qed.

Lemma rules_called_rule_loop rules ents h acc w outs w' :
  rules_called ents h rules w outs w' ->
  rule_loop rules ents h acc w = (inr (acc ++ concat (map output outs)), w').
Proof.
  intros Hc. revert acc. induction Hc as [w|rule rules w out w1 outs w2 Hr _ IH];
    intros acc; simpl.
  - by rewrite app_nil_r.
  - rewrite (bind_run _ _ _ _ _ Hr), IH.
    destruct out as [[|i l]|]; simpl; by rewrite <-?app_assoc.
Qed.

Lemma rules_called_length ents h rules w outs w' :
  rules_called ents h rules w outs w' -> length outs = length rules.
Proof. induction 1; simpl; congruence. Qed.

Lemma tick_participant_inr i p h h' :
  tick_participant i p h = (inr tt, h') ->
  exists e e', h !! p = Some e /\ h' !! p = Some e' /\
    Entity.interaction_history e' = Entity.interaction_history e ++ [i] /\
    Entity.local_time e' = (Entity.local_time e + 1)%Z /\
    forall r, r <> p -> h' !! r = h !! r.
Proof.
  intros Hrun. pose proof (tick_participant_outside i p h) as Hout.
  rewrite Hrun in Hout. simpl in Hout.
  unfold tick_participant in Hrun.
  apply bind_inr in Hrun as ([] & h1 & Hrec & Hrun).
  apply bind_inr in Hrun as ([] & h2 & Heff & Hrun).
  apply bind_inr in Hrun as (e2 & h2' & Hde & Hrun).
  unfold record_interaction, bind, deref, store in Hrec.
  destruct (h !! p) as [e|] eqn:He; [|discriminate]. injection Hrec as <-.
  unfold apply_effects, bind, deref in Heff. rewrite lookup_insert_eq in Heff.
  simpl in Heff.
  destruct (effects_on i (Entity.properties e)) as [x|props]; [discriminate|].
  injection Heff as <-.
  unfold deref in Hde. rewrite lookup_insert_eq in Hde. injection Hde as <- <-.
  assert (core <$> h' !! p = Some (core (set_properties (set_history_time e
            (Entity.interaction_history e ++ [i]) (Entity.local_time e + 1)) props)))
    as Hcore.
  { destruct (is_Observer _).
    - match type of Hrun with ?m ?h0 = _ =>
        pose proof (perceive_signal_cores p i h0 p) as Hc end.
      rewrite Hrun in Hc. simpl in Hc. by rewrite Hc, lookup_insert_eq.
    - injection Hrun as <-. by rewrite lookup_insert_eq. }
  destruct (h' !! p) as [e'|]; [|discriminate]. simpl in Hcore.
  injection Hcore as Hid Hhist Htime Hscale Hprops.
  exists e, e'. repeat split; try done.
  intros r Hr. by apply Hout.
Qed.

Lemma participants_loop_inr i ps h h' :
  for_each ps (tick_participant i) h = (inr tt, h') ->
  forall r e, h !! r = Some e ->
    exists e', h' !! r = Some e' /\
      Entity.interaction_history e' =
        Entity.interaction_history e ++ repeat i (count_occ Nat.eq_dec ps r) /\
      Entity.local_time e' =
        (Entity.local_time e + Z.of_nat (count_occ Nat.eq_dec ps r))%Z.
Proof.
  revert h. induction ps as [|p ps IH]; intros h; simpl.
  - intros [= <-] r e He. exists e. rewrite app_nil_r. split; [done|]. split; [done|lia].
  - intros Hrun r e He. apply bind_inr in Hrun as ([] & h1 & Hp & Hrest).
    apply tick_participant_inr in Hp as (ep & ep' & Hep & Hep' & Hh & Ht & Hother).
    destruct (Nat.eq_dec p r) as [->|Hne].
    + rewrite He in Hep. injection Hep as <-.
      destruct (IH _ Hrest r ep' Hep') as (e' & He' & Hh' & Ht').
      exists e'. split; [done|]. rewrite Hh', Ht', Hh, Ht. simpl.
      rewrite <-app_assoc. split; [done|lia].
    + apply (IH _ Hrest r e). rewrite Hother; [done|congruence].
Qed.

Lemma effects_loop_inr new h h' :
  effects_loop new h = (inr tt, h') ->
  forall r e, h !! r = Some e ->
    exists e', h' !! r = Some e' /\
      Entity.interaction_history e' = Entity.interaction_history e ++ occurrences r new /\
      Entity.local_time e' =
        (Entity.local_time e + Z.of_nat (length (occurrences r new)))%Z.
Proof.
  unfold effects_loop, occurrences. revert h.
  induction new as [|i new IH]; intros h; simpl.
  - intros [= <-] r e He. exists e. rewrite app_nil_r. split; [done|]. split; [done|lia].
  - intros Hrun r e He. apply bind_inr in Hrun as ([] & h1 & Hi & Hrest).
    destruct (participants_loop_inr _ _ _ _ Hi r e He) as (e1 & He1 & Hh1 & Ht1).
    destruct (IH _ Hrest r e1 He1) as (e' & He' & Hh' & Ht').
    exists e'. split; [done|]. rewrite Hh', Ht', Hh1, Ht1.
    rewrite <-app_assoc, length_app, repeat_length. split; [done|lia].
Qed.

(** A call of [tick] that returns: what it has done. *)
Lemma tick_inr u h w new u' h' w' :
  tick u h w = (inr new, (u', h', w')) ->
  exists outs,
    rules_called (entities u) h (interaction_rules u) w outs w' /\
    length outs = length (interaction_rules u) /\
    new = concat (map output outs) /\
    entities u' = entities u /\
    interaction_rules u' = interaction_rules u /\
    interaction_history u' = interaction_history u ++ new /\
    forall r e, h !! r = Some e ->
      exists e', h' !! r = Some e' /\
        Entity.interaction_history e' =
          Entity.interaction_history e ++ occurrences r new /\
        Entity.local_time e' =
          (Entity.local_time e + Z.of_nat (length (occurrences r new)))%Z.
Proof.
  unfold tick. intros Htick.
  destruct (rule_loop _ _ _ _ _) as [[x|new'] w1] eqn:Hrules; [discriminate|].
  destruct (effects_loop new' h) as [[x|[]] h1] eqn:Heff; [discriminate|].
  injection Htick as <- <- <- <-.
  apply rule_loop_inr in Hrules as (outs & Hcalled & ->). simpl.
  exists outs. split; [done|]. split; [by eapply rules_called_length|].
  repeat split. by apply effects_loop_inr.
Qed.

(** C10. Whatever a call of [tick] does, and however it ends, an entity
    that is not a participant of any interaction the rules produced in it
    is the same object afterwards: same properties, history, local time
    and scale, and, for an observer, the same reality model. *)
Theorem tick_leaves_non_participants u h w res u' h' w' r :
  tick u h w = (res, (u', h', w')) ->
  ~ participates (produced u h w) r ->
  h' !! r = h !! r.
Proof.
  unfold tick, produced. intros Htick Hr.
  destruct (rule_loop _ _ _ _ _) as [[x|new] w1]; [by injection Htick as <- <- <- <-|].
  pose proof (effects_loop_outside new h r Hr) as Hout.
  destruct (effects_loop new h) as [[x|[]] h1]; by injection Htick as <- <- <- <-.
Qed.
End Tick.

(** * Perception *)

(** What [perceive_signal] makes of the graph [g], given the participants
    as they are in the store: one upsert per participant, in order, then
    the two edges of a binary interaction. *)
Definition perceive_graph (snap : list Entity) (i : Interaction)
    (g : MultiDiGraph) : MultiDiGraph :=
  let g1 := foldl Observer.upsert_node g snap in
  match snap with
  | [e1; e2] =>
      MultiDiGraph.add_edge
        (MultiDiGraph.add_edge g1 (Entity.id e1) (Entity.id e2)
           (Interaction.id i) (Observer.edge_of i))
        (Entity.id e2) (Entity.id e1) (Interaction.id i) (Observer.edge_of i)
  | _ => g1
  end.

(** The participants [ps] are the entities [snap] of the store [h]. *)
Definition snapshot (h : gmap nat Entity) (ps : list ref) (snap : list Entity) : Prop :=
  Forall2 (fun p e => h !! p = Some e) ps snap.

Lemma set_reality_model_id (o : Entity) g :
  Entity.reality_model o = Some g -> set_reality_model o g = o.
Proof. destruct o. simpl. by intros ->. Qed.

Lemma upsert_node_core g e e' : core e = core e' ->
  Observer.upsert_node g e = Observer.upsert_node g e'.
Proof.
  unfold core, Observer.upsert_node. intros [= Hid _ Ht Hs Hp].
  by rewrite Hid, Ht, Hs, Hp.
Qed.

Section PerceiveRun.
Context (self : ref) (o : Entity) (h : gmap nat Entity).
Hypothesis Hself : h !! self = Some o.

Lemma deref_during g p e :
  h !! p = Some e ->
  exists e', deref p (<[self := set_reality_model o g]> h)
               = (inr e', <[self := set_reality_model o g]> h) /\
             core e' = core e.
Proof using Hself.
  intros Hp. unfold deref. destruct (decide (self = p)) as [<-|Hne].
  - rewrite lookup_insert_eq. eexists. split; [done|].
    rewrite Hself in Hp. by injection Hp as <-.
  - rewrite lookup_insert_ne by done. rewrite Hp. by eexists.
Qed.

Lemma get_reality_model_during g :
  Observer.get_reality_model self (<[self := set_reality_model o g]> h)
  = (inr g, <[self := set_reality_model o g]> h).
Proof.
  unfold Observer.get_reality_model, bind, deref. by rewrite lookup_insert_eq.
Qed.

Lemma set_model_during g g' :
  Observer.set_model self g' (<[self := set_reality_model o g]> h)
  = (inr tt, <[self := set_reality_model o g']> h).
Proof.
  unfold Observer.set_model, bind, deref, store. rewrite lookup_insert_eq.
  simpl. by rewrite insert_insert_eq.
Qed.

Lemma perceive_participants_run ps snap g :
  snapshot h ps snap ->
  for_each ps (Observer.perceive_participant self)
           (<[self := set_reality_model o g]> h)
  = (inr tt, <[self := set_reality_model o (foldl Observer.upsert_node g snap)]> h).
Proof using Hself.
  intros Hsnap. revert g. induction Hsnap as [|p e ps snap Hp _ IH]; intros g.
  - done.
  - simpl. unfold Observer.perceive_participant at 1.
    destruct (deref_during g p e Hp) as (e' & Hd & Hc).
    unfold bind at 1. unfold bind at 1. rewrite Hd.
    unfold bind at 1. rewrite get_reality_model_during.
    rewrite set_model_during. rewrite (upsert_node_core _ _ _ Hc). apply IH.
Qed.

Lemma perceive_edges_run i snap g :
  snapshot h (Interaction.participants i) snap ->
  Observer.perceive_edges self i (<[self := set_reality_model o g]> h)
  = (inr tt,
     <[self := set_reality_model o
         match snap with
         | [e1; e2] =>
             MultiDiGraph.add_edge
               (MultiDiGraph.add_edge g (Entity.id e1) (Entity.id e2)
                  (Interaction.id i) (Observer.edge_of i))
               (Entity.id e2) (Entity.id e1) (Interaction.id i) (Observer.edge_of i)
         | _ => g
         end]> h).
Proof using Hself.
  unfold Observer.perceive_edges, snapshot. intros Hsnap.
  destruct Hsnap as [|r1 e1 ps snap H1 Hsnap]; [done|].
  destruct Hsnap as [|r2 e2 ps snap H2 Hsnap]; [done|].
  destruct Hsnap as [|r3 e3 ps snap H3 Hsnap]; [|done].
  destruct (deref_during g r1 e1 H1) as (e1' & Hd1 & Hc1).
  destruct (deref_during g r2 e2 H2) as (e2' & Hd2 & Hc2).
  unfold bind at 1. rewrite Hd1. unfold bind at 1. rewrite Hd2.
  unfold bind at 1. rewrite get_reality_model_during, set_model_during.
  injection Hc1 as -> _ _ _ _. by injection Hc2 as -> _ _ _ _.
Qed.

(** A perception by a participant that is an observer always returns, and
    changes nothing but the observer's graph. *)
Lemma perceive_signal_run i snap g :
  Entity.reality_model o = Some g ->
  self ∈ Interaction.participants i ->
  snapshot h (Interaction.participants i) snap ->
  Observer.perceive_signal self i h
  = (inr tt, <[self := set_reality_model o (perceive_graph snap i g)]> h).
Proof using Hself.
  intros Hg Hin Hsnap. unfold Observer.perceive_signal.
  rewrite bool_decide_eq_true_2 by done.
  rewrite <-(insert_id h self o Hself) at 1.
  rewrite <-(set_reality_model_id o g Hg) at 1.
  unfold bind. rewrite (perceive_participants_run _ _ _ Hsnap).
  rewrite (perceive_edges_run _ _ _ Hsnap). unfold perceive_graph.
  by destruct snap as [|e1 [|e2 [|]]].
Qed.
End PerceiveRun.

(** * One step of the engine that returns *)

Lemma snapshot_exists (h : gmap nat Entity) ps :
  (forall p, p ∈ ps -> is_Some (h !! p)) -> exists snap, snapshot h ps snap.
Proof.
  unfold snapshot. induction ps as [|p ps IH]; intros Hps.
  - exists []. constructor.
  - destruct (Hps p) as [e He]; [left|].
    destruct IH as [snap Hsnap]; [intros q Hq; apply Hps; by right|].
    exists (e :: snap). by constructor.
Qed.

(** The engine's step for one participant, when the effect is well typed
    and the participants are entities: the participant is recorded, gets
    the new properties, and nothing but its own graph changes besides. *)
Lemma tick_participant_run i p (h : gmap nat Entity) e props' :
  h !! p = Some e ->
  effects_on i (Entity.properties e) = inr props' ->
  p ∈ Interaction.participants i ->
  (forall q, q ∈ Interaction.participants i -> is_Some (h !! q)) ->
  exists e', tick_participant i p h = (inr tt, <[p := e']> h) /\
    core e' = (Entity.id e, Entity.interaction_history e ++ [i],
               (Entity.local_time e + 1)%Z, Entity.scale e, props') /\
    is_Observer e' = is_Observer e.
Proof.
  intros He Heff Hin Hall.
  set (e2 := set_properties (set_history_time e
          (Entity.interaction_history e ++ [i]) (Entity.local_time e + 1)) props').
  assert (tick_participant i p h
          = (if is_Observer e2 then Observer.perceive_signal p i else ret tt)
              (<[p := e2]> h)) as ->.
  { unfold tick_participant, record_interaction, apply_effects, bind, deref, store.
    rewrite He, lookup_insert_eq. simpl. rewrite Heff, insert_insert_eq.
    by rewrite lookup_insert_eq. }
  destruct (Entity.reality_model e) as [g|] eqn:Hg.
  - assert (is_Observer e2 = true) as -> by (unfold is_Observer; simpl; by rewrite Hg).
    destruct (snapshot_exists (<[p := e2]> h) (Interaction.participants i))
      as [snap Hsnap].
    { intros q Hq. destruct (decide (p = q)) as [<-|Hne].
      - rewrite lookup_insert_eq. by eexists.
      - rewrite lookup_insert_ne by done. by apply Hall. }
    rewrite (perceive_signal_run p e2 _ (lookup_insert_eq _ _ _) i snap g Hg Hin Hsnap).
    rewrite insert_insert_eq. eexists. split; [done|]. split; [done|].
    unfold is_Observer. simpl. by rewrite Hg.
  - assert (is_Observer e2 = false) as -> by (unfold is_Observer; simpl; by rewrite Hg).
    exists e2. split; [done|]. split; [done|].
    unfold is_Observer. simpl. by rewrite Hg.
Qed.

(** * Effects *)

Lemma effects_on_gravity i props m c :
  Interaction.interaction_type i = "gravity" ->
  dict_get props "mass" (VInt 0) = VInt m ->
  dict_get (Interaction.metadata i) "mass_change" (VInt 1) = VInt c ->
  effects_on i props = inr (<["mass" := VInt (m + c)]> props).
Proof. unfold effects_on. by intros -> -> ->. Qed.

Lemma effects_on_fusion i props m c :
  Interaction.interaction_type i = "fusion" ->
  dict_get props "energy" (VInt 0) = VInt m ->
  dict_get (Interaction.metadata i) "energy_gain" (VInt 10) = VInt c ->
  effects_on i props = inr (<["energy" := VInt (m + c)]> props).
Proof. unfold effects_on. by intros -> -> ->. Qed.

Lemma effects_on_group_formed i props :
  Interaction.interaction_type i = "group_formed" ->
  effects_on i props
  = inr (<["group_id" := dict_get (Interaction.metadata i) "group_id" VNone]> props).
Proof. unfold effects_on. by intros ->. Qed.

Lemma effects_on_other i props :
  Interaction.interaction_type i <> "gravity" ->
  Interaction.interaction_type i <> "fusion" ->
  Interaction.interaction_type i <> "group_formed" ->
  effects_on i props = inr props.
Proof.
  unfold effects_on. intros H1 H2 H3.
  apply String.eqb_neq in H1, H2, H3. by rewrite H1, H2, H3.
Qed.

Lemma apply_effects_run i r (h : gmap nat Entity) e props' :
  h !! r = Some e ->
  effects_on i (Entity.properties e) = inr props' ->
  apply_effects i r h = (inr tt, <[r := set_properties e props']> h).
Proof. intros He Heff. unfold apply_effects, bind, deref, store. by rewrite He, Heff. Qed.

Lemma set_properties_id (e : Entity) : set_properties e (Entity.properties e) = e.
Proof. by destruct e. Qed.

(** C3. [apply_effects] on an entity [e] of the store: a "gravity"
    interaction adds [mass_change] (1 when the metadata has none) to
    [properties["mass"]] (0 when absent), a "fusion" interaction adds
    [energy_gain] (default 10) to [properties["energy"]], a "group_formed"
    interaction overwrites [properties["group_id"]] with the metadata's group
    id, and any other type leaves the store as it is.  The additions are
    Python's on integers.  When the engine processes a "gravity" interaction
    with [mass_change = 2] between two entities [a] and [b], the mass of both
    grows by exactly 2 and nothing else in their properties changes. *)
Theorem apply_effects_by_interaction_type (i : Interaction) (r : ref)
    (h : gmap nat Entity) (e : Entity) :
  h !! r = Some e ->
  (Interaction.interaction_type i = "gravity" ->
   forall m c,
     dict_get (Entity.properties e) "mass" (VInt 0) = VInt m ->
     dict_get (Interaction.metadata i) "mass_change" (VInt 1) = VInt c ->
     apply_effects i r h
     = (inr tt, <[r := set_properties e (<["mass" := VInt (m + c)]> (Entity.properties e))]> h))
  /\ (Interaction.interaction_type i = "fusion" ->
      forall m c,
        dict_get (Entity.properties e) "energy" (VInt 0) = VInt m ->
        dict_get (Interaction.metadata i) "energy_gain" (VInt 10) = VInt c ->
        apply_effects i r h
        = (inr tt, <[r := set_properties e (<["energy" := VInt (m + c)]> (Entity.properties e))]> h))
  /\ (Interaction.interaction_type i = "group_formed" ->
      apply_effects i r h
      = (inr tt, <[r := set_properties e
                   (<["group_id" := dict_get (Interaction.metadata i) "group_id" VNone]>
                      (Entity.properties e))]> h))
  /\ (Interaction.interaction_type i <> "gravity" ->
      Interaction.interaction_type i <> "fusion" ->
      Interaction.interaction_type i <> "group_formed" ->
      apply_effects i r h = (inr tt, h))
  /\ (forall b eb ma mb,
        Interaction.interaction_type i = "gravity" ->
        Interaction.metadata i !! "mass_change" = Some (VInt 2) ->
        Interaction.participants i = [r; b] ->
        r <> b ->
        h !! b = Some eb ->
        dict_get (Entity.properties e) "mass" (VInt 0) = VInt ma ->
        dict_get (Entity.properties eb) "mass" (VInt 0) = VInt mb ->
        exists h' e' eb',
          effects_loop [i] h = (inr tt, h') /\
          h' !! r = Some e' /\ h' !! b = Some eb' /\
          Entity.properties e' = <["mass" := VInt (ma + 2)]> (Entity.properties e) /\
          Entity.properties eb' = <["mass" := VInt (mb + 2)]> (Entity.properties eb)).
Proof.
  intros He. repeat split.
  - intros Hty m c Hm Hc. by apply apply_effects_run, effects_on_gravity.
  - intros Hty m c Hm Hc. by apply apply_effects_run, effects_on_fusion.
  - intros Hty. by apply apply_effects_run, effects_on_group_formed.
  - intros H1 H2 H3.
    rewrite (apply_effects_run i r h e (Entity.properties e) He)
      by (by apply effects_on_other).
    by rewrite set_properties_id, insert_id.
  - intros b eb ma mb Hty Hmd Hps Hne Hb Hma Hmb.
    assert (dict_get (Interaction.metadata i) "mass_change" (VInt 1) = VInt 2) as Hc
      by (unfold dict_get; by rewrite Hmd).
    destruct (tick_participant_run i r h e _ He (effects_on_gravity _ _ _ _ Hty Hma Hc))
      as (e' & Hrun1 & Hcore1 & _).
    { rewrite Hps. left. }
    { intros q. rewrite Hps. intros [->|[->|[]%elem_of_nil]%elem_of_cons]%elem_of_cons;
        by eexists. }
    assert (<[r := e']> h !! b = Some eb) as Hb1 by (by rewrite lookup_insert_ne).
    destruct (tick_participant_run i b _ eb _ Hb1 (effects_on_gravity _ _ _ _ Hty Hmb Hc))
      as (eb' & Hrun2 & Hcore2 & _).
    { rewrite Hps. right. left. }
    { intros q. rewrite Hps. intros [->|[->|[]%elem_of_nil]%elem_of_cons]%elem_of_cons.
      - rewrite lookup_insert_eq. by eexists.
      - by eexists. }
    exists (<[b := eb']> (<[r := e']> h)), e', eb'. split.
    { unfold effects_loop. simpl. rewrite Hps. simpl.
      unfold bind at 1. unfold bind at 1. rewrite Hrun1.
      unfold bind at 1. by rewrite Hrun2. }
    split; [by rewrite lookup_insert_ne, lookup_insert_eq|].
    split; [by rewrite lookup_insert_eq|].
    injection Hcore1 as _ _ _ _ ->. by injection Hcore2 as _ _ _ _ ->.
Qed.

(** * Construction of interactions *)

(** C4. [Interaction(participants, ...)] with fewer than two participants
    raises the [ValueError] of the constructor, and that is all it does: no
    id is drawn and the clock is not read.  With two or more participants it
    returns the interaction with these participants.  An exception that
    leaves a rule, as this one would, ends the call of [tick] before
    anything is recorded: the universe and the store are as they were. *)
Theorem Interaction_init_needs_two_participants (ps : list ref) (ty : string)
    (md : option (gmap string value)) (rt : Runtime) :
  (length ps < 2 ->
   Interaction_init ps ty md rt
   = (inl (ValueError "Interaction requires at least two participants."), rt))
  /\ (2 <= length ps ->
      exists i rt',
        Interaction_init ps ty md rt = (inr i, rt') /\
        Interaction.participants i = ps /\
        Interaction.interaction_type i = ty /\
        Interaction.metadata i = default ∅ md /\
        Interaction.id i = uuid4_source rt (uuid4_calls rt) /\
        Interaction.timestamp i = clock rt (time_calls rt))
  /\ (forall (W : Type) (u : Universe W) (h : gmap nat Entity) (w w' : W) (e : exn),
        rule_loop (interaction_rules u) (entities u) h [] w = (inl e, w') ->
        tick u h w = (inl e, (u, h, w'))).
Proof.
  unfold Interaction_init. repeat split.
  - intros Hlt. apply Nat.ltb_lt in Hlt. by rewrite Hlt.
  - intros Hge. apply Nat.ltb_ge in Hge. rewrite Hge.
    eexists _, _. split; [reflexivity|]. by destruct md.
  - intros W u h w w' e Hrules. unfold tick. by rewrite Hrules.
Qed.

(** * The loop of scale

    Python computes [scale_distance] on IEEE 754 doubles, and so does
    [scale_distance] here: both subtractions round.  The decimal literals
    0.1, 0.9, 0.2 and 0.5 are read as the doubles [0x1.999999999999ap-4],
    [0x1.ccccccccccccdp-1], [0x1.999999999999ap-3] and [0x1p-1]. *)

Section SpecFloatFacts.
Variables prec emax : Z.

Lemma SFabs_binary_round_aux s1 s2 m e l :
  SFabs (binary_round_aux prec emax s1 m e l)
  = SFabs (binary_round_aux prec emax s2 m e l).
Proof.
  unfold binary_round_aux.
  destruct (shr_fexp prec emax m e l) as [mrs' e'].
  destruct (shr_fexp prec emax _ e' loc_Exact) as [mrs'' e''].
  destruct (shr_m mrs''); [reflexivity| |reflexivity].
  destruct (Z.leb e'' (emax - prec)); reflexivity.
Qed.

Lemma SFabs_binary_round s1 s2 m e :
  SFabs (binary_round prec emax s1 m e) = SFabs (binary_round prec emax s2 m e).
Proof.
  unfold binary_round. destruct (shl_align m e _).
  apply SFabs_binary_round_aux.
Qed.

Lemma SFabs_binary_normalize_opp m e z z' :
  SFabs (binary_normalize prec emax m e z)
  = SFabs (binary_normalize prec emax (- m) e z').
Proof. destruct m; simpl; [reflexivity|apply SFabs_binary_round..]. Qed.

Lemma SFabs_SFsub_comm x y :
  SFabs (SFsub prec emax x y) = SFabs (SFsub prec emax y x).
Proof.
  destruct x as [sx|sx| |sx mx ex], y as [sy|sy| |sy my ey]; simpl;
    try reflexivity; try (destruct sx, sy; reflexivity).
  rewrite (Z.min_comm ey ex).
  rewrite (SFabs_binary_normalize_opp _ _ false false). f_equal. f_equal. lia.
Qed.

Lemma SFsub_diag_finite s m e :
  SFsub prec emax (S754_finite s m e) (S754_finite s m e) = S754_zero false.
Proof. simpl. rewrite Z.sub_diag. reflexivity. Qed.
End SpecFloatFacts.

Lemma abs_sub_comm (x y : float) :
  PrimFloat.abs (x - y) = PrimFloat.abs (y - x).
Proof.
  apply Prim2SF_inj. rewrite !abs_spec, !sub_spec. apply SFabs_SFsub_comm.
Qed.

Lemma scale_distance_symmetric (x y : float) :
  scale_distance x y = scale_distance y x.
Proof. unfold scale_distance. by rewrite (abs_sub_comm x y). Qed.

Lemma scale_distance_equal (x : float) :
  (0 <=? x)%float = true -> (x <=? 1)%float = true ->
  scale_distance x x = 0%float.
Proof.
  intros H0 H1. unfold scale_distance.
  assert (PrimFloat.abs (x - x) = 0%float) as ->.
  { apply Prim2SF_inj. rewrite abs_spec, sub_spec.
    rewrite leb_spec in H0, H1.
    destruct (Prim2SF x) as [s|s| |s m e] eqn:E.
    - destruct s; reflexivity.
    - destruct s; [discriminate H0|discriminate H1].
    - discriminate H0.
    - unfold SF64sub. rewrite SFsub_diag_finite. reflexivity. }
  vm_compute. reflexivity.
Qed.

(** At the points of the test suite. *)
Lemma scale_distance_at_test_points :
  scale_distance 0 1 = 0%float /\
  scale_distance 0x1.999999999999ap-4 0x1.ccccccccccccdp-1
  = 0x1.9999999999998p-3%float /\
  (PrimFloat.abs (scale_distance 0x1.999999999999ap-4 0x1.ccccccccccccdp-1
                  - 0x1.999999999999ap-3) <? 0x1p-53)%float = true.
Proof. repeat split; vm_compute; reflexivity. Qed.

(** ** The bound 0.5 *)

(** The order of [SFcompare] on the doubles that are no NaN. *)
Ltac compare_cases :=
  repeat match goal with
         | |- context [Z.compare ?a ?b] => destruct (Z.compare_spec a b)
         | H : context [Z.compare ?a ?b] |- _ => destruct (Z.compare_spec a b)
         | |- context [Pos.compare_cont Eq ?a ?b] =>
             change (Pos.compare_cont Eq a b) with (Pos.compare a b);
             destruct (Pos.compare_spec a b)
         | H : context [Pos.compare_cont Eq ?a ?b] |- _ =>
             change (Pos.compare_cont Eq a b) with (Pos.compare a b) in H;
             destruct (Pos.compare_spec a b)
         end.

Lemma SFcompare_Lt_trans (a b c : spec_float) :
  SFcompare a b = Some Lt -> SFcompare b c = Some Lt -> SFcompare a c = Some Lt.
Proof.
  destruct a as [sa|sa| |sa ma ea], b as [sb|sb| |sb mb eb],
    c as [sc|sc| |sc mc ec]; simpl;
    try destruct sa; try destruct sb; try destruct sc; simpl;
    try discriminate; try reflexivity;
    intros Hab Hbc; compare_cases; simpl in *;
    try discriminate; try reflexivity; exfalso; lia.
Qed.

Lemma SFcompare_Lt_Gt (a b : spec_float) :
  SFcompare a b = Some Lt -> SFcompare b a = Some Gt.
Proof.
  destruct a as [sa|sa| |sa ma ea], b as [sb|sb| |sb mb eb]; simpl;
    try destruct sa; try destruct sb; simpl;
    try discriminate; try reflexivity;
    intros Hab; compare_cases; simpl in *;
    try discriminate; try reflexivity; exfalso; lia.
Qed.

(** Shifts and numbers of digits. *)
Lemma iter_xO_pow (p k : positive) : Pos.iter xO p k = (p * 2 ^ k)%positive.
Proof.
  induction k as [|k IH] using Pos.peano_ind.
  - simpl. lia.
  - rewrite Pos.iter_succ, IH, Pos.pow_succ_r. lia.
Qed.

Lemma digits2_pos_size (p : positive) : digits2_pos p = Pos.size p.
Proof. induction p as [p IH|p IH|]; simpl; by rewrite ?IH. Qed.

Lemma digits2_pos_bounds (p : positive) :
  (2 ^ (Z.pos (digits2_pos p) - 1) <= Z.pos p < 2 ^ Z.pos (digits2_pos p))%Z.
Proof.
  rewrite digits2_pos_size. split.
  - pose proof (Pos.size_le p) as Hle.
    assert (2 ^ Z.pos (Pos.size p) <= 2 * Z.pos p)%Z as Hle'.
    { rewrite <-Pos2Z.inj_pow. lia. }
    replace (Z.pos (Pos.size p)) with (Z.succ (Z.pos (Pos.size p) - 1)) in Hle' by lia.
    rewrite Z.pow_succ_r in Hle' by lia. lia.
  - pose proof (Pos.size_gt p) as Hgt. rewrite <-Pos2Z.inj_pow. lia.
Qed.

Lemma digits2_pos_unique (p : positive) (n : Z) :
  (2 ^ (n - 1) <= Z.pos p < 2 ^ n)%Z -> Z.pos (digits2_pos p) = n.
Proof.
  intros [Hlo Hhi]. pose proof (digits2_pos_bounds p) as [Hlo' Hhi'].
  destruct (Z.lt_trichotomy (Z.pos (digits2_pos p)) n) as [Hlt|[Heq|Hgt]]; [|done|].
  - assert (2 ^ Z.pos (digits2_pos p) <= 2 ^ (n - 1))%Z
      by (apply Z.pow_le_mono_r; lia). lia.
  - assert (0 < n)%Z.
    { destruct (Z.le_gt_cases n 0) as [Hn|Hn]; [|done].
      assert (2 ^ n <= 2 ^ 0)%Z by (apply Z.pow_le_mono_r; lia). simpl in *. lia. }
    assert (2 ^ n <= 2 ^ (Z.pos (digits2_pos p) - 1))%Z
      by (apply Z.pow_le_mono_r; lia). lia.
Qed.

Lemma digits2_pos_shift (p k : positive) :
  digits2_pos (Pos.iter xO p k) = (digits2_pos p + k)%positive.
Proof.
  apply Pos2Z.inj. apply digits2_pos_unique. rewrite iter_xO_pow.
  pose proof (digits2_pos_bounds p) as [Hlo Hhi].
  rewrite Pos2Z.inj_mul, Pos2Z.inj_pow, Pos2Z.inj_add.
  replace (Z.pos (digits2_pos p) + Z.pos k - 1)%Z
    with ((Z.pos (digits2_pos p) - 1) + Z.pos k)%Z by lia.
  rewrite !Z.pow_add_r by lia.
  assert (0 < 2 ^ Z.pos k)%Z by (apply Z.pow_pos_nonneg; lia). nia.
Qed.

(** Right shifts of a mantissa that is not negative. *)
Lemma shr_1_nonneg mrs : (0 <= shr_m mrs)%Z -> (0 <= shr_m (shr_1 mrs))%Z.
Proof. destruct mrs as [[|[p|p|]|p] r s]; simpl; lia. Qed.

Lemma iter_pos_shr_1_nonneg (n : positive) mrs :
  (0 <= shr_m mrs)%Z -> (0 <= shr_m (SpecFloat.iter_pos shr_1 n mrs))%Z.
Proof.
  revert mrs. induction n as [n IH|n IH|]; intros mrs Hm; simpl.
  - apply IH, IH. by apply shr_1_nonneg.
  - by apply IH, IH.
  - by apply shr_1_nonneg.
Qed.

Lemma shr_fexp_nonneg (m e : Z) (l : location) :
  (0 <= m)%Z -> (0 <= shr_m (shr_fexp prec emax m e l).1)%Z.
Proof.
  intros Hm. unfold shr_fexp, shr.
  assert (0 <= shr_m (shr_record_of_loc m l))%Z as Hrec
    by (by destruct l as [|[]]).
  destruct (_ - _)%Z; simpl; [done| |done].
  by apply iter_pos_shr_1_nonneg.
Qed.

Lemma round_nearest_even_nonneg m l :
  (0 <= m)%Z -> (0 <= round_nearest_even m l)%Z.
Proof. intros Hm. destruct l as [|[]]; simpl; [done| |done|lia]. destruct (Z.even m); lia. Qed.

(** A double that is rounded from a negative number is below every
    positive double. *)
Lemma binary_round_negative (m : positive) (e : Z) (mb : positive) (eb : Z) :
  SFcompare (binary_round prec emax true m e) (S754_finite false mb eb) = Some Lt.
Proof.
  unfold binary_round. destruct (shl_align _ _ _) as [mz ez].
  unfold binary_round_aux.
  pose proof (shr_fexp_nonneg (Z.pos mz) ez loc_Exact) as H1.
  destruct (shr_fexp prec emax (Z.pos mz) ez loc_Exact) as [mrs' e'].
  simpl in H1.
  pose proof (shr_fexp_nonneg
                (round_nearest_even (shr_m mrs') (loc_of_shr_record mrs')) e' loc_Exact)
    as H2.
  destruct (shr_fexp prec emax _ e' loc_Exact) as [mrs'' e'']. simpl in H2.
  specialize (H1 ltac:(lia)).
  specialize (H2 (round_nearest_even_nonneg _ _ H1)).
  destruct (shr_m mrs'') as [|p|p]; [done| |lia].
  by destruct (e'' <=? emax - prec)%Z.
Qed.

(** A mantissa of fewer than 53 digits is normalised without rounding. *)
Lemma binary_round_short (p : positive) (e : Z) :
  (Z.pos (digits2_pos p) < 53)%Z ->
  (-1074 <= Z.pos (digits2_pos p) + e - 53 <= 971)%Z ->
  exists mz, binary_round prec emax false p e
             = S754_finite false mz (Z.pos (digits2_pos p) + e - 53).
Proof.
  intros Hdp He. unfold binary_round, fexp, emin, prec, emax.
  set (dp := Z.pos (digits2_pos p)) in *.
  rewrite Z.max_l by lia. unfold shl_align.
  destruct (dp + e - 53 - e)%Z as [|d|d] eqn:Hd; [lia|lia|].
  assert (Z.pos d = 53 - dp)%Z as Hd' by lia.
  set (mz := Pos.iter xO p d).
  assert (Z.pos (digits2_pos mz) = 53)%Z as Hmz.
  { unfold mz. rewrite digits2_pos_shift. fold dp. lia. }
  exists mz. unfold binary_round_aux, shr_fexp, fexp, emin. simpl Zdigits2.
  rewrite Hmz. rewrite Z.max_l by lia.
  replace (53 + (dp + e - 53) - 53 - (dp + e - 53))%Z with 0%Z by lia.
  simpl. rewrite Hmz. rewrite Z.max_l by lia.
  replace (53 + (dp + e - 53) - 53 - (dp + e - 53))%Z with 0%Z by lia.
  simpl. by rewrite (proj2 (Z.leb_le _ _)) by lia.
Qed.

Definition SF_one : spec_float := S754_finite false 4503599627370496 (-52).

Definition SF_half : spec_float := S754_finite false 4503599627370496 (-53).

(** For a double [d] above 0.5 the double [1 - d] is below 0.5. *)
Lemma one_minus_above_half (m : positive) (e : Z) :
  bounded prec emax m e = true ->
  SFcompare SF_half (S754_finite false m e) = Some Lt ->
  SFcompare (SFsub prec emax SF_one (S754_finite false m e)) SF_half = Some Lt.
Proof.
  unfold bounded, canonical_mantissa, fexp, emin, prec, emax.
  intros [Hcanon _]%andb_prop Habove. apply Z.eqb_eq in Hcanon.
  pose proof (digits2_pos_bounds m) as [Hlo Hhi].
  assert ((-53 < e)%Z \/ (e = -53 /\ 4503599627370496 < Z.pos m)%Z) as Hcases.
  { unfold SF_half in Habove. cbn [SFcompare] in Habove.
    compare_cases; try discriminate; [right; lia|left; lia]. }
  clear Habove. destruct Hcases as [He|[-> Hm]].
  - (* [d >= 1]: the difference is zero or negative *)
    assert (Z.pos (digits2_pos m) = 53)%Z as Hdigits by lia.
    rewrite Hdigits in Hlo. change (2 ^ (53 - 1))%Z with 4503599627370496%Z in Hlo.
    unfold SF_one, SFsub. rewrite Z.min_l by lia.
    change (shl_align 4503599627370496 (-52) (-52)) with (4503599627370496%positive, (-52)%Z).
    assert (4503599627370496 <= Z.pos (shl_align m e (-52)).1)%Z as Hshift.
    { unfold shl_align. destruct (-52 - e)%Z as [|d|d]; simpl; [done|done|].
      rewrite iter_xO_pow. nia. }
    unfold cond_Zopp. cbn [fst].
    destruct (Z.pos 4503599627370496 - Z.pos (shl_align m e (-52)).1)%Z as [|q|q] eqn:Hq;
      [done|lia|].
    simpl binary_normalize. apply binary_round_negative.
  - (* [0.5 < d < 1]: the difference is exact *)
    assert (Z.pos (digits2_pos m) = 53)%Z as Hdigits by lia.
    rewrite Hdigits in Hhi.
    change (2 ^ 53)%Z with 9007199254740992%Z in Hhi.
    unfold SF_one, SFsub.
    change (Z.min (-52) (-53)) with (-53)%Z.
    change (shl_align 4503599627370496 (-52) (-53)) with (9007199254740992%positive, (-53)%Z).
    change (shl_align m (-53) (-53)) with (m, (-53)%Z).
    unfold cond_Zopp. cbn [fst].
    destruct (Z.pos 9007199254740992 - Z.pos m)%Z as [|p|p] eqn:Hp; [lia| |lia].
    simpl binary_normalize.
    pose proof (digits2_pos_bounds p) as [Hplo Hphi].
    assert (Z.pos (digits2_pos p) < 53)%Z as Hshort.
    { destruct (Z.le_gt_cases 53 (Z.pos (digits2_pos p))) as [Hge|?]; [|done].
      assert (2 ^ 52 <= 2 ^ (Z.pos (digits2_pos p) - 1))%Z
        by (apply Z.pow_le_mono_r; lia).
      change (2 ^ 52)%Z with 4503599627370496%Z in *. lia. }
    destruct (binary_round_short p (-53) Hshort) as [mz Hmz]; [lia|].
    unfold prec, emax in Hmz. rewrite Hmz.
    unfold SF_half. cbn [SFcompare].
    assert (Z.pos (digits2_pos p) + -53 - 53 < -53)%Z as Hlt by (clear -Hshort; lia).
    apply Z.compare_lt_iff in Hlt. by rewrite Hlt.
Qed.

(** [scale_distance] never exceeds 0.5. *)
Lemma scale_distance_at_most_half (x y : float) :
  (0.5 <? scale_distance x y)%float = false.
Proof.
  unfold scale_distance.
  set (d := PrimFloat.abs (x - y)).
  pose proof (Prim2SF_valid d) as Hvalid.
  assert (Prim2SF d = SFabs (Prim2SF (x - y))) as Habs by apply abs_spec.
  rewrite (ltb_spec (1 - d) d), sub_spec.
  change (Prim2SF 1) with SF_one. unfold SF64sub.
  assert (forall r, (0.5 <? r)%float = SFltb SF_half (Prim2SF r)) as Hhalf
    by (intros r; apply ltb_spec).
  destruct (Prim2SF (x - y)) as [s|s| |s m e]; simpl in Habs.
  - (* the scales are equal *)
    rewrite Habs. simpl. by rewrite Hhalf, Habs.
  - (* a scale is infinite *)
    rewrite Habs. simpl. rewrite Hhalf, sub_spec, Habs. reflexivity.
  - (* a scale is no number *)
    rewrite Habs. simpl. by rewrite Hhalf, Habs.
  - rewrite Habs in Hvalid |- *. simpl in Hvalid.
    destruct (SFcompare SF_half (S754_finite false m e)) as [[| |]|] eqn:Hcmp.
    + (* [d = 0.5] *)
      destruct (SFltb _ _) eqn:Hlt.
      * rewrite Hhalf, sub_spec, Habs. change (Prim2SF 1) with SF_one. unfold SF64sub.
        unfold SFltb in Hlt |- *.
        destruct (SFcompare (SFsub prec emax SF_one (S754_finite false m e))
                    (S754_finite false m e)) as [[| |]|] eqn:Hod; try discriminate.
        destruct (SFcompare SF_half (SFsub prec emax SF_one (S754_finite false m e)))
          as [[| |]|] eqn:Hho; try reflexivity.
        by rewrite (SFcompare_Lt_trans _ _ _ Hho Hod) in Hcmp.
      * rewrite Hhalf, Habs. unfold SFltb. by rewrite Hcmp.
    + (* [d > 0.5] *)
      pose proof (one_minus_above_half m e Hvalid Hcmp) as Hbelow.
      unfold SFltb at 1.
      rewrite (SFcompare_Lt_trans _ _ _ Hbelow Hcmp).
      rewrite Hhalf, sub_spec, Habs. change (Prim2SF 1) with SF_one. unfold SF64sub.
      unfold SFltb. by rewrite (SFcompare_Lt_Gt _ _ Hbelow).
    + (* [d < 0.5] *)
      destruct (SFltb _ _) eqn:Hlt.
      * rewrite Hhalf, sub_spec, Habs. change (Prim2SF 1) with SF_one. unfold SF64sub.
        unfold SFltb in Hlt |- *.
        destruct (SFcompare (SFsub prec emax SF_one (S754_finite false m e))
                    (S754_finite false m e)) as [[| |]|] eqn:Hod; try discriminate.
        destruct (SFcompare SF_half (SFsub prec emax SF_one (S754_finite false m e)))
          as [[| |]|] eqn:Hho; try reflexivity.
        by rewrite (SFcompare_Lt_trans _ _ _ Hho Hod) in Hcmp.
      * rewrite Hhalf, Habs. unfold SFltb. by rewrite Hcmp.
    + discriminate Hcmp.
Qed.

(** Rounding never gives NaN. *)
Lemma binary_round_not_nan (s : bool) (m : positive) (e : Z) :
  binary_round prec emax s m e <> S754_nan.
Proof.
  unfold binary_round. destruct (shl_align _ _ _) as [mz ez].
  unfold binary_round_aux.
  pose proof (shr_fexp_nonneg (Z.pos mz) ez loc_Exact) as H1.
  destruct (shr_fexp prec emax (Z.pos mz) ez loc_Exact) as [mrs' e'].
  simpl in H1.
  pose proof (shr_fexp_nonneg
                (round_nearest_even (shr_m mrs') (loc_of_shr_record mrs')) e' loc_Exact)
    as H2.
  destruct (shr_fexp prec emax _ e' loc_Exact) as [mrs'' e'']. simpl in H2.
  specialize (H1 ltac:(lia)).
  specialize (H2 (round_nearest_even_nonneg _ _ H1)).
  destruct (shr_m mrs'') as [|p|p]; [done| |lia].
  by destruct (e'' <=? emax - prec)%Z.
Qed.

(** Zero or finite, as the scales of [0, 1] are. *)
Definition SFfinite (x : spec_float) : bool :=
  match x with
  | S754_zero _ | S754_finite _ _ _ => true
  | _ => false
  end.

Lemma SFsub_not_nan (x y : spec_float) :
  SFfinite x = true -> y <> S754_nan -> SFsub prec emax x y <> S754_nan.
Proof.
  destruct x as [sx|sx| |sx mx ex], y as [sy|sy| |sy my ey]; simpl;
    try done; intros _ _; try done.
  - by destruct sx, sy.
  - unfold binary_normalize.
    destruct (_ - _)%Z; [done|apply binary_round_not_nan..].
Qed.

Lemma SFabs_not_nan (x : spec_float) : x <> S754_nan -> SFabs x <> S754_nan.
Proof. by destruct x. Qed.

Lemma in_unit_finite (x : float) :
  (0 <=? x)%float = true -> (x <=? 1)%float = true -> SFfinite (Prim2SF x) = true.
Proof.
  rewrite !leb_spec. intros H0 H1.
  destruct (Prim2SF x) as [s|s| |s m e]; try done.
  destruct s; [discriminate H0|discriminate H1].
Qed.

Lemma SFfinite_not_nan (x : spec_float) : SFfinite x = true -> x <> S754_nan.
Proof. by destruct x. Qed.

(** What is not above and is a number is at most. *)
Lemma SFleb_of_not_SFltb (a b : spec_float) :
  a <> S754_nan -> b <> S754_nan -> SFltb a b = false -> SFleb b a = true.
Proof.
  unfold SFltb, SFleb.
  destruct a as [sa|sa| |sa ma ea], b as [sb|sb| |sb mb eb]; simpl;
    try destruct sa; try destruct sb; simpl;
    try done; intros _ _;
    compare_cases; simpl in *; try done; try (exfalso; lia).
Qed.

Lemma scale_distance_not_nan (a b : float) :
  (0 <=? a)%float = true -> (a <=? 1)%float = true ->
  (0 <=? b)%float = true -> (b <=? 1)%float = true ->
  Prim2SF (scale_distance a b) <> S754_nan.
Proof.
  intros Ha0 Ha1 Hb0 Hb1. unfold scale_distance.
  assert (Prim2SF (PrimFloat.abs (a - b)) <> S754_nan) as Hd.
  { rewrite abs_spec, sub_spec. apply SFabs_not_nan, SFsub_not_nan.
    - by apply in_unit_finite.
    - by apply SFfinite_not_nan, in_unit_finite. }
  destruct (_ <? _)%float; [|done].
  rewrite sub_spec. by apply SFsub_not_nan.
Qed.

(** For scales of [0, 1] the distance is a number, and at most 0.5. *)
Lemma scale_distance_in_unit_at_most_half (a b : float) :
  (0 <=? a)%float = true -> (a <=? 1)%float = true ->
  (0 <=? b)%float = true -> (b <=? 1)%float = true ->
  (scale_distance a b <=? 0.5)%float = true.
Proof.
  intros Ha0 Ha1 Hb0 Hb1. rewrite leb_spec.
  apply SFleb_of_not_SFltb.
  - done.
  - by apply scale_distance_not_nan.
  - rewrite <-ltb_spec. apply scale_distance_at_most_half.
Qed.

(** C9 (as amended). On doubles, as Python computes it, [scale_distance a b]
    is the smaller of [|a - b|] and [1 - |a - b|], each rounded; it is
    symmetric for all doubles, 0 for equal scales of [0, 1] and 0 between 0
    and 1; it is never above 0.5, and for scales of [0, 1] it is a number
    that is at most 0.5.  Between 0.1 and 0.9 it is
    [0x1.9999999999998p-3], the double next but one below 0.2, which is
    0.2 to within 2^-53. *)
Theorem scale_distance_cyclic :
  (forall a b : float,
     scale_distance a b
     = let dist := PrimFloat.abs (a - b) in
       if (1 - dist <? dist)%float then (1 - dist)%float else dist)
  /\ (forall a b : float, scale_distance a b = scale_distance b a)
  /\ (forall a : float,
        (0 <=? a)%float = true -> (a <=? 1)%float = true ->
        scale_distance a a = 0%float)
  /\ scale_distance 0 1 = 0%float
  /\ scale_distance 0x1.999999999999ap-4 0x1.ccccccccccccdp-1
     = 0x1.9999999999998p-3%float
  /\ (PrimFloat.abs (scale_distance 0x1.999999999999ap-4 0x1.ccccccccccccdp-1
                     - 0x1.999999999999ap-3) <? 0x1p-53)%float = true
  /\ (forall a b : float, (0.5 <? scale_distance a b)%float = false)
  /\ (forall a b : float,
        (0 <=? a)%float = true -> (a <=? 1)%float = true ->
        (0 <=? b)%float = true -> (b <=? 1)%float = true ->
        (scale_distance a b <=? 0.5)%float = true).
Proof.
  split; [|split; [|split; [|split; [|split; [|split; [|split]]]]]].
  - intros a b. reflexivity.
  - apply scale_distance_symmetric.
  - apply scale_distance_equal.
  - apply scale_distance_at_test_points.
  - apply scale_distance_at_test_points.
  - apply scale_distance_at_test_points.
  - apply scale_distance_at_most_half.
  - apply scale_distance_in_unit_at_most_half.
Qed.

(** C9 as stated fails: computed on doubles, the distance between 0.1 and
    0.9 is not the double 0.2. *)
Theorem scale_distance_of_a_tenth_and_nine_tenths :
  scale_distance 0x1.999999999999ap-4 0x1.ccccccccccccdp-1
  <> 0x1.999999999999ap-3%float.
Proof.
  intros H.
  apply (f_equal (fun x => (x =? 0x1.999999999999ap-3)%float)) in H.
  vm_compute in H. discriminate H.
Qed.

(** * The perceived graph *)

(** The attributes an upsert leaves at the node of [e]: all three copied for
    a new node, [scale] kept for an old one. *)
Definition upserted (old : option MultiDiGraph.node_attrs) (e : Entity)
    : MultiDiGraph.node_attrs :=
  match old with
  | Some a =>
      MultiDiGraph.mk_node (Some (Entity.properties e)) (MultiDiGraph.scale a)
        (Some (Entity.local_time e))
  | None =>
      MultiDiGraph.mk_node (Some (Entity.properties e)) (Some (Entity.scale e))
        (Some (Entity.local_time e))
  end.

Lemma upsert_node_nodes g e :
  MultiDiGraph.nodes (Observer.upsert_node g e)
  = <[Entity.id e := upserted (MultiDiGraph.nodes g !! Entity.id e) e]>
      (MultiDiGraph.nodes g).
Proof.
  unfold Observer.upsert_node, MultiDiGraph.has_node, Observer.refresh_node,
    MultiDiGraph.add_node, upserted.
  destruct (MultiDiGraph.nodes g !! Entity.id e) as [a|] eqn:Ha.
  - rewrite bool_decide_eq_true_2 by (by eexists). simpl.
    apply map_eq. intros n. destruct (decide (Entity.id e = n)) as [<-|Hne].
    + by rewrite lookup_alter_eq, lookup_insert_eq, Ha.
    + by rewrite lookup_alter_ne, lookup_insert_ne.
  - rewrite bool_decide_eq_false_2 by (by intros [? [=]]). done.
Qed.

Lemma upsert_node_edges g e :
  MultiDiGraph.edges (Observer.upsert_node g e) = MultiDiGraph.edges g.
Proof.
  unfold Observer.upsert_node, Observer.refresh_node, MultiDiGraph.add_node.
  destruct (MultiDiGraph.has_node _ _); [done|].
  by destruct (MultiDiGraph.nodes g !! Entity.id e).
Qed.

Lemma add_node_edges g n a :
  MultiDiGraph.edges (MultiDiGraph.add_node g n a) = MultiDiGraph.edges g.
Proof. unfold MultiDiGraph.add_node. by destruct (MultiDiGraph.nodes g !! n). Qed.

Lemma add_edge_edges g u v k a :
  MultiDiGraph.edges (MultiDiGraph.add_edge g u v k a)
  = <[(u, v, k) := a]> (MultiDiGraph.edges g).
Proof.
  unfold MultiDiGraph.add_edge. simpl.
  destruct (MultiDiGraph.has_node g u); [|rewrite ?add_node_edges];
    match goal with |- context [MultiDiGraph.has_node ?g' v] =>
      destruct (MultiDiGraph.has_node g' v) end;
    by rewrite ?add_node_edges.
Qed.

Lemma add_node_nodes_is_Some g n a m :
  is_Some (MultiDiGraph.nodes (MultiDiGraph.add_node g n a) !! m)
  <-> is_Some (MultiDiGraph.nodes g !! m) \/ m = n.
Proof.
  unfold MultiDiGraph.add_node.
  destruct (MultiDiGraph.nodes g !! n) as [old|] eqn:Hn; simpl;
    (destruct (decide (n = m)) as [<-|Hne];
     [rewrite lookup_insert_eq|rewrite lookup_insert_ne by done]);
    split; eauto; intros [?|?]; eauto; congruence.
Qed.

Lemma ensure_node_is_Some g n a m :
  is_Some (MultiDiGraph.nodes
             (if MultiDiGraph.has_node g n then g else MultiDiGraph.add_node g n a) !! m)
  <-> is_Some (MultiDiGraph.nodes g !! m) \/ m = n.
Proof.
  unfold MultiDiGraph.has_node. case_bool_decide as Hn.
  - split; [by left|]. by intros [?| ->].
  - apply add_node_nodes_is_Some.
Qed.

Lemma add_edge_nodes_is_Some g u v k a m :
  is_Some (MultiDiGraph.nodes (MultiDiGraph.add_edge g u v k a) !! m)
  <-> is_Some (MultiDiGraph.nodes g !! m) \/ m = u \/ m = v.
Proof.
  unfold MultiDiGraph.add_edge. simpl.
  rewrite ensure_node_is_Some, ensure_node_is_Some. tauto.
Qed.

(** [add_edge] between nodes that are there changes no node. *)
Lemma add_edge_nodes g u v k a :
  is_Some (MultiDiGraph.nodes g !! u) -> is_Some (MultiDiGraph.nodes g !! v) ->
  MultiDiGraph.nodes (MultiDiGraph.add_edge g u v k a) = MultiDiGraph.nodes g.
Proof.
  intros Hu Hv. unfold MultiDiGraph.add_edge, MultiDiGraph.has_node.
  rewrite (bool_decide_eq_true_2 _ Hu). simpl.
  by rewrite (bool_decide_eq_true_2 _ Hv).
Qed.

Lemma upsert_node_nodes_is_Some g e m :
  is_Some (MultiDiGraph.nodes (Observer.upsert_node g e) !! m)
  <-> is_Some (MultiDiGraph.nodes g !! m) \/ m = Entity.id e.
Proof.
  rewrite upsert_node_nodes.
  destruct (decide (Entity.id e = m)) as [<-|Hne].
  - rewrite lookup_insert_eq. split; eauto.
  - rewrite lookup_insert_ne by done. split; eauto. intros [?|?]; [done|congruence].
Qed.

(** ** The steps of a perception, whether it ends well or not *)

Lemma perceive_participant_cases self p (h : gmap nat Entity) :
  (Observer.perceive_participant self p h).2 = h \/
  exists e o g,
    h !! p = Some e /\ h !! self = Some o /\ Entity.reality_model o = Some g /\
    (Observer.perceive_participant self p h).2
    = <[self := set_reality_model o (Observer.upsert_node g e)]> h.
Proof.
  unfold Observer.perceive_participant, Observer.get_reality_model,
    Observer.set_model, bind, deref, store, ret, raise.
  destruct (h !! p) as [e|] eqn:Hp; [|by left].
  destruct (h !! self) as [o|] eqn:Ho; [|by left].
  destruct (Entity.reality_model o) as [g|] eqn:Hg; [|by left].
  rewrite Ho. right. by exists e, o, g.
Qed.

Lemma perceive_edges_cases self i (h : gmap nat Entity) :
  (Observer.perceive_edges self i h).2 = h \/
  exists r1 r2 e1 e2 o g,
    Interaction.participants i = [r1; r2] /\
    h !! r1 = Some e1 /\ h !! r2 = Some e2 /\
    h !! self = Some o /\ Entity.reality_model o = Some g /\
    (Observer.perceive_edges self i h).2
    = <[self := set_reality_model o
          (MultiDiGraph.add_edge
             (MultiDiGraph.add_edge g (Entity.id e1) (Entity.id e2)
                (Interaction.id i) (Observer.edge_of i))
             (Entity.id e2) (Entity.id e1) (Interaction.id i) (Observer.edge_of i))]> h.
Proof.
  unfold Observer.perceive_edges.
  destruct (Interaction.participants i) as [|r1 [|r2 [|]]]; try by left.
  unfold Observer.get_reality_model, Observer.set_model, bind, deref, store, ret, raise.
  destruct (h !! r1) as [e1|] eqn:H1; [|by left].
  destruct (h !! r2) as [e2|] eqn:H2; [|by left].
  destruct (h !! self) as [o|] eqn:Ho; [|by left].
  destruct (Entity.reality_model o) as [g|] eqn:Hg; [|by left].
  rewrite Ho. right. by exists r1, r2, e1, e2, o, g.
Qed.

(** A property of the store that a computation keeps. *)
Definition preserves {S} (I : S -> Prop) : relation S := fun s s' => I s -> I s'.

#[global] Instance preserves_preorder {S} (I : S -> Prop) : PreOrder (preserves I).
Proof. split; unfold preserves; [by intros s|intros s1 s2 s3; tauto]. Qed.

Section PerceivedOrigin.
Context (self : ref) (h0 : gmap nat Entity) (g0 : MultiDiGraph).
Context (seen : list Interaction).

(** [n] is the id of a participant of an interaction of [seen] that
    the observer takes part in. *)
Definition node_seen (n : uuid) : Prop :=
  exists i p e, i ∈ seen /\ self ∈ Interaction.participants i /\
    p ∈ Interaction.participants i /\ h0 !! p = Some e /\ Entity.id e = n.

(** The edge comes from such an interaction: its key is the interaction's
    id and its ends are the ids of two of its participants. *)
Definition edge_seen (u v k : uuid) : Prop :=
  exists i, i ∈ seen /\ self ∈ Interaction.participants i /\
    Interaction.id i = k /\
    (exists p e, p ∈ Interaction.participants i /\ h0 !! p = Some e /\ Entity.id e = u) /\
    (exists p e, p ∈ Interaction.participants i /\ h0 !! p = Some e /\ Entity.id e = v).

Definition graph_from_seen (g : MultiDiGraph) : Prop :=
  (forall n, is_Some (MultiDiGraph.nodes g !! n) ->
             is_Some (MultiDiGraph.nodes g0 !! n) \/ node_seen n) /\
  (forall u v k, is_Some (MultiDiGraph.edges g !! (u, v, k)) ->
             is_Some (MultiDiGraph.edges g0 !! (u, v, k)) \/ edge_seen u v k).

Definition origin_inv (h : gmap nat Entity) : Prop :=
  same_cores h0 h /\
  forall o g, h !! self = Some o -> Entity.reality_model o = Some g ->
              graph_from_seen g.

Lemma same_cores_lookup h p e :
  same_cores h0 h -> h !! p = Some e ->
  exists e0, h0 !! p = Some e0 /\ Entity.id e0 = Entity.id e.
Proof.
  intros Hc Hp. specialize (Hc p). rewrite Hp in Hc. simpl in Hc.
  destruct (h0 !! p) as [e0|]; [|discriminate]. exists e0. split; [done|].
  simpl in Hc. by injection Hc as <- _ _ _ _.
Qed.

Lemma origin_inv_set_model h o g g' :
  origin_inv h -> h !! self = Some o -> Entity.reality_model o = Some g ->
  (graph_from_seen g -> graph_from_seen g') ->
  origin_inv (<[self := set_reality_model o g']> h).
Proof.
  intros [Hc Hg] Ho Hm Hstep. split.
  - etrans; [exact Hc|]. intros r. destruct (decide (self = r)) as [<-|Hne].
    + by rewrite lookup_insert_eq, Ho.
    + by rewrite lookup_insert_ne.
  - intros o' g''. rewrite lookup_insert_eq. intros [= <-]. simpl. intros [= <-].
    apply Hstep. by eapply Hg.
Qed.

Lemma perceive_participant_origin i p :
  i ∈ seen -> self ∈ Interaction.participants i -> p ∈ Interaction.participants i ->
  moves_by (preserves origin_inv) (Observer.perceive_participant self p).
Proof.
  intros Hi Hself Hp h Hinv.
  destruct (perceive_participant_cases self p h)
    as [->|(e & o & g & He & Ho & Hg & ->)]; [done|].
  apply (origin_inv_set_model h o g); try done.
  destruct (same_cores_lookup h p e (proj1 Hinv) He) as (e0 & He0 & Hid).
  intros [Hn He']. split.
  - intros n [Hn'| ->]%upsert_node_nodes_is_Some; [by apply Hn|].
    right. by exists i, p, e0.
  - intros u v k. rewrite upsert_node_edges. apply He'.
Qed.

Lemma perceive_edges_origin i :
  i ∈ seen -> self ∈ Interaction.participants i ->
  moves_by (preserves origin_inv) (Observer.perceive_edges self i).
Proof.
  intros Hi Hself h Hinv.
  destruct (perceive_edges_cases self i h)
    as [->|(r1 & r2 & e1 & e2 & o & g & Hps & H1 & H2 & Ho & Hg & ->)]; [done|].
  apply (origin_inv_set_model h o g); try done.
  destruct (same_cores_lookup h r1 e1 (proj1 Hinv) H1) as (a1 & Ha1 & Hid1).
  destruct (same_cores_lookup h r2 e2 (proj1 Hinv) H2) as (a2 & Ha2 & Hid2).
  assert (r1 ∈ Interaction.participants i) as Hr1 by (rewrite Hps; left).
  assert (r2 ∈ Interaction.participants i) as Hr2 by (rewrite Hps; right; left).
  intros [Hn He']. split.
  - intros n Hn'. apply add_edge_nodes_is_Some in Hn' as [Hn'|Hn'].
    + apply add_edge_nodes_is_Some in Hn' as [Hn'|Hn']; [by apply Hn|].
      right. destruct Hn' as [->| ->]; [by exists i, r1, a1|by exists i, r2, a2].
    + right. destruct Hn' as [->| ->]; [by exists i, r2, a2|by exists i, r1, a1].
  - intros u v k. rewrite !add_edge_edges.
    destruct (decide ((Entity.id e2, Entity.id e1, Interaction.id i) = (u, v, k)))
      as [[= <- <- <-]|Hne1].
    { intros _. right. exists i. repeat split; try done; eauto. }
    rewrite lookup_insert_ne by done.
    destruct (decide ((Entity.id e1, Entity.id e2, Interaction.id i) = (u, v, k)))
      as [[= <- <- <-]|Hne2].
    { intros _. right. exists i. repeat split; try done; eauto. }
    rewrite lookup_insert_ne by done. apply He'.
Qed.

Lemma perceive_signal_origin i :
  i ∈ seen -> moves_by (preserves origin_inv) (Observer.perceive_signal self i).
Proof.
  intros Hi. unfold Observer.perceive_signal. case_bool_decide as Hself.
  - apply moves_by_bind; [apply _| |].
    + apply moves_by_for_each; [apply _|]. intros p Hp.
      by apply (perceive_participant_origin i).
    + intros _. by apply perceive_edges_origin.
  - apply moves_by_ret, _.
Qed.
End PerceivedOrigin.

(** C5. An observer that is not among the participants of an interaction
    perceives nothing of it: the call returns and the store, with the
    observer's graph, is exactly as before.  So, whatever interactions an
    observer is handed, and however each perception ends, every node of its
    graph that was not there before is the id of a participant of one of
    the interactions it takes part in, and every new edge is keyed by the id
    of such an interaction and joins two of its participants. *)
Theorem perceive_signal_only_own_interactions :
  (forall self i (h : gmap nat Entity),
     self ∉ Interaction.participants i ->
     Observer.perceive_signal self i h = (inr tt, h))
  /\ (forall self seen (h : gmap nat Entity) o g res h' o' g',
        h !! self = Some o -> Entity.reality_model o = Some g ->
        for_each seen (Observer.perceive_signal self) h = (res, h') ->
        h' !! self = Some o' -> Entity.reality_model o' = Some g' ->
        graph_from_seen self h g seen g').
Proof.
  split.
  - intros self i h Hnot. unfold Observer.perceive_signal.
    by rewrite bool_decide_eq_false_2.
  - intros self seen h o g res h' o' g' Ho Hg Hrun Ho' Hg'.
    assert (moves_by (preserves (origin_inv self h g seen))
              (for_each seen (Observer.perceive_signal self))) as Hmoves.
    { apply moves_by_for_each; [apply _|]. intros i Hi. by apply perceive_signal_origin. }
    specialize (Hmoves h). rewrite Hrun in Hmoves. simpl in Hmoves.
    destruct Hmoves as [_ Hfinal]; [|by eapply Hfinal].
    split; [done|]. intros o1 g1. rewrite Ho. intros [= <-]. rewrite Hg.
    intros [= <-]. split; eauto.
Qed.

(** ** The graph after a perception *)

Lemma foldl_upsert_edges snap g :
  MultiDiGraph.edges (foldl Observer.upsert_node g snap) = MultiDiGraph.edges g.
Proof.
  revert g. induction snap as [|e snap IH]; intros g; simpl; [done|].
  by rewrite IH, upsert_node_edges.
Qed.

Lemma foldl_upsert_is_Some snap g m :
  is_Some (MultiDiGraph.nodes (foldl Observer.upsert_node g snap) !! m)
  <-> is_Some (MultiDiGraph.nodes g !! m) \/ exists e, e ∈ snap /\ Entity.id e = m.
Proof.
  revert g. induction snap as [|e snap IH]; intros g; simpl.
  - split; [by left|]. intros [?|(e & []%elem_of_nil & _)]. done.
  - rewrite IH, upsert_node_nodes_is_Some. split.
    + intros [[?| ->]|(e' & He' & <-)]; [by left|right..].
      * exists e. split; [left|done].
      * exists e'. split; [by right|done].
    + intros [?|(e' & [->|He']%elem_of_cons & <-)]; [by left; left|left; by right|].
      right. by exists e'.
Qed.

Lemma foldl_upsert_other snap g m :
  (forall e, e ∈ snap -> Entity.id e <> m) ->
  MultiDiGraph.nodes (foldl Observer.upsert_node g snap) !! m
  = MultiDiGraph.nodes g !! m.
Proof.
  revert g. induction snap as [|e snap IH]; intros g Hne; simpl; [done|].
  rewrite IH by (intros e' He'; apply Hne; by right).
  rewrite upsert_node_nodes. apply lookup_insert_ne, Hne. left.
Qed.

Lemma upserted_again old e : upserted (Some (upserted old e)) e = upserted old e.
Proof. by destruct old. Qed.

(** The node of a participant after the upserts, when its id is its own. *)
Lemma foldl_upsert_node snap g e :
  e ∈ snap ->
  (forall e', e' ∈ snap -> Entity.id e' = Entity.id e -> e' = e) ->
  MultiDiGraph.nodes (foldl Observer.upsert_node g snap) !! Entity.id e
  = Some (upserted (MultiDiGraph.nodes g !! Entity.id e) e).
Proof.
  revert g. induction snap as [|x snap IH]; intros g Hin Huniq.
  - by apply elem_of_nil in Hin.
  - simpl.
    assert (MultiDiGraph.nodes (Observer.upsert_node g x) !! Entity.id e
            = if decide (Entity.id x = Entity.id e)
              then Some (upserted (MultiDiGraph.nodes g !! Entity.id e) e)
              else MultiDiGraph.nodes g !! Entity.id e) as Hx.
    { rewrite upsert_node_nodes. case_decide as Hid.
      - rewrite (Huniq x) by (done || left). by rewrite lookup_insert_eq.
      - by rewrite lookup_insert_ne. }
    destruct (decide (Entity.id e ∈ Entity.id <$> snap)) as [Hsome|Hnone].
    + apply list_elem_of_fmap in Hsome as (e' & Hid' & He').
      assert (e' = e) as -> by (apply Huniq; [by right|done]).
      rewrite IH; [|done|intros e'' ??; apply Huniq; [by right|done]].
      rewrite Hx. case_decide; [by rewrite upserted_again|done].
    + rewrite foldl_upsert_other
        by (intros e' He' Hid; apply Hnone; rewrite <-Hid; by apply list_elem_of_fmap_2).
      apply elem_of_cons in Hin as [->|Hin];
        [|destruct Hnone; by apply list_elem_of_fmap_2].
      rewrite Hx. by rewrite decide_True.
Qed.

Lemma upsert_node_keeps_scale g e m :
  is_Some (MultiDiGraph.nodes g !! Entity.id e) ->
  MultiDiGraph.scale <$> MultiDiGraph.nodes (Observer.upsert_node g e) !! m
  = MultiDiGraph.scale <$> MultiDiGraph.nodes g !! m.
Proof.
  intros [a Ha]. rewrite upsert_node_nodes, Ha.
  destruct (decide (Entity.id e = m)) as [<-|Hne].
  - by rewrite lookup_insert_eq, Ha.
  - by rewrite lookup_insert_ne.
Qed.

Lemma foldl_upsert_keeps_scale snap g m :
  (forall e, e ∈ snap -> is_Some (MultiDiGraph.nodes g !! Entity.id e)) ->
  MultiDiGraph.scale <$> MultiDiGraph.nodes (foldl Observer.upsert_node g snap) !! m
  = MultiDiGraph.scale <$> MultiDiGraph.nodes g !! m.
Proof.
  revert g. induction snap as [|e snap IH]; intros g Hin; simpl; [done|].
  rewrite IH.
  - apply upsert_node_keeps_scale, Hin. left.
  - intros e' He'. apply upsert_node_nodes_is_Some. left. apply Hin. by right.
Qed.

Lemma perceive_graph_nodes snap i g :
  MultiDiGraph.nodes (perceive_graph snap i g)
  = MultiDiGraph.nodes (foldl Observer.upsert_node g snap).
Proof.
  unfold perceive_graph. destruct snap as [|e1 [|e2 [|]]]; try done.
  assert (forall e, e ∈ [e1; e2] ->
            is_Some (MultiDiGraph.nodes (foldl Observer.upsert_node g [e1; e2])
                       !! Entity.id e)) as Hin.
  { intros e He. apply foldl_upsert_is_Some. right. by exists e. }
  rewrite add_edge_nodes.
  - apply add_edge_nodes; apply Hin; [left|right; left].
  - apply add_edge_nodes_is_Some. left. apply Hin. right. left.
  - apply add_edge_nodes_is_Some. left. apply Hin. left.
Qed.

Lemma perceive_graph_edges snap i g :
  MultiDiGraph.edges (perceive_graph snap i g)
  = match snap with
    | [e1; e2] =>
        <[(Entity.id e2, Entity.id e1, Interaction.id i) := Observer.edge_of i]>
          (<[(Entity.id e1, Entity.id e2, Interaction.id i) := Observer.edge_of i]>
             (MultiDiGraph.edges g))
    | _ => MultiDiGraph.edges g
    end.
Proof.
  unfold perceive_graph.
  destruct snap as [|e1 [|e2 [|]]]; rewrite ?add_edge_edges, foldl_upsert_edges; done.
Qed.


(** C8. Perceiving the same interaction again, in any later store in which
    its participants have the ids they had and the observer's graph still
    holds what the first perception left (the graph only grows), makes no
    edge and changes none: the edges are exactly those before the second
    perception, and as many.  When the participants are two, the pair of
    directed edges keyed by the interaction's id is there, each edge with the
    interaction's type, timestamp and metadata; if the key was new at the
    first perception and no other edge has taken it since, these two are the
    only edges under that key; and if nothing else was perceived in between,
    the graph has two edges more than before the first perception, not
    four.  The second perception leaves every node its stored scale, adds no
    node, and puts the participant's current properties and local time on
    its node. *)
Theorem perceive_signal_again_keeps_edges self i (h : gmap nat Entity) o g snap h1 o1 g1 :
  h !! self = Some o -> Entity.reality_model o = Some g ->
  self ∈ Interaction.participants i ->
  snapshot h (Interaction.participants i) snap ->
  Observer.perceive_signal self i h = (inr tt, h1) ->
  h1 !! self = Some o1 -> Entity.reality_model o1 = Some g1 ->
  forall (h2 : gmap nat Entity) o2 g' snap2,
    h2 !! self = Some o2 -> Entity.reality_model o2 = Some g' ->
    (forall k d, MultiDiGraph.edges g1 !! k = Some d ->
                 MultiDiGraph.edges g' !! k = Some d) ->
    (forall n, is_Some (MultiDiGraph.nodes g1 !! n) ->
               is_Some (MultiDiGraph.nodes g' !! n)) ->
    snapshot h2 (Interaction.participants i) snap2 ->
    Forall2 (fun e e2 => Entity.id e = Entity.id e2) snap snap2 ->
    exists g2,
      Observer.perceive_signal self i h2
      = (inr tt, <[self := set_reality_model o2 g2]> h2) /\
      MultiDiGraph.edges g2 = MultiDiGraph.edges g' /\
      MultiDiGraph.number_of_edges g2 = MultiDiGraph.number_of_edges g' /\
      (forall e1 e2, snap = [e1; e2] ->
         let k12 := (Entity.id e1, Entity.id e2, Interaction.id i) in
         let k21 := (Entity.id e2, Entity.id e1, Interaction.id i) in
         let d := MultiDiGraph.mk_edge (Interaction.interaction_type i)
                    (Interaction.timestamp i) (Interaction.metadata i) in
         MultiDiGraph.edges g2 !! k12 = Some d /\
         MultiDiGraph.edges g2 !! k21 = Some d /\
         ((forall u v, MultiDiGraph.edges g !! (u, v, Interaction.id i) = None) ->
          (forall u v, is_Some (MultiDiGraph.edges g' !! (u, v, Interaction.id i)) ->
                       is_Some (MultiDiGraph.edges g1 !! (u, v, Interaction.id i))) ->
          forall u v d',
            MultiDiGraph.edges g2 !! (u, v, Interaction.id i) = Some d' <->
            ((u, v) = (Entity.id e1, Entity.id e2) \/
             (u, v) = (Entity.id e2, Entity.id e1)) /\ d' = d) /\
         (Entity.id e1 <> Entity.id e2 ->
          MultiDiGraph.edges g !! k12 = None -> MultiDiGraph.edges g !! k21 = None ->
          MultiDiGraph.edges g' = MultiDiGraph.edges g1 ->
          MultiDiGraph.number_of_edges g2 = MultiDiGraph.number_of_edges g + 2)) /\
      (forall n, MultiDiGraph.scale <$> MultiDiGraph.nodes g2 !! n
                 = MultiDiGraph.scale <$> MultiDiGraph.nodes g' !! n) /\
      (forall e2, e2 ∈ snap2 ->
         (forall e', e' ∈ snap2 -> Entity.id e' = Entity.id e2 -> e' = e2) ->
         exists a, MultiDiGraph.nodes g' !! Entity.id e2 = Some a /\
           MultiDiGraph.nodes g2 !! Entity.id e2
           = Some (MultiDiGraph.mk_node (Some (Entity.properties e2))
                     (MultiDiGraph.scale a) (Some (Entity.local_time e2)))).
Proof.
  intros Ho Hg Hself Hsnap Hrun Ho1 Hg1 h2 o2 g' snap2 Ho2 Hg2 Hedges Hnodes
    Hsnap2 Hids.
  rewrite (perceive_signal_run self o h Ho i snap g Hg Hself Hsnap) in Hrun.
  injection Hrun as <-. rewrite lookup_insert_eq in Ho1. injection Ho1 as <-.
  simpl in Hg1. injection Hg1 as <-.
  assert (forall e2, e2 ∈ snap2 -> is_Some (MultiDiGraph.nodes g' !! Entity.id e2))
    as Hthere.
  { intros e2 He2. apply Hnodes. rewrite perceive_graph_nodes.
    apply foldl_upsert_is_Some. right.
    apply list_elem_of_lookup in He2 as [k Hk].
    destruct (Forall2_lookup_r _ _ _ _ _ Hids Hk) as (e & He & Hid).
    exists e. split; [|done]. apply list_elem_of_lookup. by exists k. }
  assert (MultiDiGraph.edges (perceive_graph snap2 i g') = MultiDiGraph.edges g')
    as Hsame.
  { rewrite (perceive_graph_edges snap2).
    pose proof Hedges as Hedges'.
    rewrite (perceive_graph_edges snap) in Hedges'.
    destruct Hids as [|e1 e1' ? ? Hid1 Hids]; [done|].
    destruct Hids as [|e2 e2' ? ? Hid2 Hids]; [done|].
    destruct Hids as [|e3 e3' ? ? Hid3 Hids]; [|done].
    rewrite <-Hid1, <-Hid2.
    set (k12 := (Entity.id e1, Entity.id e2, Interaction.id i)) in *.
    set (k21 := (Entity.id e2, Entity.id e1, Interaction.id i)) in *.
    rewrite (insert_id _ k12).
    + apply insert_id, Hedges', lookup_insert_eq.
    + apply Hedges'. destruct (decide (k21 = k12)) as [->|Hne].
      * by rewrite lookup_insert_eq.
      * by rewrite lookup_insert_ne, lookup_insert_eq. }
  exists (perceive_graph snap2 i g').
  split; [by apply perceive_signal_run|]. split; [exact Hsame|].
  split; [unfold MultiDiGraph.number_of_edges; by rewrite Hsame|].
  split; [|split].
  - intros e1 e2 -> k12 k21 d. rewrite Hsame.
    pose proof (perceive_graph_edges [e1; e2] i g) as Hfirst.
    cbv iota in Hfirst. fold k12 k21 in Hfirst.
    change (Observer.edge_of i) with d in Hfirst.
    assert (MultiDiGraph.edges (perceive_graph [e1; e2] i g) !! k12 = Some d) as H12.
    { rewrite Hfirst. destruct (decide (k21 = k12)) as [->|Hne].
      - by rewrite lookup_insert_eq.
      - by rewrite lookup_insert_ne, lookup_insert_eq. }
    assert (MultiDiGraph.edges (perceive_graph [e1; e2] i g) !! k21 = Some d) as H21
      by (by rewrite Hfirst, lookup_insert_eq).
    split; [by apply Hedges|]. split; [by apply Hedges|]. split.
    + intros Hnew Hkey u v d'. split.
      * intros Huv. destruct (Hkey u v) as [d1 Hd1]; [by eexists|].
        pose proof (Hedges _ _ Hd1) as Hd1'. rewrite Huv in Hd1'.
        injection Hd1' as ->. rewrite Hfirst in Hd1.
        apply lookup_insert_Some in Hd1 as [[Hk <-]|[_ Hd1]].
        { split; [right|done]. unfold k21 in Hk. congruence. }
        apply lookup_insert_Some in Hd1 as [[Hk <-]|[_ Hd1]].
        { split; [left|done]. unfold k12 in Hk. congruence. }
        by rewrite Hnew in Hd1.
      * intros [[[= -> ->]|[= -> ->]] ->]; by apply Hedges.
    + intros Hid Hn12 Hn21 Hnothing. unfold MultiDiGraph.number_of_edges.
      rewrite Hsame, Hnothing, Hfirst.
      assert (k21 <> k12) as Hne by (unfold k12, k21; congruence).
      rewrite map_size_insert_None by (by rewrite lookup_insert_ne).
      rewrite map_size_insert_None by done. lia.
  - intros n. rewrite perceive_graph_nodes. by apply foldl_upsert_keeps_scale.
  - intros e2 He2 Huniq. destruct (Hthere e2 He2) as [a Ha]. exists a.
    split; [done|]. rewrite perceive_graph_nodes.
    rewrite (foldl_upsert_node snap2 _ e2 He2 Huniq). by rewrite Ha.
Qed.

(** * Patterns *)

(** The group a perceived node is in: its copied [properties["group_id"]]. *)
Definition node_group (a : MultiDiGraph.node_attrs) : option value :=
  match MultiDiGraph.properties a with
  | Some p => p !! "group_id"
  | None => None
  end.

(** The number of perceived nodes in group [gid]. *)
Definition members (nodes : gmap N MultiDiGraph.node_attrs) (gid : value) : nat :=
  size (filter (fun na => node_group na.2 = Some gid) nodes).

Lemma members_empty gid : members ∅ gid = 0.
Proof. unfold members. by rewrite map_filter_empty, map_size_empty. Qed.

Lemma members_insert nodes n a gid :
  nodes !! n = None ->
  members (<[n := a]> nodes) gid
  = if decide (node_group a = Some gid) then S (members nodes gid)
    else members nodes gid.
Proof.
  intros Hn. unfold members. case_decide as Hg.
  - rewrite map_filter_insert_True by done.
    apply map_size_insert_None. by rewrite map_lookup_filter_None_2; [|left].
  - rewrite map_filter_insert_not'; [done|done|]. intros y Hy. congruence.
Qed.

Lemma count_groups_lookup nodes gid :
  Observer.count_groups nodes !! gid
  = if decide (members nodes gid = 0) then None else Some (members nodes gid).
Proof.
  revert nodes gid. unfold Observer.count_groups.
  apply (map_fold_weak_ind (fun counter m => forall gid,
           counter !! gid
           = if decide (members m gid = 0) then None else Some (members m gid))).
  - intros gid. by rewrite members_empty, lookup_empty.
  - intros n a m counter Hn IH gid. rewrite (members_insert _ _ _ _ Hn).
    cbv beta zeta.
    assert (match MultiDiGraph.properties a with Some p => p | None => ∅ end
              !! "group_id" = node_group a) as ->.
    { unfold node_group. by destruct (MultiDiGraph.properties a). }
    destruct (node_group a) as [g|].
    + destruct (decide (Some g = Some gid)) as [[= ->]|Hne].
      * rewrite lookup_insert_eq, IH.
        destruct (decide (S (members m gid) = 0)); [lia|].
        by destruct (decide (members m gid = 0)) as [->|].
      * rewrite lookup_insert_ne by congruence. apply IH.
    + destruct (decide (None = Some gid)); [done|]. apply IH.
Qed.

(** [perceived_groups] holds a group exactly when more than one perceived
    node is in it, and then with the number of those nodes. *)
Lemma perceived_groups_lookup g gid c :
  Observer.perceived_groups (Observer.find_patterns_of g) !! gid = Some c
  <-> c = members (MultiDiGraph.nodes g) gid /\ 1 < c.
Proof.
  unfold Observer.find_patterns_of. simpl.
  rewrite map_lookup_filter_Some, count_groups_lookup. simpl.
  case_decide as Hzero; split.
  - by intros [[=] _].
  - intros [-> Hc]. lia.
  - by intros [[= <-] Hc].
  - by intros [-> Hc].
Qed.

(** ** A run of perceptions *)

(** The participants as the store has them. *)
Definition entities_of (h : gmap nat Entity) (ps : list ref) : list Entity :=
  omap (fun p => h !! p) ps.

Lemma entities_of_snapshot (h : gmap nat Entity) ps :
  (forall p, p ∈ ps -> is_Some (h !! p)) -> snapshot h ps (entities_of h ps).
Proof.
  unfold snapshot, entities_of. induction ps as [|p ps IH]; intros Hps; simpl.
  - constructor.
  - destruct (Hps p) as [e He]; [left|]. rewrite He. simpl.
    constructor; [done|]. apply IH. intros q Hq. apply Hps. by right.
Qed.

Lemma foldl_upsert_core snap snap' g :
  Forall2 (fun e e' => core e = core e') snap snap' ->
  foldl Observer.upsert_node g snap = foldl Observer.upsert_node g snap'.
Proof.
  intros Hc. revert g. induction Hc as [|e e' snap snap' He _ IH]; intros g; simpl.
  - done.
  - by rewrite (upsert_node_core g e e' He), IH.
Qed.

Lemma perceive_graph_core snap snap' i g :
  Forall2 (fun e e' => core e = core e') snap snap' ->
  perceive_graph snap i g = perceive_graph snap' i g.
Proof.
  intros Hc. unfold perceive_graph. rewrite (foldl_upsert_core _ _ g Hc).
  destruct Hc as [|e1 e1' ? ? H1 Hc]; [done|].
  destruct Hc as [|e2 e2' ? ? H2 Hc]; [done|].
  destruct Hc as [|e3 e3' ? ? H3 Hc]; [|done].
  injection H1 as -> _ _ _ _. by injection H2 as -> _ _ _ _.
Qed.

Section PerceiveAll.
Context (self : ref) (o : Entity) (h : gmap nat Entity).
Hypothesis Hself : h !! self = Some o.

Lemma snapshot_during g ps snap :
  snapshot h ps snap ->
  exists snap', snapshot (<[self := set_reality_model o g]> h) ps snap' /\
                Forall2 (fun e' e => core e' = core e) snap' snap.
Proof using Hself.
  unfold snapshot. induction 1 as [|p e ps snap Hp _ (snap' & Hs & Hc)].
  - exists []. split; constructor.
  - destruct (decide (self = p)) as [<-|Hne].
    + exists (set_reality_model o g :: snap'). split.
      * constructor; [by rewrite lookup_insert_eq|done].
      * constructor; [|done]. rewrite Hself in Hp. by injection Hp as <-.
    + exists (e :: snap'). split.
      * constructor; [by rewrite lookup_insert_ne|done].
      * by constructor.
Qed.

(** The graph after the perceptions of [seen], from [g]. *)
Definition perceived (seen : list Interaction) (g : MultiDiGraph) : MultiDiGraph :=
  foldl (fun g i => perceive_graph (entities_of h (Interaction.participants i)) i g)
        g seen.

Lemma perceive_all_run seen g :
  (forall i, i ∈ seen ->
     self ∈ Interaction.participants i /\
     forall p, p ∈ Interaction.participants i -> is_Some (h !! p)) ->
  for_each seen (Observer.perceive_signal self) (<[self := set_reality_model o g]> h)
  = (inr tt, <[self := set_reality_model o (perceived seen g)]> h).
Proof using Hself.
  revert g. induction seen as [|i seen IH]; intros g Hseen; [done|].
  destruct (Hseen i) as [Hin Hps]; [left|].
  destruct (snapshot_during g _ _ (entities_of_snapshot h _ Hps)) as (snap' & Hs & Hc).
  simpl. unfold bind.
  rewrite (perceive_signal_run self (set_reality_model o g) _
             (lookup_insert_eq _ _ _) i snap' g eq_refl Hin Hs).
  rewrite insert_insert_eq. rewrite (perceive_graph_core _ _ i g Hc).
  apply IH. intros j Hj. apply Hseen. by right.
Qed.

Lemma perceived_nodes_is_Some seen g n :
  is_Some (MultiDiGraph.nodes (perceived seen g) !! n)
  <-> is_Some (MultiDiGraph.nodes g !! n) \/
      exists i p e, i ∈ seen /\ p ∈ Interaction.participants i /\
                    h !! p = Some e /\ Entity.id e = n.
Proof.
  unfold perceived. revert g. induction seen as [|i seen IH]; intros g; simpl.
  - split; [by left|]. intros [?|(i & ? & ? & []%elem_of_nil & _)]. done.
  - rewrite IH, perceive_graph_nodes, foldl_upsert_is_Some. unfold entities_of.
    split.
    + intros [[?|(e & (p & Hp & He)%list_elem_of_omap & Hid)]|(j & p & e & Hj & Hrest)].
      * by left.
      * right. exists i, p, e. split; [left|done].
      * right. exists j, p, e. split; [by right|done].
    + intros [?|(j & p & e & [->|Hj]%elem_of_cons & Hp & He & Hid)].
      * by left; left.
      * left. right. exists e. split; [|done]. apply list_elem_of_omap. by exists p.
      * right. by exists j, p, e.
Qed.
End PerceiveAll.

(** ** Counting what an observer has perceived *)

(** The id of the entity at a reference. *)
Definition id_of (h : gmap nat Entity) (r : ref) : uuid :=
  match h !! r with
  | Some e => Entity.id e
  | None => 0%N
  end.

(** The interaction is between [self] and one of [others]. *)
Definition pairs_with (self : ref) (others : list ref) (i : Interaction) : bool :=
  match Interaction.participants i with
  | [a; b] =>
      (bool_decide (a = self) && bool_decide (b ∈ others))
      || (bool_decide (b = self) && bool_decide (a ∈ others))
  | _ => false
  end.

(** An observer [self] and the entities [others], all with ids of their
    own, and binary interactions [seen] with ids of their own, each between
    the observer and one of the others, every one of the others met. *)
Record perception_scenario (self : ref) (h : gmap nat Entity) (others : list ref)
    (seen : list Interaction) : Prop := {
  ps_distinct : NoDup (self :: others);
  ps_entities : Forall (fun r => is_Some (h !! r)) (self :: others);
  ps_ids : NoDup (id_of h <$> self :: others);
  ps_binary : Forall (fun i => pairs_with self others i = true) seen;
  ps_all_met : Forall (fun x => Exists (fun i => x ∈ Interaction.participants i) seen) others;
  ps_keys : NoDup (Interaction.id <$> seen);
  ps_some : seen <> []
}.

Lemma NoDup_fmap_eq {A B} (f : A -> B) (l : list A) x y :
  NoDup (f <$> l) -> x ∈ l -> y ∈ l -> f x = f y -> x = y.
Proof.
  induction l as [|a l IH]; simpl; [by intros _ []%elem_of_nil|].
  intros [Hnotin Hnd]%NoDup_cons [->|Hx]%elem_of_cons [->|Hy]%elem_of_cons Hf.
  - done.
  - destruct Hnotin. rewrite Hf. by apply list_elem_of_fmap_2.
  - destruct Hnotin. rewrite <-Hf. by apply list_elem_of_fmap_2.
  - by apply IH.
Qed.

Lemma nonempty_elem {A} (l : list A) : l <> [] -> exists x, x ∈ l.
Proof. destruct l as [|x l]; [done|]. intros _. exists x. left. Qed.

Section Counting.
Context (self : ref) (h : gmap nat Entity) (others : list ref).
Context (seen : list Interaction).
Hypothesis Hsc : perception_scenario self h others seen.

Lemma scenario_pair i :
  i ∈ seen ->
  exists a b ea eb,
    Interaction.participants i = [a; b] /\
    a ∈ self :: others /\ b ∈ self :: others /\ self ∈ [a; b] /\
    h !! a = Some ea /\ h !! b = Some eb /\ Entity.id ea <> Entity.id eb.
Proof using Hsc.
  intros Hi. pose proof Hsc as [Hnd Hent Hids Hbin _ _ _].
  rewrite Forall_forall in Hbin. rewrite Forall_forall in Hent.
  specialize (Hbin i Hi).
  unfold pairs_with in Hbin.
  destruct (Interaction.participants i) as [|a [|b [|]]]; try discriminate.
  assert (a ∈ self :: others /\ b ∈ self :: others /\ self ∈ [a; b] /\ a <> b)
    as (Ha & Hb & Hs & Hne).
  { apply NoDup_cons in Hnd as [Hnot _].
    apply orb_true_iff in Hbin
      as [[Ha Hb]%andb_true_iff|[Hb Ha]%andb_true_iff];
      apply bool_decide_eq_true in Ha, Hb; subst.
    - repeat split; [left|by right|left|]. by intros <-.
    - repeat split; [by right|left|right; left|]. by intros ->. }
  destruct (Hent a Ha) as [ea Hea]. destruct (Hent b Hb) as [eb Heb].
  exists a, b, ea, eb. repeat split; try done.
  intros Hid. apply Hne. apply (NoDup_fmap_eq (id_of h) (self :: others)); try done.
  unfold id_of. by rewrite Hea, Heb.
Qed.

Lemma scenario_runs i :
  i ∈ seen ->
  self ∈ Interaction.participants i /\
  forall p, p ∈ Interaction.participants i -> is_Some (h !! p).
Proof using Hsc.
  intros Hi.
  destruct (scenario_pair i Hi) as (a & b & ea & eb & -> & _ & _ & Hs & Ha & Hb & _).
  split; [done|].
  intros p [->|[->|[]%elem_of_nil]%elem_of_cons]%elem_of_cons; by eexists.
Qed.

Lemma scenario_nodes :
  dom (MultiDiGraph.nodes (perceived h seen MultiDiGraph.empty))
  = list_to_set (id_of h <$> self :: others).
Proof using Hsc.
  apply set_eq. intros n.
  rewrite elem_of_dom, perceived_nodes_is_Some, elem_of_list_to_set, list_elem_of_fmap.
  split.
  - intros [[? Hn]|(i & p & e & Hi & Hp & He & Hid)].
    { simpl in Hn. by rewrite lookup_empty in Hn. }
    destruct (scenario_pair i Hi) as (a & b & ea & eb & Hps & Ha & Hb & _).
    exists p. split; [unfold id_of; by rewrite He|].
    rewrite Hps in Hp.
    by apply elem_of_cons in Hp as [->|[->|[]%elem_of_nil]%elem_of_cons].
  - intros (r & -> & Hr). right.
    pose proof Hsc as [_ Hent _ _ Hmet _ Hsome].
    rewrite Forall_forall in Hent. rewrite Forall_forall in Hmet.
    destruct (Hent r Hr) as [e He].
    assert (exists i, i ∈ seen /\ r ∈ Interaction.participants i) as (i & Hi & Hp).
    { apply elem_of_cons in Hr as [->|Hr].
      - destruct (nonempty_elem seen Hsome) as [i Hi]. exists i.
        split; [done|]. by apply scenario_runs.
      - specialize (Hmet r Hr). by apply Exists_exists in Hmet. }
    exists i, r, e. repeat split; try done. unfold id_of. by rewrite He.
Qed.

Lemma perceived_edges_size l g :
  (forall i, i ∈ l -> i ∈ seen) ->
  NoDup (Interaction.id <$> l) ->
  (forall u v k, is_Some (MultiDiGraph.edges g !! (u, v, k)) ->
                 k ∉ Interaction.id <$> l) ->
  size (MultiDiGraph.edges (perceived h l g))
  = size (MultiDiGraph.edges g) + 2 * length l.
Proof using Hsc.
  unfold perceived. revert g.
  induction l as [|i l IH]; intros g Hsub Hnd Hfresh; simpl; [lia|].
  apply NoDup_cons in Hnd as [Hi Hnd].
  destruct (scenario_pair i) as (a & b & ea & eb & Hps & _ & _ & _ & Ha & Hb & Hne);
    [apply Hsub; left|].
  assert (entities_of h (Interaction.participants i) = [ea; eb]) as ->.
  { unfold entities_of. rewrite Hps. simpl. by rewrite Ha, Hb. }
  set (k12 := (Entity.id ea, Entity.id eb, Interaction.id i)).
  set (k21 := (Entity.id eb, Entity.id ea, Interaction.id i)).
  assert (forall u v, MultiDiGraph.edges g !! (u, v, Interaction.id i) = None) as Hnew.
  { intros u v. apply eq_None_not_Some. intros Hs.
    apply (Hfresh _ _ _ Hs). left. }
  rewrite IH.
  - rewrite perceive_graph_edges. fold k12 k21.
    assert (k21 <> k12) as Hk by (unfold k12, k21; congruence).
    rewrite map_size_insert_None by (rewrite lookup_insert_ne by done; apply Hnew).
    rewrite map_size_insert_None by apply Hnew. lia.
  - intros j Hj. apply Hsub. by right.
  - done.
  - intros u v k. rewrite perceive_graph_edges. fold k12 k21.
    destruct (decide (k21 = (u, v, k))) as [[= <- <- <-]|Hk1]; [done|].
    rewrite lookup_insert_ne by done.
    destruct (decide (k12 = (u, v, k))) as [[= <- <- <-]|Hk2]; [done|].
    rewrite lookup_insert_ne by done.
    intros Hs Hin. apply (Hfresh _ _ _ Hs). by right.
Qed.

(** The perceptions of a scenario all return; the graph they leave has
    the observer and each of the others as nodes, and two edges for each
    interaction. *)
Lemma scenario_counts o :
  h !! self = Some o -> Entity.reality_model o = Some MultiDiGraph.empty ->
  exists g',
    for_each seen (Observer.perceive_signal self) h
    = (inr tt, <[self := set_reality_model o g']> h) /\
    MultiDiGraph.number_of_nodes g' = S (length others) /\
    MultiDiGraph.number_of_edges g' = 2 * length seen.
Proof using Hsc.
  intros Ho Hg. exists (perceived h seen MultiDiGraph.empty). split; [|split].
  - rewrite <-(insert_id h self o Ho) at 1.
    rewrite <-(set_reality_model_id o _ Hg) at 1.
    apply perceive_all_run; [done|]. apply scenario_runs.
  - unfold MultiDiGraph.number_of_nodes. rewrite <-size_dom, scenario_nodes.
    rewrite size_list_to_set by apply Hsc. by rewrite length_fmap.
  - unfold MultiDiGraph.number_of_edges.
    rewrite perceived_edges_size; [done|done|apply Hsc|].
    intros u v k [? Hs]. simpl in Hs. by rewrite lookup_empty in Hs.
Qed.
End Counting.

(** * Evaluation on scenarios *)

Ltac by_evaluation :=
  lazymatch goal with
  | |- _ <> _ => discriminate
  | |- _ = _ => vm_compute; reflexivity
  | |- ?P =>
      let d := constr:(_ : Decision P) in
      apply (@bool_decide_unpack P d); vm_compute; exact I
  end.

Ltac scenario_by_evaluation := split; by_evaluation.

(** Membership in an explicit list. *)
Ltac by_evaluation_in := repeat first [apply list_elem_of_here | apply list_elem_of_further].

(** Refutes a decidable hypothesis that evaluates to false. *)
Ltac by_evaluation_not :=
  lazymatch goal with
  | |- ~ ?P =>
      let d := constr:(_ : Decision P) in
      let H := fresh in
      intros H; apply (@bool_decide_pack P d) in H; vm_compute in H; destruct H
  | |- ?P -> _ =>
      let d := constr:(_ : Decision P) in
      let H := fresh in
      intros H; apply (@bool_decide_pack P d) in H; vm_compute in H; destruct H
  end.

(** C7 (as amended). An observer that starts with an empty graph and
    perceives binary interactions with ids of their own, each between itself
    and one of [others], distinct entities that are all met, has one node for
    each of the others and one for itself, and two edges for each
    interaction: 6 interactions across 4 other entities give 5 perceived
    entities and 12 relationships.  [perceived_groups] holds a group id
    exactly when more than one perceived node carries it, with the number of
    those nodes. *)
Theorem find_patterns_counts_the_observer self (h : gmap nat Entity) o others seen :
  h !! self = Some o -> Entity.reality_model o = Some MultiDiGraph.empty ->
  perception_scenario self h others seen ->
  exists h' o' g' rep,
    for_each seen (Observer.perceive_signal self) h = (inr tt, h') /\
    h' !! self = Some o' /\ Entity.reality_model o' = Some g' /\
    Observer.find_patterns self h' = (inr rep, h') /\
    Observer.num_perceived_entities rep = S (length others) /\
    Observer.num_perceived_relationships rep = 2 * length seen /\
    (length seen = 6 -> length others = 4 ->
     Observer.num_perceived_entities rep = 5 /\
     Observer.num_perceived_relationships rep = 12) /\
    (forall gid c,
       Observer.perceived_groups rep !! gid = Some c
       <-> c = members (MultiDiGraph.nodes g') gid /\ 1 < c).
Proof.
  intros Ho Hg Hsc.
  destruct (scenario_counts self h others seen Hsc o Ho Hg) as (g' & Hrun & Hn & He).
  exists (<[self := set_reality_model o g']> h), (set_reality_model o g'), g',
    (Observer.find_patterns_of g').
  split; [done|]. split; [by rewrite lookup_insert_eq|]. split; [done|].
  split.
  { unfold Observer.find_patterns, Observer.get_reality_model, bind, deref.
    by rewrite lookup_insert_eq. }
  split; [done|]. split; [done|]. split.
  - intros H6 H4. simpl. rewrite Hn, He, H6, H4. done.
  - intros gid c. apply perceived_groups_lookup.
Qed.

Lemma find_patterns_counts_the_observer_witness :
  observed_world !! 0 = Some (Observer_init 100 0.5%float) /\
  perception_scenario 0 observed_world [1; 2; 3; 4] six_with_four /\
  exists h' o' g' rep,
    for_each six_with_four (Observer.perceive_signal 0) observed_world = (inr tt, h') /\
    h' !! 0 = Some o' /\ Entity.reality_model o' = Some g' /\
    Observer.find_patterns 0 h' = (inr rep, h') /\
    Observer.num_perceived_entities rep = 5 /\
    Observer.num_perceived_relationships rep = 12 /\
    (length six_with_four = 6 -> length [1; 2; 3; 4] = 4 ->
     Observer.num_perceived_entities rep = 5 /\
     Observer.num_perceived_relationships rep = 12) /\
    (forall gid c,
       Observer.perceived_groups rep !! gid = Some c
       <-> c = members (MultiDiGraph.nodes g') gid /\ 1 < c).
Proof.
  split; [reflexivity|]. split; [scenario_by_evaluation|].
  apply (find_patterns_counts_the_observer 0 observed_world
           (Observer_init 100 0.5%float) [1; 2; 3; 4] six_with_four).
  - reflexivity.
  - reflexivity.
  - scenario_by_evaluation.
Defined.

(** C7 as stated fails: with five other entities the graph has six nodes,
    the observer's own among them. *)
Lemma find_patterns_five_others_give_six_nodes :
  ~ (forall self (h : gmap nat Entity) o others seen h' rep,
       h !! self = Some o -> Entity.reality_model o = Some MultiDiGraph.empty ->
       perception_scenario self h others seen ->
       length seen = 6 -> length others = 5 ->
       for_each seen (Observer.perceive_signal self) h = (inr tt, h') ->
       Observer.find_patterns self h' = (inr rep, h') ->
       Observer.num_perceived_entities rep = 5 /\
       Observer.num_perceived_relationships rep = 12).
Proof.
  intros Hclaim.
  assert (perception_scenario 0 observed_world [1; 2; 3; 4; 5] six_with_five) as Hsc
    by scenario_by_evaluation.
  destruct (scenario_counts 0 observed_world _ _ Hsc (Observer_init 100 0.5%float)
              eq_refl eq_refl) as (g' & Hrun & Hn & He).
  destruct (Hclaim 0 observed_world (Observer_init 100 0.5%float) [1; 2; 3; 4; 5]
              six_with_five _ (Observer.find_patterns_of g')
              eq_refl eq_refl Hsc eq_refl eq_refl Hrun) as [H5 _].
  - unfold Observer.find_patterns, Observer.get_reality_model, bind, deref.
    by rewrite lookup_insert_eq.
  - simpl in H5. rewrite Hn in H5. discriminate.
Qed.

(** * When a tick returns *)

(** The key is absent or holds an integer. *)
Definition int_or_absent (d : gmap string value) (k : string) : Prop :=
  match d !! k with
  | None | Some (VInt _) => True
  | Some _ => False
  end.

Definition numeric_properties (p : gmap string value) : Prop :=
  int_or_absent p "mass" /\ int_or_absent p "energy".

Definition numeric_metadata (i : Interaction) : Prop :=
  int_or_absent (Interaction.metadata i) "mass_change" /\
  int_or_absent (Interaction.metadata i) "energy_gain".

Lemma int_or_absent_get d k n :
  int_or_absent d k -> exists m, dict_get d k (VInt n) = VInt m.
Proof.
  unfold int_or_absent, dict_get. destruct (d !! k) as [[]|]; try done; by eexists.
Qed.

Lemma int_or_absent_insert d k k' v :
  int_or_absent d k -> (k = k' -> exists n, v = VInt n) ->
  int_or_absent (<[k' := v]> d) k.
Proof.
  unfold int_or_absent. intros Hd Hv. destruct (decide (k' = k)) as [->|Hne].
  - rewrite lookup_insert_eq. by destruct Hv as [n ->].
  - by rewrite lookup_insert_ne.
Qed.

Lemma effects_on_numeric i p :
  numeric_properties p -> numeric_metadata i ->
  exists p', effects_on i p = inr p' /\ numeric_properties p'.
Proof.
  intros [Hm He] [Hc Hg]. unfold effects_on.
  destruct (int_or_absent_get _ _ 0 Hm) as [m ->].
  destruct (int_or_absent_get _ _ 0 He) as [e ->].
  destruct (int_or_absent_get _ _ 1 Hc) as [c ->].
  destruct (int_or_absent_get _ _ 10 Hg) as [g ->].
  simpl.
  destruct (String.eqb _ "gravity"); [|destruct (String.eqb _ "fusion");
    [|destruct (String.eqb _ "group_formed")]];
    eexists; (split; [reflexivity|]); try done;
    split; apply int_or_absent_insert; try done; try discriminate; by eexists.
Qed.

(** The store holds entities with numeric mass and energy, among them [ps]. *)
Definition ready (ps : list ref) (h : gmap nat Entity) : Prop :=
  (forall p, p ∈ ps -> is_Some (h !! p)) /\
  (forall r e, h !! r = Some e -> numeric_properties (Entity.properties e)).

Lemma tick_participant_returns i ps p (h : gmap nat Entity) :
  numeric_metadata i -> p ∈ Interaction.participants i ->
  (forall q, q ∈ Interaction.participants i -> q ∈ ps) ->
  ready ps h ->
  exists h', tick_participant i p h = (inr tt, h') /\ ready ps h'.
Proof.
  intros Hmd Hp Hsub [Hdom Hnum]. destruct (Hdom p (Hsub p Hp)) as [e He].
  destruct (effects_on_numeric i _ (Hnum p e He) Hmd) as (p' & Heff & Hp').
  destruct (tick_participant_run i p h e p' He Heff Hp) as (e' & Hrun & Hcore & _).
  { intros q Hq. by apply Hdom, Hsub. }
  exists (<[p := e']> h). split; [done|]. split.
  - intros q Hq. destruct (decide (p = q)) as [<-|Hne].
    + rewrite lookup_insert_eq. by eexists.
    + rewrite lookup_insert_ne by done. by apply Hdom.
  - intros r e1. destruct (decide (p = r)) as [<-|Hne].
    + rewrite lookup_insert_eq. intros [= <-]. by injection Hcore as _ _ _ _ ->.
    + rewrite lookup_insert_ne by done. apply Hnum.
Qed.

Lemma participants_loop_returns i ps qs (h : gmap nat Entity) :
  numeric_metadata i ->
  (forall q, q ∈ qs -> q ∈ Interaction.participants i) ->
  (forall q, q ∈ Interaction.participants i -> q ∈ ps) ->
  ready ps h ->
  exists h', for_each qs (tick_participant i) h = (inr tt, h') /\ ready ps h'.
Proof.
  intros Hmd Hqs Hsub. revert h. induction qs as [|q qs IH]; intros h Hready.
  - by exists h.
  - destruct (tick_participant_returns i ps q h Hmd) as (h1 & Hrun & Hready1);
      [apply Hqs; left|done|done|].
    destruct (IH (fun x Hx => Hqs x (list_elem_of_further _ _ _ Hx)) h1 Hready1)
      as (h' & Hrest & Hready').
    exists h'. split; [|done]. simpl. unfold bind. by rewrite Hrun.
Qed.

Lemma effects_loop_returns new ps (h : gmap nat Entity) :
  (forall i, i ∈ new -> numeric_metadata i /\
                        forall q, q ∈ Interaction.participants i -> q ∈ ps) ->
  ready ps h ->
  exists h', effects_loop new h = (inr tt, h') /\ ready ps h'.
Proof.
  unfold effects_loop. revert h. induction new as [|i new IH]; intros h Hnew Hready.
  - by exists h.
  - destruct (Hnew i) as [Hmd Hsub]; [left|].
    destruct (participants_loop_returns i ps _ h Hmd (fun q Hq => Hq) Hsub Hready)
      as (h1 & Hrun & Hready1).
    destruct (IH h1) as (h' & Hrest & Hready'); [|done|].
    { intros j Hj. apply Hnew. by right. }
    exists h'. split; [|done]. simpl. unfold bind. by rewrite Hrun.
Qed.

(** A tick returns whenever its rules return, the participants of what they
    produce are entities of the store, and masses, energies and their
    changes are integers. *)
Lemma tick_returns {W} (u : Universe W) (h : gmap nat Entity) (w w' : W) outs ps :
  rules_called (entities u) h (interaction_rules u) w outs w' ->
  (forall i, i ∈ concat (map output outs) ->
     numeric_metadata i /\ forall q, q ∈ Interaction.participants i -> q ∈ ps) ->
  ready ps h ->
  exists u' h', tick u h w = (inr (concat (map output outs)), (u', h', w')).
Proof.
  intros Hrules Hnew Hready. unfold tick.
  rewrite (rules_called_rule_loop _ _ _ [] _ _ _ Hrules). simpl.
  destruct (effects_loop_returns _ ps h Hnew Hready) as (h' & -> & _).
  by eexists _, _.
Qed.

(** C1. A call of [tick] that returns has called every registered rule
    once, in registration order, each on the roster and on the store as
    they were on entry, so that no rule sees a recording, an effect or a
    perception of this tick; it returns the concatenation of the rules'
    outputs in that order ([None] and [[]] contribute nothing), appends
    exactly that list to [interaction_history], and every entity has got,
    appended to its own history, each returned interaction once per
    position it holds among the participants, in order, with [local_time]
    advanced by one for each.  And the call does return whenever the rules
    do, the participants they name are entities at [ps], and masses,
    energies and their changes are integers. *)
Theorem tick_runs_rules_then_records {W} (u : Universe W) (h : gmap nat Entity) (w : W) :
  (forall new u' h' w',
     tick u h w = (inr new, (u', h', w')) ->
     exists outs,
       rules_called (entities u) h (interaction_rules u) w outs w' /\
       length outs = length (interaction_rules u) /\
       new = concat (map output outs) /\
       entities u' = entities u /\
       interaction_rules u' = interaction_rules u /\
       interaction_history u' = interaction_history u ++ new /\
       forall r e, h !! r = Some e ->
         exists e', h' !! r = Some e' /\
           Entity.interaction_history e' =
             Entity.interaction_history e ++ occurrences r new /\
           Entity.local_time e' =
             (Entity.local_time e + Z.of_nat (length (occurrences r new)))%Z)
  /\ (forall outs w' ps,
        rules_called (entities u) h (interaction_rules u) w outs w' ->
        (forall i, i ∈ concat (map output outs) ->
           numeric_metadata i /\
           forall q, q ∈ Interaction.participants i -> q ∈ ps) ->
        ready ps h ->
        exists u' h', tick u h w = (inr (concat (map output outs)), (u', h', w'))).
Proof.
  split.
  - intros new u' h' w'. apply tick_inr.
  - intros outs w' ps. apply tick_returns.
Qed.

(** * Group formation *)

Lemma frozenset2_comm a b : frozenset2 a b = frozenset2 b a.
Proof. unfold frozenset2. by rewrite N.min_comm, N.max_comm. Qed.

(** [n] increments of one key in a counter that holds nothing else. *)
Lemma counter_incr_single {K} `{EqDecision K} (k : K) (m : Z) :
  counter_incr k [(k, m)] = [(k, (m + 1)%Z)].
Proof. simpl. by rewrite decide_True. Qed.

Section PairHistory.
Context (h : gmap nat Entity) (a b : ref) (ea eb : Entity).
Hypothesis Ha : h !! a = Some ea.
Hypothesis Hb : h !! b = Some eb.

(** An interaction between [a] and [b], in either order. *)
Definition between (i : Interaction) : Prop :=
  Interaction.participants i = [a; b] \/ Interaction.participants i = [b; a].

Let key := frozenset2 (Entity.id ea) (Entity.id eb).

Lemma count_interaction_between i counts :
  between i -> count_interaction h i counts = inr (counter_incr key counts).
Proof using Ha Hb.
  unfold count_interaction, key. intros [-> | ->]; rewrite Ha, Hb; [done|].
  by rewrite frozenset2_comm.
Qed.

Lemma count_history_between hist m :
  Forall between hist ->
  count_history h hist [(key, m)] = inr [(key, (m + Z.of_nat (length hist))%Z)].
Proof using Ha Hb.
  intros Hall. revert m. induction Hall as [|i hist Hi _ IH]; intros m; simpl.
  - do 3 f_equal. lia.
  - rewrite (count_interaction_between i _ Hi), counter_incr_single, IH.
    do 3 f_equal. lia.
Qed.

Lemma count_history_between_first i hist :
  between i -> Forall between hist ->
  count_history h (i :: hist) [] = inr [(key, Z.of_nat (length (i :: hist)))].
Proof using Ha Hb.
  intros Hi Hall. simpl. rewrite (count_interaction_between i _ Hi). simpl.
  rewrite (count_history_between hist 1 Hall). do 3 f_equal. lia.
Qed.

(** Both entities hold the same non-empty history of interactions between
    them: every interaction is counted once for each of the two. *)
Lemma count_pairs_counts_twice i hist :
  a <> b ->
  Entity.interaction_history ea = i :: hist ->
  Entity.interaction_history eb = i :: hist ->
  between i -> Forall between hist ->
  count_pairs h [a; b] [] = inr [(key, (2 * Z.of_nat (length (i :: hist)))%Z)].
Proof using Ha Hb.
  intros Hne Hha Hhb Hi Hall. simpl. rewrite Ha, Hha.
  rewrite (count_history_between_first i hist Hi Hall).
  rewrite Hb, Hhb.
  rewrite (count_history_between (i :: hist) _ (Forall_cons_2 _ _ _ Hi Hall)).
  do 3 f_equal. simpl length. lia.
Qed.
End PairHistory.

Lemma truthy_not_None v : truthy v = true -> v <> VNone.
Proof. by intros Ht ->. Qed.

Lemma join_group_same (h : gmap nat Entity) e1 e2 x1 x2 acc rt :
  h !! e1 = Some x1 -> h !! e2 = Some x2 ->
  dict_get (Entity.properties x1) "group_id" VNone <> VNone ->
  dict_get (Entity.properties x1) "group_id" VNone
  = dict_get (Entity.properties x2) "group_id" VNone ->
  join_group h e1 e2 acc rt = (inr acc, rt).
Proof.
  intros H1 H2 Hnone Heq. unfold join_group. rewrite H1, H2, <-Heq.
  rewrite (bool_decide_eq_false_2 _ Hnone). simpl.
  by rewrite bool_decide_eq_false_2 by (by intros ?).
Qed.

Lemma join_group_emits (h : gmap nat Entity) e1 e2 x1 x2 acc rt :
  h !! e1 = Some x1 -> h !! e2 = Some x2 ->
  (dict_get (Entity.properties x1) "group_id" VNone = VNone /\
   dict_get (Entity.properties x2) "group_id" VNone = VNone) \/
  dict_get (Entity.properties x1) "group_id" VNone
  <> dict_get (Entity.properties x2) "group_id" VNone ->
  exists g rt' v,
    join_group h e1 e2 acc rt = (inr (acc ++ [g]), rt') /\
    Interaction.interaction_type g = "group_formed" /\
    Interaction.participants g = [e1; e2] /\
    Interaction.metadata g = {["group_id" := v]} /\ v <> VNone.
Proof.
  intros H1 H2 Hcase. unfold join_group. rewrite H1, H2.
  destruct Hcase as [[-> ->]|Hne].
  - simpl. unfold bind, uuid4, Interaction_init, time_time, ret. simpl.
    eexists _, _, _. repeat split. done.
  - assert (bool_decide (dict_get (Entity.properties x1) "group_id" VNone = VNone)
            && bool_decide (dict_get (Entity.properties x2) "group_id" VNone = VNone)
            = false) as ->.
    { apply andb_false_iff. rewrite !bool_decide_eq_false.
      destruct (decide (dict_get (Entity.properties x1) "group_id" VNone = VNone))
        as [E1|E1]; [right|by left]. intros E2. apply Hne. by rewrite E1, E2. }
    rewrite (bool_decide_eq_true_2 _ Hne).
    destruct (truthy (dict_get (Entity.properties x1) "group_id" VNone)) eqn:T1;
      [|destruct (truthy (dict_get (Entity.properties x2) "group_id" VNone)) eqn:T2];
      unfold bind, uuid4, Interaction_init, time_time, ret; simpl;
      eexists _, _, _; repeat split; by (apply truthy_not_None || done).
Qed.

Lemma form_group_pair (h : gmap nat Entity) a b ea eb acc rt :
  h !! a = Some ea -> h !! b = Some eb -> Entity.id ea <> Entity.id eb ->
  form_group [a; b] h (frozenset2 (Entity.id ea) (Entity.id eb)) acc rt
  = join_group h a b acc rt \/
  form_group [a; b] h (frozenset2 (Entity.id ea) (Entity.id eb)) acc rt
  = join_group h b a acc rt.
Proof.
  intros Ha Hb Hne.
  assert (find_by_id [a; b] h (Entity.id ea) = Some a) as Hfa.
  { unfold find_by_id. simpl. rewrite Ha. by rewrite bool_decide_eq_true_2. }
  assert (find_by_id [a; b] h (Entity.id eb) = Some b) as Hfb.
  { unfold find_by_id. simpl. rewrite Ha, Hb.
    rewrite bool_decide_eq_false_2 by done. by rewrite bool_decide_eq_true_2. }
  unfold form_group, frozenset2.
  destruct (N.min_spec (Entity.id ea) (Entity.id eb)) as [[Hlt ->]|[Hle ->]];
    [rewrite N.max_r by lia|rewrite N.max_l by lia];
    cbn [fst snd];
    (rewrite bool_decide_eq_false_2 by congruence);
    unfold bind, get;
    match goal with |- context [frozenset_order rt ?x ?y] =>
      destruct (frozenset_order rt x y) end;
    rewrite Hfa, Hfb; first [by left|by right].
Qed.

(** The engine's pass over one binary interaction whose effect on each of
    its two participants is well typed. *)
Lemma effects_loop_pair i a b (h : gmap nat Entity) ea eb pa pb :
  Interaction.participants i = [a; b] -> a <> b ->
  h !! a = Some ea -> h !! b = Some eb ->
  effects_on i (Entity.properties ea) = inr pa ->
  effects_on i (Entity.properties eb) = inr pb ->
  exists h' ea' eb',
    effects_loop [i] h = (inr tt, h') /\
    h' !! a = Some ea' /\ h' !! b = Some eb' /\
    Entity.properties ea' = pa /\ Entity.properties eb' = pb.
Proof.
  intros Hps Hne Ha Hb Hea Heb.
  destruct (tick_participant_run i a h ea pa Ha Hea) as (ea' & Hrun1 & Hcore1 & _).
  { rewrite Hps. left. }
  { intros q. rewrite Hps. intros [->|[->|[]%elem_of_nil]%elem_of_cons]%elem_of_cons;
      by eexists. }
  assert (<[a := ea']> h !! b = Some eb) as Hb1 by (by rewrite lookup_insert_ne).
  destruct (tick_participant_run i b _ eb pb Hb1 Heb) as (eb' & Hrun2 & Hcore2 & _).
  { rewrite Hps. right. left. }
  { intros q. rewrite Hps. intros [->|[->|[]%elem_of_nil]%elem_of_cons]%elem_of_cons.
    - rewrite lookup_insert_eq. by eexists.
    - by eexists. }
  exists (<[b := eb']> (<[a := ea']> h)), ea', eb'. split.
  { unfold effects_loop. simpl. rewrite Hps. simpl.
    unfold bind at 1. unfold bind at 1. rewrite Hrun1.
    unfold bind at 1. by rewrite Hrun2. }
  split; [by rewrite lookup_insert_ne, lookup_insert_eq|].
  split; [by rewrite lookup_insert_eq|].
  injection Hcore1 as _ _ _ _ ->. by injection Hcore2 as _ _ _ _ ->.
Qed.

(** C2 (what the code does). For a roster of two entities whose histories
    hold the same [k >= 1] interactions between them, the counter of
    [group_formation_rule] holds [2 * k] for the pair: every interaction is
    found in both histories and counted twice.  The threshold 2 is therefore
    reached with a single co-interaction.  The rule then emits one
    "group_formed" interaction between the two, with a group id that is not
    [None], unless both already hold the same group id; after the engine
    has applied it, both hold that id. *)
Theorem group_formation_counts_each_interaction_twice
    (h : gmap nat Entity) a b ea eb i hist rt :
  h !! a = Some ea -> h !! b = Some eb ->
  Entity.id ea <> Entity.id eb ->
  Entity.interaction_history ea = i :: hist ->
  Entity.interaction_history eb = i :: hist ->
  between a b i -> Forall (between a b) hist ->
  let ga := dict_get (Entity.properties ea) "group_id" VNone in
  let gb := dict_get (Entity.properties eb) "group_id" VNone in
  count_pairs h [a; b] []
  = inr [(frozenset2 (Entity.id ea) (Entity.id eb),
          (2 * Z.of_nat (length (i :: hist)))%Z)]
  /\ (ga = gb -> ga <> VNone ->
      group_formation_rule [a; b] h rt = (inr (Some []), rt))
  /\ ((ga = VNone /\ gb = VNone) \/ ga <> gb ->
      exists g rt' v,
        group_formation_rule [a; b] h rt = (inr (Some [g]), rt') /\
        Interaction.interaction_type g = "group_formed" /\
        between a b g /\
        Interaction.metadata g = {["group_id" := v]} /\ v <> VNone /\
        exists h' ea' eb',
          effects_loop [g] h = (inr tt, h') /\
          h' !! a = Some ea' /\ h' !! b = Some eb' /\
          Entity.properties ea' !! "group_id" = Some v /\
          Entity.properties eb' !! "group_id" = Some v).
Proof.
  intros Ha Hb Hid Hha Hhb Hi Hall ga gb. subst ga gb.
  assert (a <> b) as Hne by (intros ->; rewrite Ha in Hb; by injection Hb as ->).
  pose proof (count_pairs_counts_twice h a b ea eb Ha Hb i hist Hne Hha Hhb Hi Hall)
    as Hcount.
  assert (forall acc,
            form_groups [a; b] h 2
              [(frozenset2 (Entity.id ea) (Entity.id eb),
                (2 * Z.of_nat (length (i :: hist)))%Z)] acc rt
            = bind (form_group [a; b] h
                      (frozenset2 (Entity.id ea) (Entity.id eb)) acc) ret rt)
    as Hloop.
  { intros acc. cbn [form_groups].
    assert ((2 <=? 2 * Z.of_nat (length (i :: hist)))%Z = true) as ->
      by (apply Z.leb_le; simpl length; lia).
    done. }
  split; [done|]. split.
  - intros Heq Hnone. unfold group_formation_rule, group_formation_rule_with.
    rewrite Hcount. unfold bind at 1. rewrite Hloop. unfold bind.
    destruct (form_group_pair h a b ea eb [] rt Ha Hb Hid) as [-> | ->].
    + by rewrite (join_group_same h a b ea eb [] rt Ha Hb Hnone Heq).
    + rewrite (join_group_same h b a eb ea [] rt Hb Ha); [done|..].
      * by rewrite <-Heq.
      * done.
  - intros Hcase.
    assert (exists g rt' v,
              form_group [a; b] h (frozenset2 (Entity.id ea) (Entity.id eb)) [] rt
              = (inr [g], rt') /\
              Interaction.interaction_type g = "group_formed" /\
              between a b g /\
              Interaction.metadata g = {["group_id" := v]} /\ v <> VNone)
      as (g & rt' & v & Hform & Hty & Hbetween & Hmd & Hv).
    { destruct (form_group_pair h a b ea eb [] rt Ha Hb Hid) as [-> | ->].
      - destruct (join_group_emits h a b ea eb [] rt Ha Hb Hcase)
          as (g & rt' & v & Hrun & Hty & Hps & Hmd & Hv).
        exists g, rt', v. repeat split; try done. by left.
      - destruct (join_group_emits h b a eb ea [] rt Hb Ha)
          as (g & rt' & v & Hrun & Hty & Hps & Hmd & Hv).
        { destruct Hcase as [[? ?]|?]; [by left|right; congruence]. }
        exists g, rt', v. repeat split; try done. by right. }
    exists g, rt', v. split.
    { unfold group_formation_rule, group_formation_rule_with.
      rewrite Hcount. unfold bind at 1. rewrite Hloop. unfold bind.
      by rewrite Hform. }
    repeat (split; [done|]).
    assert (forall p, effects_on g p = inr (<["group_id" := v]> p)) as Heff.
    { intros p. rewrite (effects_on_group_formed g p Hty), Hmd.
      unfold dict_get. by rewrite lookup_singleton_eq. }
    destruct Hbetween as [Hps|Hps].
    + destruct (effects_loop_pair g a b h ea eb _ _ Hps Hne Ha Hb (Heff _) (Heff _))
        as (h' & ea' & eb' & Hrun & Ha' & Hb' & Hpa & Hpb).
      exists h', ea', eb'. repeat (split; [done|]).
      rewrite Hpa, Hpb. by rewrite !lookup_insert_eq.
    + destruct (effects_loop_pair g b a h eb ea _ _ Hps (not_eq_sym Hne) Hb Ha
                  (Heff _) (Heff _))
        as (h' & eb' & ea' & Hrun & Hb' & Ha' & Hpb & Hpa).
      exists h', ea', eb'. repeat (split; [done|]).
      rewrite Hpa, Hpb. by rewrite !lookup_insert_eq.
Qed.

(** * What the engine keeps, however a tick ends *)

(** The store a call of [tick] leaves is the store its effect phase leaves
    on the interactions the rules produced. *)
Lemma tick_store {W} (u : Universe W) (h : gmap nat Entity) (w : W) :
  (tick u h w).2.1.2 = (effects_loop (produced u h w) h).2.
Proof.
  unfold tick, produced.
  destruct (rule_loop _ _ _ _ _) as [[x|new] w1]; [done|].
  by destruct (effects_loop new h) as [[x|[]] h1].
Qed.

(** Every entity of the store is related to what it was; none appears and
    none disappears. *)
Definition entitywise (E : relation Entity) : relation (gmap nat Entity) :=
  fun h h' => forall r, option_Forall2 E (h !! r) (h' !! r).

#[global] Instance entitywise_preorder E `{!PreOrder E} : PreOrder (entitywise E).
Proof.
  split.
  - intros h r. destruct (h !! r); constructor. reflexivity.
  - intros h1 h2 h3 H12 H23 r. specialize (H12 r). specialize (H23 r).
    destruct H12 as [e1 e2 H12|]; inversion H23; subst; constructor. by etrans.
Qed.

Lemma entitywise_insert E `{!PreOrder E} (h : gmap nat Entity) r e e' :
  h !! r = Some e -> E e e' -> entitywise E h (<[r := e']> h).
Proof.
  intros Hr He r'. destruct (decide (r = r')) as [<-|Hne].
  - rewrite lookup_insert_eq, Hr. by constructor.
  - rewrite lookup_insert_ne by done. destruct (h !! r'); constructor. reflexivity.
Qed.

Lemma entitywise_lookup E (h h' : gmap nat Entity) r e :
  entitywise E h h' -> h !! r = Some e -> exists e', h' !! r = Some e' /\ E e e'.
Proof.
  intros HE Hr. specialize (HE r). rewrite Hr in HE. inversion HE; subst. eauto.
Qed.

(** The steps the engine takes on an entity for the interactions [new]:
    if each of them relates the entity to what it was, so does the whole
    effect phase, at whatever point it stops. *)
Section EngineSteps.
Context (E : relation Entity) {E_preorder : PreOrder E}.
Context (new : list Interaction).

Hypothesis recorded : forall i e, i ∈ new ->
  E e (set_history_time e (Entity.interaction_history e ++ [i])
         (Entity.local_time e + 1)).
Hypothesis affected : forall i e p, i ∈ new ->
  effects_on i (Entity.properties e) = inr p -> E e (set_properties e p).
Hypothesis node_perceived : forall i o g x, i ∈ new ->
  i ∈ Entity.interaction_history o ->
  Entity.reality_model o = Some g ->
  E o (set_reality_model o (Observer.upsert_node g x)).
Hypothesis edges_perceived : forall i o g u v, i ∈ new ->
  i ∈ Entity.interaction_history o ->
  Entity.reality_model o = Some g ->
  E o (set_reality_model o
         (MultiDiGraph.add_edge
            (MultiDiGraph.add_edge g u v (Interaction.id i) (Observer.edge_of i))
            v u (Interaction.id i) (Observer.edge_of i))).

(** The observer [self] holds [i] in its history. *)
Definition holds (self : ref) (i : Interaction) (h : gmap nat Entity) : Prop :=
  forall o, h !! self = Some o -> i ∈ Entity.interaction_history o.

Definition while_holding (self : ref) (i : Interaction) : relation (gmap nat Entity) :=
  fun h h' => holds self i h -> entitywise E h h' /\ holds self i h'.

#[local] Instance while_holding_preorder self i : PreOrder (while_holding self i).
Proof using E_preorder.
  split.
  - intros h Hh. split; [reflexivity|done].
  - intros h1 h2 h3 H12 H23 Hh. destruct (H12 Hh) as [E12 Hh2].
    destruct (H23 Hh2) as [E23 Hh3]. split; [by etrans|done].
Qed.

Lemma set_model_holding self i (h : gmap nat Entity) o g' :
  h !! self = Some o -> E o (set_reality_model o g') ->
  while_holding self i h (<[self := set_reality_model o g']> h).
Proof using E_preorder.
  intros Ho HE Hh. split; [by eapply entitywise_insert|].
  intros o'. rewrite lookup_insert_eq. intros [= <-]. simpl. by apply Hh.
Qed.

Lemma perceive_participant_holding self i p : i ∈ new ->
  moves_by (while_holding self i) (Observer.perceive_participant self p).
Proof using E_preorder node_perceived.
  intros Hi h.
  destruct (perceive_participant_cases self p h) as [->|(e & o & g & Hp & Ho & Hg & ->)].
  - reflexivity.
  - intros Hh. apply set_model_holding; [done| |done].
    eapply node_perceived; [done| |done]. by apply Hh.
Qed.

Lemma perceive_edges_holding self i : i ∈ new ->
  moves_by (while_holding self i) (Observer.perceive_edges self i).
Proof using E_preorder edges_perceived.
  intros Hi h.
  destruct (perceive_edges_cases self i h)
    as [->|(r1 & r2 & e1 & e2 & o & g & Hps & H1 & H2 & Ho & Hg & ->)].
  - reflexivity.
  - intros Hh. apply set_model_holding; [done| |done].
    eapply edges_perceived; [done| |done]. by apply Hh.
Qed.

Lemma perceive_signal_holding self i : i ∈ new ->
  moves_by (while_holding self i) (Observer.perceive_signal self i).
Proof using E_preorder node_perceived edges_perceived.
  intros Hi. unfold Observer.perceive_signal. case_bool_decide.
  - apply moves_by_bind; [apply _| |].
    + apply moves_by_for_each; [apply _|]. intros p _.
      by apply perceive_participant_holding.
    + intros _. by apply perceive_edges_holding.
  - apply moves_by_ret, _.
Qed.

Lemma tick_participant_entitywise i p : i ∈ new ->
  moves_by (entitywise E) (tick_participant i p).
Proof using All.
  intros Hi h. unfold tick_participant, record_interaction, apply_effects.
  unfold bind at 1. unfold bind at 1. unfold deref at 1.
  destruct (h !! p) as [e|] eqn:He; [|reflexivity].
  set (e1 := set_history_time e _ _). simpl.
  assert (entitywise E h (<[p := e1]> h)) as H1.
  { eapply entitywise_insert; [apply _|done|]. by apply recorded. }
  unfold bind at 1. unfold bind at 1. unfold deref at 1. rewrite lookup_insert_eq.
  destruct (effects_on i (Entity.properties e1)) as [x|props] eqn:Heff; [done|].
  simpl. rewrite insert_insert_eq.
  set (e2 := set_properties e1 props).
  assert (entitywise E h (<[p := e2]> h)) as H2.
  { eapply entitywise_insert; [apply _|done|]. etrans; [by apply recorded|].
    by eapply affected. }
  unfold bind, deref. rewrite lookup_insert_eq.
  destruct (is_Observer e2); [|done].
  etrans; [exact H2|].
  apply (perceive_signal_holding p i Hi).
  intros o. rewrite lookup_insert_eq. intros [= <-]. simpl.
  apply elem_of_app. right. left.
Qed.

Lemma effects_loop_entitywise l : l ⊆ new ->
  moves_by (entitywise E) (effects_loop l).
Proof using All.
  intros Hl. unfold effects_loop.
  apply moves_by_for_each; [apply _|]. intros i Hi.
  apply moves_by_for_each; [apply _|]. intros p _.
  apply tick_participant_entitywise. by apply Hl.
Qed.
End EngineSteps.

(** ** Histories and local time *)

(** [e'] is [e] with interactions of [new] appended to its history and its
    local time advanced by one for each; id, scale and class are the same. *)
Definition advanced (new : list Interaction) (e e' : Entity) : Prop :=
  Entity.id e' = Entity.id e /\ Entity.scale e' = Entity.scale e /\
  is_Observer e' = is_Observer e /\
  exists l, l ⊆ new /\
    Entity.interaction_history e' = Entity.interaction_history e ++ l /\
    Entity.local_time e' = (Entity.local_time e + Z.of_nat (length l))%Z.

#[global] Instance advanced_preorder new : PreOrder (advanced new).
Proof.
  split.
  - intros e. repeat split. exists []. rewrite app_nil_r. simpl.
    split; [apply list_subseteq_nil|]. split; [done|lia].
  - intros e1 e2 e3 (Hi1 & Hs1 & Ho1 & l1 & Hl1 & Hh1 & Ht1)
      (Hi2 & Hs2 & Ho2 & l2 & Hl2 & Hh2 & Ht2).
    split; [congruence|]. split; [congruence|]. split; [congruence|].
    exists (l1 ++ l2). split; [intros x [?|?]%elem_of_app; auto|].
    rewrite Hh2, Hh1, Ht2, Ht1, length_app, <-app_assoc. split; [done|lia].
Qed.

Lemma effects_loop_advanced new :
  moves_by (entitywise (advanced new)) (effects_loop new).
Proof.
  apply (effects_loop_entitywise (advanced new) new); [..|done].
  - intros i e Hi. repeat split. exists [i]. simpl.
    split; [by intros x ->%list_elem_of_singleton|]. split; [done|lia].
  - intros i e p Hi _. repeat split. exists []. simpl. rewrite app_nil_r.
    split; [apply list_subseteq_nil|]. split; [done|lia].
  - intros i o g x Hi _ Hg. repeat split.
    + unfold is_Observer. simpl. by rewrite Hg.
    + exists []. simpl. rewrite app_nil_r. split; [apply list_subseteq_nil|]. split; [done|lia].
  - intros i o g a b Hi _ Hg. repeat split.
    + unfold is_Observer. simpl. by rewrite Hg.
    + exists []. simpl. rewrite app_nil_r. split; [apply list_subseteq_nil|]. split; [done|lia].
Qed.

(** X3. However a call of [tick] ends, with a result or with an exception
    of a rule or of an effect, the store holds the same objects as before:
    none is added and none is lost, and each has its id, its scale and its
    class.  The history of each has only grown at its end, by interactions
    the rules produced in this tick, and its local time has advanced by
    exactly the number of entries added; so [local_time] is the length of
    [interaction_history] after the tick if it was before. *)
Theorem tick_histories_only_grow {W} (u : Universe W) (h : gmap nat Entity) (w : W)
    res u' h' w' :
  tick u h w = (res, (u', h', w')) ->
  (forall r, h !! r = None -> h' !! r = None) /\
  (forall r e, h !! r = Some e ->
     exists e' l,
       h' !! r = Some e' /\
       Entity.id e' = Entity.id e /\ Entity.scale e' = Entity.scale e /\
       is_Observer e' = is_Observer e /\
       l ⊆ produced u h w /\
       Entity.interaction_history e' = Entity.interaction_history e ++ l /\
       Entity.local_time e' = (Entity.local_time e + Z.of_nat (length l))%Z /\
       (Entity.local_time e = Z.of_nat (length (Entity.interaction_history e)) ->
        Entity.local_time e' = Z.of_nat (length (Entity.interaction_history e')))).
Proof.
  intros Htick. pose proof (tick_store u h w) as Hstore.
  rewrite Htick in Hstore. simpl in Hstore. subst h'.
  pose proof (effects_loop_advanced (produced u h w) h) as Hadv.
  split.
  - intros r Hr. specialize (Hadv r). rewrite Hr in Hadv. by inversion Hadv.
  - intros r e Hr.
    destruct (entitywise_lookup _ _ _ r e Hadv Hr)
      as (e' & Hr' & Hid & Hsc & Hob & l & Hl & Hh & Ht).
    exists e', l. repeat (split; [done|]).
    intros Hlen. rewrite Ht, Hh, length_app, Hlen. lia.
Qed.

(** ** Properties *)

(** The key of [properties] that an interaction of this type writes. *)
Definition writes (i : Interaction) (k : string) : Prop :=
  (Interaction.interaction_type i = "gravity" /\ k = "mass") \/
  (Interaction.interaction_type i = "fusion" /\ k = "energy") \/
  (Interaction.interaction_type i = "group_formed" /\ k = "group_id").

Definition properties_kept (new : list Interaction) (e e' : Entity) : Prop :=
  forall k, Entity.properties e' !! k = Entity.properties e !! k \/
            exists i, i ∈ new /\ writes i k.

#[global] Instance properties_kept_preorder new : PreOrder (properties_kept new).
Proof.
  split.
  - intros e k. by left.
  - intros e1 e2 e3 H12 H23 k.
    destruct (H12 k) as [E12|?]; [|by right].
    destruct (H23 k) as [E23|?]; [|by right]. left. congruence.
Qed.

Lemma effects_on_writes i p p' k :
  effects_on i p = inr p' -> p' !! k = p !! k \/ writes i k.
Proof.
  unfold effects_on, writes.
  destruct (String.eqb _ "gravity") eqn:Hg;
    [apply String.eqb_eq in Hg|
     destruct (String.eqb _ "fusion") eqn:Hf;
       [apply String.eqb_eq in Hf|
        destruct (String.eqb _ "group_formed") eqn:Hgf;
          [apply String.eqb_eq in Hgf|]]].
  - destruct (py_add _ _); [done|]. intros [= <-].
    destruct (decide (k = "mass")) as [->|Hne]; [right; by left|].
    left. by rewrite lookup_insert_ne.
  - destruct (py_add _ _); [done|]. intros [= <-].
    destruct (decide (k = "energy")) as [->|Hne]; [right; right; by left|].
    left. by rewrite lookup_insert_ne.
  - intros [= <-].
    destruct (decide (k = "group_id")) as [->|Hne]; [right; right; by right|].
    left. by rewrite lookup_insert_ne.
  - intros [= <-]. by left.
Qed.

Lemma effects_loop_properties_kept new :
  moves_by (entitywise (properties_kept new)) (effects_loop new).
Proof.
  apply (effects_loop_entitywise (properties_kept new) new); [..|done].
  - intros i e Hi k. by left.
  - intros i e p Hi Heff k. simpl.
    destruct (effects_on_writes i _ p k Heff) as [?|?]; [by left|right; eauto].
  - intros i o g x Hi _ Hg k. by left.
  - intros i o g a b Hi _ Hg k. by left.
Qed.

(** X4. However a call of [tick] ends, a key of an entity's [properties]
    holds what it held before (or is absent as before) unless the rules
    produced an interaction of the type that writes it: "gravity" for
    "mass", "fusion" for "energy", "group_formed" for "group_id".  No other
    key is ever written or removed. *)
Theorem tick_writes_three_properties {W} (u : Universe W) (h : gmap nat Entity) (w : W)
    res u' h' w' r e e' k :
  tick u h w = (res, (u', h', w')) ->
  h !! r = Some e -> h' !! r = Some e' ->
  Entity.properties e' !! k <> Entity.properties e !! k ->
  exists i, i ∈ produced u h w /\
    ((Interaction.interaction_type i = "gravity" /\ k = "mass") \/
     (Interaction.interaction_type i = "fusion" /\ k = "energy") \/
     (Interaction.interaction_type i = "group_formed" /\ k = "group_id")).
Proof.
  intros Htick Hr Hr' Hk. pose proof (tick_store u h w) as Hstore.
  rewrite Htick in Hstore. simpl in Hstore. subst h'.
  pose proof (effects_loop_properties_kept (produced u h w) h) as Hkept.
  destruct (entitywise_lookup _ _ _ r e Hkept Hr) as (e1 & Hr1 & Hk1).
  rewrite Hr' in Hr1. injection Hr1 as <-.
  by destruct (Hk1 k) as [?|?].
Qed.

(** ** The graph of an observer *)

(** [g'] has every node and every edge of [g], and every node of [g] has
    in [g'] the scale it had. *)
Definition grown (g g' : MultiDiGraph) : Prop :=
  (forall n a, MultiDiGraph.nodes g !! n = Some a ->
     exists a', MultiDiGraph.nodes g' !! n = Some a' /\
                MultiDiGraph.scale a' = MultiDiGraph.scale a) /\
  (forall k, is_Some (MultiDiGraph.edges g !! k) -> is_Some (MultiDiGraph.edges g' !! k)).

Definition model_grown (e e' : Entity) : Prop :=
  match Entity.reality_model e, Entity.reality_model e' with
  | Some g, Some g' => grown g g'
  | None, None => True
  | _, _ => False
  end.

#[global] Instance grown_preorder : PreOrder grown.
Proof.
  split.
  - intros g. split; eauto.
  - intros g1 g2 g3 [N12 E12] [N23 E23]. split.
    + intros n a Ha. destruct (N12 n a Ha) as (a2 & Ha2 & Hs2).
      destruct (N23 n a2 Ha2) as (a3 & Ha3 & Hs3). exists a3. split; congruence.
    + eauto.
Qed.

#[global] Instance model_grown_preorder : PreOrder model_grown.
Proof.
  unfold model_grown. split.
  - intros e. destruct (Entity.reality_model e); [reflexivity|done].
  - intros e1 e2 e3.
    destruct (Entity.reality_model e1), (Entity.reality_model e2),
      (Entity.reality_model e3); try done. apply transitivity.
Qed.

Lemma model_grown_same e e' :
  Entity.reality_model e' = Entity.reality_model e -> model_grown e e'.
Proof.
  unfold model_grown. intros ->. destruct (Entity.reality_model e); [reflexivity|done].
Qed.

Lemma upsert_node_grown g x : grown g (Observer.upsert_node g x).
Proof.
  split.
  - intros n a Ha. rewrite upsert_node_nodes.
    destruct (decide (Entity.id x = n)) as [<-|Hne].
    + rewrite lookup_insert_eq, Ha. by eexists.
    + rewrite lookup_insert_ne by done. by exists a.
  - intros k. by rewrite upsert_node_edges.
Qed.

Lemma add_node_grown g n : ~ is_Some (MultiDiGraph.nodes g !! n) ->
  grown g (MultiDiGraph.add_node g n (MultiDiGraph.mk_node None None None)).
Proof.
  intros Hn. unfold MultiDiGraph.add_node.
  destruct (MultiDiGraph.nodes g !! n) eqn:E; [destruct Hn; by eexists|].
  split; [|done]. intros m a Ha. simpl.
  rewrite lookup_insert_ne by congruence. by exists a.
Qed.

Lemma add_edge_grown g u v k d : grown g (MultiDiGraph.add_edge g u v k d).
Proof.
  unfold MultiDiGraph.add_edge.
  set (g1 := if MultiDiGraph.has_node g u then g else _).
  set (g2 := if MultiDiGraph.has_node g1 v then g1 else _).
  assert (grown g g1) as H1.
  { unfold g1, MultiDiGraph.has_node. case_bool_decide; [reflexivity|].
    by apply add_node_grown. }
  assert (grown g1 g2) as H2.
  { unfold g2, MultiDiGraph.has_node. case_bool_decide; [reflexivity|].
    by apply add_node_grown. }
  etrans; [exact H1|]. etrans; [exact H2|].
  split; [by eauto|]. intros k' Hk'. simpl.
  destruct (decide ((u, v, k) = k')) as [<-|Hne].
  - rewrite lookup_insert_eq. by eexists.
  - by rewrite lookup_insert_ne.
Qed.

Lemma effects_loop_model_grown new :
  moves_by (entitywise model_grown) (effects_loop new).
Proof.
  apply (effects_loop_entitywise model_grown new); [..|done].
  - intros i e Hi. by apply model_grown_same.
  - intros i e p Hi _. by apply model_grown_same.
  - intros i o g x Hi _ Hg. unfold model_grown. simpl. rewrite Hg.
    apply upsert_node_grown.
  - intros i o g a b Hi _ Hg. unfold model_grown. simpl. rewrite Hg.
    etrans; apply add_edge_grown.
Qed.

(** X5. An observer never forgets.  However a call of [tick] ends, the
    graph of every observer has every node and every edge (by source, target
    and key) it had before, and every node it had has the scale it had: the
    scale stored at the first perception is never refreshed.  An entity that
    is no observer has got no graph. *)
Theorem tick_graph_only_grows {W} (u : Universe W) (h : gmap nat Entity) (w : W)
    res u' h' w' r o g :
  tick u h w = (res, (u', h', w')) ->
  h !! r = Some o -> Entity.reality_model o = Some g ->
  exists o' g',
    h' !! r = Some o' /\ Entity.reality_model o' = Some g' /\
    (forall n a, MultiDiGraph.nodes g !! n = Some a ->
       exists a', MultiDiGraph.nodes g' !! n = Some a' /\
                  MultiDiGraph.scale a' = MultiDiGraph.scale a) /\
    (forall s t k, is_Some (MultiDiGraph.edges g !! (s, t, k)) ->
                   is_Some (MultiDiGraph.edges g' !! (s, t, k))).
Proof.
  intros Htick Hr Hg. pose proof (tick_store u h w) as Hstore.
  rewrite Htick in Hstore. simpl in Hstore. subst h'.
  pose proof (effects_loop_model_grown (produced u h w) h) as Hgrown.
  destruct (entitywise_lookup _ _ _ r o Hgrown Hr) as (o' & Hr' & Hm).
  unfold model_grown in Hm. rewrite Hg in Hm.
  destruct (Entity.reality_model o') as [g'|] eqn:Hg'; [|done].
  exists o', g'. destruct Hm as [Hn He]. repeat split; eauto.
Qed.

(** Every edge has its reverse with the same key and the same attributes,
    and both its ends are nodes. *)
Definition symmetric_graph (g : MultiDiGraph) : Prop :=
  forall s t k d, MultiDiGraph.edges g !! (s, t, k) = Some d ->
    MultiDiGraph.edges g !! (t, s, k) = Some d /\
    is_Some (MultiDiGraph.nodes g !! s) /\ is_Some (MultiDiGraph.nodes g !! t).

Definition model_symmetric (e : Entity) : Prop :=
  forall g, Entity.reality_model e = Some g -> symmetric_graph g.

Lemma upsert_node_symmetric g x :
  symmetric_graph g -> symmetric_graph (Observer.upsert_node g x).
Proof.
  intros Hg s t k d. rewrite upsert_node_edges. intros Hd.
  destruct (Hg s t k d Hd) as (Hrev & Hs & Ht).
  rewrite !upsert_node_nodes_is_Some. eauto.
Qed.

Lemma add_edges_symmetric g u v k d :
  symmetric_graph g ->
  symmetric_graph (MultiDiGraph.add_edge (MultiDiGraph.add_edge g u v k d) v u k d).
Proof.
  intros Hg s t k' d'. rewrite !add_edge_edges, !add_edge_nodes_is_Some.
  destruct (decide ((v, u, k) = (s, t, k'))) as [[= <- <- <-]|Hne1].
  - rewrite lookup_insert_eq. intros [= <-].
    split; [|split; auto 10]. destruct (decide (v = u)) as [->|Hvu].
    + by rewrite lookup_insert_eq.
    + rewrite lookup_insert_ne by congruence. by rewrite lookup_insert_eq.
  - rewrite lookup_insert_ne by done.
    destruct (decide ((u, v, k) = (s, t, k'))) as [[= <- <- <-]|Hne2].
    + rewrite lookup_insert_eq. intros [= <-].
      split; [|split; auto 10]. by rewrite lookup_insert_eq.
    + rewrite lookup_insert_ne by done. intros Hd.
      destruct (Hg s t k' d' Hd) as (Hrev & Hs & Ht).
      split; [|split; auto 10].
      rewrite !lookup_insert_ne by congruence. done.
Qed.

Lemma effects_loop_model_symmetric new :
  moves_by (entitywise (preserves model_symmetric)) (effects_loop new).
Proof.
  apply (effects_loop_entitywise (preserves model_symmetric) new); [..|done].
  - intros i e Hi He g. apply He.
  - intros i e p Hi _ He g. apply He.
  - intros i o g x Hi _ Hg Ho g'. simpl. intros [= <-].
    apply upsert_node_symmetric. by apply Ho.
  - intros i o g a b Hi _ Hg Ho g'. simpl. intros [= <-].
    apply add_edges_symmetric. by apply Ho.
Qed.

(** X6. The graph of an observer is directed, but what [perceive_signal]
    builds is symmetric, and a call of [tick] keeps it so however it ends:
    if before the tick every edge of an observer's graph has its reverse
    with the same key and the same attributes and joins two nodes of the
    graph, then so it is afterwards.  The empty graph of a new observer is
    such a graph. *)
Theorem tick_keeps_graphs_symmetric {W} (u : Universe W) (h : gmap nat Entity) (w : W)
    res u' h' w' r o o' g' :
  tick u h w = (res, (u', h', w')) ->
  h !! r = Some o ->
  (forall g, Entity.reality_model o = Some g -> symmetric_graph g) ->
  h' !! r = Some o' -> Entity.reality_model o' = Some g' ->
  symmetric_graph g' /\ symmetric_graph MultiDiGraph.empty.
Proof.
  intros Htick Hr Hsym Hr' Hg'. pose proof (tick_store u h w) as Hstore.
  rewrite Htick in Hstore. simpl in Hstore. subst h'.
  pose proof (effects_loop_model_symmetric (produced u h w) h) as Hkeeps.
  destruct (entitywise_lookup _ _ _ r o Hkeeps Hr) as (o1 & Hr1 & Hk).
  rewrite Hr' in Hr1. injection Hr1 as <-.
  split; [by apply (Hk Hsym)|]. intros s t k d. simpl. by rewrite lookup_empty.
Qed.

(** Every edge of the entity's graph is keyed by the id of an interaction of
    its own history and carries that interaction's attributes. *)
Definition edges_recorded (e : Entity) : Prop :=
  forall g s t k d, Entity.reality_model e = Some g ->
    MultiDiGraph.edges g !! (s, t, k) = Some d ->
    exists i, i ∈ Entity.interaction_history e /\ Interaction.id i = k /\
              d = Observer.edge_of i.

Lemma effects_loop_edges_recorded new :
  moves_by (entitywise (preserves edges_recorded)) (effects_loop new).
Proof.
  apply (effects_loop_entitywise (preserves edges_recorded) new); [..|done].
  - intros i e Hi He g s t k d Hg Hd. simpl in *.
    destruct (He g s t k d Hg Hd) as (j & Hj & Hid & Hattr).
    exists j. split; [|done]. apply elem_of_app. by left.
  - intros i e p Hi _ He g s t k d Hg Hd. simpl in *. by eapply He.
  - intros i o g x Hi _ Hg Ho g' s t k d. simpl. intros [= <-].
    rewrite upsert_node_edges. by apply Ho.
  - intros i o g a b Hi Hin Hg Ho g' s t k d. simpl. intros [= <-].
    rewrite !add_edge_edges.
    destruct (decide ((b, a, Interaction.id i) = (s, t, k))) as [[= <- <- <-]|Hne1].
    { rewrite lookup_insert_eq. intros [= <-]. by exists i. }
    rewrite lookup_insert_ne by done.
    destruct (decide ((a, b, Interaction.id i) = (s, t, k))) as [[= <- <- <-]|Hne2].
    { rewrite lookup_insert_eq. intros [= <-]. by exists i. }
    rewrite lookup_insert_ne by done. by apply Ho.
Qed.

(** X7. In a universe that only [tick] drives, an observer's graph holds
    edges of its own interactions only: if every edge of its graph is keyed
    by the id of an interaction of the observer's own history and carries
    the type, timestamp and metadata of that interaction, then the same
    holds after a call of [tick], however it ends.  The engine records an
    interaction with the observer before the observer perceives it. *)
Theorem tick_edges_are_recorded_interactions {W} (u : Universe W)
    (h : gmap nat Entity) (w : W) res u' h' w' r o o' g' s t k d :
  tick u h w = (res, (u', h', w')) ->
  h !! r = Some o -> edges_recorded o ->
  h' !! r = Some o' -> Entity.reality_model o' = Some g' ->
  MultiDiGraph.edges g' !! (s, t, k) = Some d ->
  exists i, i ∈ Entity.interaction_history o' /\ Interaction.id i = k /\
    MultiDiGraph.type d = Interaction.interaction_type i /\
    MultiDiGraph.timestamp d = Interaction.timestamp i /\
    MultiDiGraph.metadata d = Interaction.metadata i.
Proof.
  intros Htick Hr Hrec Hr' Hg' Hd. pose proof (tick_store u h w) as Hstore.
  rewrite Htick in Hstore. simpl in Hstore. subst h'.
  pose proof (effects_loop_edges_recorded (produced u h w) h) as Hkeeps.
  destruct (entitywise_lookup _ _ _ r o Hkeeps Hr) as (o1 & Hr1 & Hk).
  rewrite Hr' in Hr1. injection Hr1 as <-.
  destruct (Hk Hrec g' s t k d Hg' Hd) as (i & Hi & Hid & ->).
  by exists i.
Qed.

(** * A tick that fails, and the order of the participants *)

Lemma effects_on_raises i p x : effects_on i p = inl x -> x = TypeError.
Proof.
  unfold effects_on, py_add.
  repeat match goal with
         | |- context [if ?b then _ else _] => destruct b
         | |- context [match ?v with VNone => _ | VInt _ => _ | VStr _ => _ end] =>
             destruct v
         end; congruence.
Qed.

(** X8. A call of [tick] is not atomic.  When the effect of the first new
    interaction on its first participant cannot be computed (a mass or an
    energy that is no integer), the call raises [TypeError], but all the
    interactions of the rules are already in the universe's history, and the
    participant has already recorded the interaction and advanced its local
    time; its properties and all other entities are as before. *)
Theorem tick_stops_at_failing_effect {W} (u : Universe W) (h : gmap nat Entity)
    (w w' : W) i rest p ps e x :
  rule_loop (interaction_rules u) (entities u) h [] w = (inr (i :: rest), w') ->
  Interaction.participants i = p :: ps ->
  h !! p = Some e ->
  effects_on i (Entity.properties e) = inl x ->
  tick u h w
  = (inl TypeError,
     (mkUniverse (entities u) (interaction_rules u)
                 (interaction_history u ++ i :: rest),
      <[p := set_history_time e (Entity.interaction_history e ++ [i])
                              (Entity.local_time e + 1)]> h,
      w')).
Proof.
  intros Hrules Hps Hp Heff. pose proof (effects_on_raises _ _ _ Heff) as ->.
  unfold tick. rewrite Hrules.
  assert (effects_loop (i :: rest) h
          = (inl TypeError,
             <[p := set_history_time e (Entity.interaction_history e ++ [i])
                      (Entity.local_time e + 1)]> h)) as ->; [|done].
  unfold effects_loop. simpl. rewrite Hps. simpl.
  unfold tick_participant, record_interaction, apply_effects, bind, deref, store.
  rewrite Hp, lookup_insert_eq. simpl. by rewrite Heff.
Qed.

(** The engine's step for one participant, with the new graph when the
    participant is an observer. *)
Lemma tick_participant_graph i p (h : gmap nat Entity) e props' :
  h !! p = Some e ->
  effects_on i (Entity.properties e) = inr props' ->
  p ∈ Interaction.participants i ->
  let e2 := set_properties (set_history_time e
              (Entity.interaction_history e ++ [i]) (Entity.local_time e + 1)) props' in
  forall snap, snapshot (<[p := e2]> h) (Interaction.participants i) snap ->
  tick_participant i p h
  = (inr tt,
     <[p := match Entity.reality_model e with
            | Some g => set_reality_model e2 (perceive_graph snap i g)
            | None => e2
            end]> h).
Proof.
  intros He Heff Hin e2 snap Hsnap.
  assert (tick_participant i p h
          = (if is_Observer e2 then Observer.perceive_signal p i else ret tt)
              (<[p := e2]> h)) as ->.
  { unfold tick_participant, record_interaction, apply_effects, bind, deref, store.
    rewrite He, lookup_insert_eq. simpl. rewrite Heff, insert_insert_eq.
    by rewrite lookup_insert_eq. }
  destruct (Entity.reality_model e) as [g|] eqn:Hg.
  - assert (is_Observer e2 = true) as -> by (unfold is_Observer; simpl; by rewrite Hg).
    rewrite (perceive_signal_run p e2 _ (lookup_insert_eq _ _ _) i snap g Hg Hin Hsnap).
    by rewrite insert_insert_eq.
  - by assert (is_Observer e2 = false) as -> by (unfold is_Observer; simpl; by rewrite Hg).
Qed.

Lemma upserted_shows old e :
  MultiDiGraph.properties (upserted old e) = Some (Entity.properties e) /\
  MultiDiGraph.local_time (upserted old e) = Some (Entity.local_time e).
Proof. by destruct old. Qed.

(** The nodes of the two participants after a perception of a binary
    interaction between entities with different ids. *)
Lemma perceive_graph_pair x y i g :
  Entity.id x <> Entity.id y ->
  (exists n, MultiDiGraph.nodes (perceive_graph [x; y] i g) !! Entity.id x = Some n /\
     MultiDiGraph.properties n = Some (Entity.properties x) /\
     MultiDiGraph.local_time n = Some (Entity.local_time x)) /\
  (exists n, MultiDiGraph.nodes (perceive_graph [x; y] i g) !! Entity.id y = Some n /\
     MultiDiGraph.properties n = Some (Entity.properties y) /\
     MultiDiGraph.local_time n = Some (Entity.local_time y)).
Proof.
  intros Hid. rewrite perceive_graph_nodes. split.
  - rewrite (foldl_upsert_node [x; y] g x).
    + eexists. split; [done|]. apply upserted_shows.
    + left.
    + intros e' [->|[->|[]%elem_of_nil]%elem_of_cons]%elem_of_cons; [done|].
      intros Heq. by destruct Hid.
  - rewrite (foldl_upsert_node [x; y] g y).
    + eexists. split; [done|]. apply upserted_shows.
    + right. left.
    + intros e' [->|[->|[]%elem_of_nil]%elem_of_cons]%elem_of_cons; [|done].
      intros Heq. by destruct Hid.
Qed.

(** X9. What an observer sees of its partner depends on the order of the
    participants.  The engine records, affects and lets perceive one
    participant after the other.  In an interaction [[a; b]] an observer
    at [a] perceives [b] before the engine has reached [b]: the node of [b]
    in its graph shows the properties and the local time [b] had before the
    interaction, although [b] itself has the new ones at the end of the
    tick.  An observer at [b] perceives [a] as the interaction has left it.
    Each observer shows itself as the interaction has left it. *)
Theorem observer_sees_first_participant_updated i a b (h : gmap nat Entity)
    ea eb pa pb :
  Interaction.participants i = [a; b] -> a <> b ->
  h !! a = Some ea -> h !! b = Some eb -> Entity.id ea <> Entity.id eb ->
  effects_on i (Entity.properties ea) = inr pa ->
  effects_on i (Entity.properties eb) = inr pb ->
  exists h' ea' eb',
    effects_loop [i] h = (inr tt, h') /\
    h' !! a = Some ea' /\ h' !! b = Some eb' /\
    Entity.properties ea' = pa /\ Entity.local_time ea' = (Entity.local_time ea + 1)%Z /\
    Entity.properties eb' = pb /\ Entity.local_time eb' = (Entity.local_time eb + 1)%Z /\
    (is_Observer ea = true ->
     exists g na nb,
       Entity.reality_model ea' = Some g /\
       MultiDiGraph.nodes g !! Entity.id ea = Some na /\
       MultiDiGraph.properties na = Some pa /\
       MultiDiGraph.local_time na = Some (Entity.local_time ea + 1)%Z /\
       MultiDiGraph.nodes g !! Entity.id eb = Some nb /\
       MultiDiGraph.properties nb = Some (Entity.properties eb) /\
       MultiDiGraph.local_time nb = Some (Entity.local_time eb)) /\
    (is_Observer eb = true ->
     exists g na nb,
       Entity.reality_model eb' = Some g /\
       MultiDiGraph.nodes g !! Entity.id ea = Some na /\
       MultiDiGraph.properties na = Some pa /\
       MultiDiGraph.local_time na = Some (Entity.local_time ea + 1)%Z /\
       MultiDiGraph.nodes g !! Entity.id eb = Some nb /\
       MultiDiGraph.properties nb = Some pb /\
       MultiDiGraph.local_time nb = Some (Entity.local_time eb + 1)%Z).
Proof.
  intros Hps Hne Ha Hb Hid Hea Heb.
  set (a2 := set_properties (set_history_time ea
          (Entity.interaction_history ea ++ [i]) (Entity.local_time ea + 1)) pa).
  set (b2 := set_properties (set_history_time eb
          (Entity.interaction_history eb ++ [i]) (Entity.local_time eb + 1)) pb).
  set (a3 := match Entity.reality_model ea with
             | Some g => set_reality_model a2 (perceive_graph [a2; eb] i g)
             | None => a2
             end).
  set (b3 := match Entity.reality_model eb with
             | Some g => set_reality_model b2 (perceive_graph [a3; b2] i g)
             | None => b2
             end).
  assert (core a3 = core a2) as Hcore_a
    by (unfold a3; by destruct (Entity.reality_model ea)).
  assert (core b3 = core b2) as Hcore_b
    by (unfold b3; by destruct (Entity.reality_model eb)).
  assert (tick_participant i a h = (inr tt, <[a := a3]> h)) as Hrun1.
  { apply (tick_participant_graph i a h ea pa Ha Hea); [rewrite Hps; left|].
    rewrite Hps. constructor; [by rewrite lookup_insert_eq|].
    constructor; [by rewrite lookup_insert_ne|constructor]. }
  assert (tick_participant i b (<[a := a3]> h)
          = (inr tt, <[b := b3]> (<[a := a3]> h))) as Hrun2.
  { apply (tick_participant_graph i b _ eb pb); [by rewrite lookup_insert_ne|done| |].
    - rewrite Hps. right. left.
    - rewrite Hps. constructor.
      + rewrite lookup_insert_ne by done. by rewrite lookup_insert_eq.
      + constructor; [by rewrite lookup_insert_eq|constructor]. }
  exists (<[b := b3]> (<[a := a3]> h)), a3, b3. split.
  { unfold effects_loop. simpl. rewrite Hps. simpl.
    unfold bind at 1. unfold bind at 1. rewrite Hrun1.
    unfold bind at 1. by rewrite Hrun2. }
  split; [by rewrite lookup_insert_ne, lookup_insert_eq|].
  split; [by rewrite lookup_insert_eq|].
  injection Hcore_a as _ _ Hta _ Hpa. injection Hcore_b as _ _ Htb _ Hpb.
  repeat (split; [done|]).
  assert (Entity.id a3 = Entity.id ea) as Hida
    by (unfold a3; by destruct (Entity.reality_model ea)).
  split.
  - unfold is_Observer. intros Hobs.
    destruct (Entity.reality_model ea) as [g|] eqn:Hg; [|done].
    destruct (perceive_graph_pair a2 eb i g Hid)
      as ((na & Hna & Hnap & Hnat) & (nb & Hnb & Hnbp & Hnbt)).
    exists (perceive_graph [a2; eb] i g), na, nb. by unfold a3.
  - unfold is_Observer. intros Hobs.
    destruct (Entity.reality_model eb) as [g|] eqn:Hg; [|done].
    destruct (perceive_graph_pair a3 b2 i g)
      as ((na & Hna & Hnap & Hnat) & (nb & Hnb & Hnbp & Hnbt)).
    { by rewrite Hida. }
    rewrite Hida in Hna. rewrite Hpa in Hnap. rewrite Hta in Hnat.
    exists (perceive_graph [a3; b2] i g), na, nb. by unfold b3.
Qed.

(** * The rules that draw *)

(** The world has only drawn random numbers: the runtime and the module
    globals are as before. *)
Definition only_drawn (w w' : World) : Prop :=
  runtime w' = runtime w /\ random_source w' = random_source w /\
  persistent_pair w' = persistent_pair w /\
  persistent_interaction_count w' = persistent_interaction_count w.

#[global] Instance only_drawn_preorder : PreOrder only_drawn.
Proof.
  split.
  - by intros w.
  - intros w1 w2 w3 (? & ? & ? & ?) (? & ? & ? & ?). repeat split; congruence.
Qed.

Lemma randbelow_run n w :
  0 < n -> exists k w', randbelow n w = (inr k, w') /\ k < n /\ only_drawn w w'.
Proof.
  intros Hn. eexists _, _. split; [reflexivity|]. split; [|done].
  apply Nat.mod_upper_bound. lia.
Qed.

Lemma sample_positions_run n w :
  2 <= n ->
  exists j k w', sample_positions n w = (inr (j, k), w') /\
    j < n /\ k < n /\ j <> k /\ only_drawn w w'.
Proof.
  intros Hn. unfold sample_positions.
  destruct (randbelow_run n w) as (j & w1 & Hj & Hjn & Hw1); [lia|].
  destruct (randbelow_run (n - 1) w1) as (k & w2 & Hk & Hkn & Hw2); [lia|].
  exists j, (if k =? j then n - 1 else k), w2.
  unfold bind. rewrite Hj, Hk. split; [done|]. split; [done|].
  split; [|split; [|by etrans]]; destruct (Nat.eqb_spec k j); lia.
Qed.

Lemma random_sample2_run {A} (seq : list A) w :
  2 <= length seq ->
  exists j k a b w', random_sample2 seq w = (inr [a; b], w') /\
    j <> k /\ seq !! j = Some a /\ seq !! k = Some b /\ only_drawn w w'.
Proof.
  intros Hn. unfold random_sample2.
  destruct (sample_positions_run (length seq) w Hn)
    as (j & k & w' & Hrun & Hj & Hk & Hjk & Hw).
  destruct (lookup_lt_is_Some_2 seq j Hj) as [a Ha].
  destruct (lookup_lt_is_Some_2 seq k Hk) as [b Hb].
  exists j, k, a, b, w'. unfold bind. rewrite Hrun. simpl. rewrite Ha, Hb. done.
Qed.

Lemma random_choice_run {A} (first : A) (others : list A) w :
  exists c w', random_choice first others w = (inr c, w') /\
    c ∈ first :: others /\ only_drawn w w'.
Proof.
  unfold random_choice.
  destruct (randbelow_run (S (length others)) w) as (k & w' & Hk & Hlt & Hw); [lia|].
  exists (nth k (first :: others) first), w'. unfold bind. rewrite Hk.
  split; [done|]. split; [|done].
  apply list_elem_of_In, nth_In. simpl. lia.
Qed.

(** An interaction made in the world: the runtime hands out the id and the
    time stamp, the generator and the globals are not touched. *)
Lemma Interaction_init_in_world ps ty md w :
  2 <= length ps ->
  exists i w', lift_runtime (Interaction_init ps ty md) w = (inr i, w') /\
    Interaction.participants i = ps /\ Interaction.interaction_type i = ty /\
    Interaction.metadata i = default ∅ md /\
    Interaction.id i = uuid4_source (runtime w) (uuid4_calls (runtime w)) /\
    Interaction.timestamp i = clock (runtime w) (time_calls (runtime w)) /\
    random_calls w' = random_calls w /\
    persistent_pair w' = persistent_pair w /\
    persistent_interaction_count w' = persistent_interaction_count w.
Proof.
  intros Hlen. unfold lift_runtime, Interaction_init.
  apply Nat.ltb_ge in Hlen. rewrite Hlen.
  eexists _, _. split; [reflexivity|]. simpl. by destruct md.
Qed.

Lemma gravity_rule_two_members_run (ents : list ref) (h : gmap nat Entity) (w : World) :
  2 <= length ents ->
  exists i w' j k a b,
    gravity_rule ents h w = (inr (Some [i]), w') /\
    j <> k /\ ents !! j = Some a /\ ents !! k = Some b /\
    Interaction.participants i = [a; b] /\
    Interaction.interaction_type i = "gravity" /\
    Interaction.metadata i = {["mass_change" := VInt 1]} /\
    persistent_pair w' = persistent_pair w /\
    persistent_interaction_count w' = persistent_interaction_count w.
Proof.
  intros Hge. unfold gravity_rule.
  pose proof Hge as Hge'. apply Nat.ltb_ge in Hge'. rewrite Hge'.
  destruct (random_sample2_run ents w Hge)
    as (j & k & a & b & w1 & Hrun & Hjk & Ha & Hb & _ & _ & Hp1 & Hc1).
  destruct (Interaction_init_in_world [a; b] "gravity"
              (Some {["mass_change" := VInt 1]}) w1)
    as (i & w2 & Hinit & Hps & Hty & Hmd & _ & _ & _ & Hp2 & Hc2); [simpl; lia|].
  exists i, w2, j, k, a, b. unfold bind. rewrite Hrun, Hinit.
  split; [done|]. simpl in Hmd. repeat split; (assumption || congruence).
Qed.

(** X10. [gravity_rule] on a roster of fewer than two members returns
    [None] without drawing anything.  On a larger roster it never raises,
    whatever the roster holds: it returns one "gravity" interaction with
    [mass_change] 1 between the members at two different positions of the
    roster, so between two different entities when no entity is listed
    twice.  The persistent pair and its counter are not touched. *)
Theorem gravity_rule_pairs_two_members (ents : list ref) (h : gmap nat Entity)
    (w : World) :
  (length ents < 2 -> gravity_rule ents h w = (inr None, w)) /\
  (2 <= length ents ->
   exists i w' j k a b,
     gravity_rule ents h w = (inr (Some [i]), w') /\
     j <> k /\ ents !! j = Some a /\ ents !! k = Some b /\
     (NoDup ents -> a <> b) /\
     Interaction.participants i = [a; b] /\
     Interaction.interaction_type i = "gravity" /\
     Interaction.metadata i = {["mass_change" := VInt 1]} /\
     persistent_pair w' = persistent_pair w /\
     persistent_interaction_count w' = persistent_interaction_count w).
Proof.
  split.
  - intros Hlt. unfold gravity_rule. apply Nat.ltb_lt in Hlt. by rewrite Hlt.
  - intros Hge.
    destruct (gravity_rule_two_members_run ents h w Hge)
      as (i & w' & j & k & a & b & Hrun & Hjk & Ha & Hb & Hrest).
    exists i, w', j, k, a, b. repeat (split; [done|]). split; [|done].
    intros Hnd ->. apply Hjk. by eapply NoDup_lookup.
Qed.

(** X11. A universe whose only rule is [gravity_rule], with a roster of two
    or more different entities whose masses are integers or absent: a call
    of [tick] returns one "gravity" interaction between two different
    members of the roster and appends it to the universe's history; the mass
    of these two has grown by exactly 1 (from 0 when absent) and nothing else
    in their properties has changed; every other entity is as it was. *)
Theorem tick_of_gravity_rule (u : Universe World) (h : gmap nat Entity) (w : World) :
  interaction_rules u = [gravity_rule] ->
  NoDup (entities u) -> 2 <= length (entities u) ->
  ready (entities u) h ->
  exists i a b u' h' w',
    tick u h w = (inr [i], (u', h', w')) /\
    a ∈ entities u /\ b ∈ entities u /\ a <> b /\
    Interaction.participants i = [a; b] /\
    interaction_history u' = interaction_history u ++ [i] /\
    (forall r e, h !! r = Some e ->
       exists e', h' !! r = Some e' /\
         ((r = a \/ r = b) ->
          exists m, dict_get (Entity.properties e) "mass" (VInt 0) = VInt m /\
            Entity.properties e' = <["mass" := VInt (m + 1)]> (Entity.properties e)) /\
         (r <> a -> r <> b -> e' = e)).
Proof.
  intros Hrules Hnd Hlen [Hdom Hnum].
  destruct (gravity_rule_two_members_run (entities u) h w Hlen)
    as (i & w' & j & k & a & b & Hrun & Hjk & Ha & Hb & Hps & Hty & Hmd & _ & _).
  assert (a <> b) as Hab by (intros ->; apply Hjk; by eapply NoDup_lookup).
  apply list_elem_of_lookup_2 in Ha, Hb.
  destruct (Hdom a Ha) as [ea Hea]. destruct (Hdom b Hb) as [eb Heb].
  assert (forall e, numeric_properties (Entity.properties e) ->
            exists m, dict_get (Entity.properties e) "mass" (VInt 0) = VInt m /\
              effects_on i (Entity.properties e)
              = inr (<["mass" := VInt (m + 1)]> (Entity.properties e))) as Heff.
  { intros e [Hm _]. destruct (int_or_absent_get _ _ 0 Hm) as [m Hmass].
    exists m. split; [done|]. apply effects_on_gravity; [done..|].
    rewrite Hmd. unfold dict_get. by rewrite lookup_singleton_eq. }
  destruct (Heff ea (Hnum a ea Hea)) as (ma & Hma & Heffa).
  destruct (Heff eb (Hnum b eb Heb)) as (mb & Hmb & Heffb).
  destruct (effects_loop_pair i a b h ea eb _ _ Hps Hab Hea Heb Heffa Heffb)
    as (h' & ea' & eb' & Heffects & Hea' & Heb' & Hpa & Hpb).
  eexists i, a, b, _, h', w'. split.
  { unfold tick. rewrite Hrules. simpl. unfold bind. rewrite Hrun. simpl.
    by rewrite Heffects. }
  repeat (split; [done|]).
  intros r e Hr. destruct (decide (r = a)) as [->|Hra]; [|destruct (decide (r = b)) as [->|Hrb]].
  - exists ea'. split; [done|]. split; [|done]. intros _.
    rewrite Hea in Hr. injection Hr as <-. by exists ma.
  - exists eb'. split; [done|]. split; [|done]. intros _.
    rewrite Heb in Hr. injection Hr as <-. by exists mb.
  - exists e. split; [|split; [by intros [?|?]|done]].
    pose proof (effects_loop_outside [i] h r) as Hout.
    rewrite Heffects in Hout. simpl in Hout. rewrite Hout; [done|].
    intros (i' & ->%list_elem_of_singleton & Hin). rewrite Hps in Hin.
    apply elem_of_cons in Hin as [->|Hin]; [done|].
    by apply list_elem_of_singleton in Hin as ->.
Qed.

(** ** Fusion *)

(** Two entities whose scales are less than 0.05 apart on the loop: the
    test of [fusion_rule], the rounded distance below the double 0.05. *)
Definition close_scales (h : gmap nat Entity) (a b : ref) : Prop :=
  exists xa xb, h !! a = Some xa /\ h !! b = Some xb /\
    (scale_distance (Entity.scale xa) (Entity.scale xb)
     <? 0x1.999999999999ap-5)%float = true.

Lemma fusion_partners_run (h : gmap nat Entity) e1 later acc :
  is_Some (h !! e1) -> (forall r, r ∈ later -> is_Some (h !! r)) ->
  exists l, fusion_partners h e1 later acc = inr (acc ++ l) /\
    forall p, p ∈ l <->
      exists k, later !! k = Some p.2 /\ p.1 = e1 /\ close_scales h e1 p.2.
Proof.
  intros [x1 H1]. revert acc. induction later as [|e2 later IH]; intros acc Hall.
  - exists []. simpl. rewrite app_nil_r. split; [done|].
    intros p. split; [by intros []%elem_of_nil|]. by intros (k & Hk & _).
  - destruct (Hall e2) as [x2 H2]; [left|].
    destruct (IH (if (scale_distance (Entity.scale x1) (Entity.scale x2)
                      <? 0x1.999999999999ap-5)%float
                  then acc ++ [(e1, e2)] else acc)) as (l & Hrun & Hl).
    { intros r Hr. apply Hall. by right. }
    cbn [fusion_partners]. rewrite H1, H2, Hrun.
    assert (close_scales h e1 e2 <->
            (scale_distance (Entity.scale x1) (Entity.scale x2)
             <? 0x1.999999999999ap-5)%float = true) as Hclose.
    { unfold close_scales. split.
      - intros (xa & xb & Ha & Hb & Hlt). rewrite H1 in Ha. rewrite H2 in Hb.
        injection Ha as <-. by injection Hb as <-.
      - intros Hlt. by exists x1, x2. }
    destruct (_ <? _)%float.
    + exists ((e1, e2) :: l). split; [by rewrite <-app_assoc|].
      intros [p1 p2]. rewrite elem_of_cons, Hl. simpl. split.
      * intros [[= -> ->]|(k & Hk & Hp)]; [|by exists (S k)].
        exists 0. repeat split. by apply Hclose.
      * intros ([|k] & Hk & Hp1 & Hp2); [|right; by exists k].
        left. simpl in Hk. injection Hk as Hk. congruence.
    + exists l. split; [done|]. intros [p1 p2]. rewrite Hl. simpl. split.
      * intros (k & Hk & Hp). by exists (S k).
      * intros ([|k] & Hk & Hp1 & Hp2); [|by exists k].
        simpl in Hk. injection Hk as <-. by apply Hclose in Hp2.
Qed.

Lemma fusion_pairs_run (h : gmap nat Entity) ents acc :
  (forall r, r ∈ ents -> is_Some (h !! r)) ->
  exists l, fusion_pairs h ents acc = inr (acc ++ l) /\
    forall p, p ∈ l <->
      exists j k, j < k /\ ents !! j = Some p.1 /\ ents !! k = Some p.2 /\
                  close_scales h p.1 p.2.
Proof.
  revert acc. induction ents as [|e1 later IH]; intros acc Hall.
  - exists []. simpl. rewrite app_nil_r. split; [done|].
    intros p. split; [by intros []%elem_of_nil|]. by intros (j & k & _ & Hj & _).
  - destruct (fusion_partners_run h e1 later acc) as (l1 & Hrun1 & Hl1).
    { apply Hall. left. }
    { intros r Hr. apply Hall. by right. }
    destruct (IH (acc ++ l1)) as (l2 & Hrun2 & Hl2).
    { intros r Hr. apply Hall. by right. }
    exists (l1 ++ l2). simpl. rewrite Hrun1, Hrun2. split; [by rewrite app_assoc|].
    intros [p1 p2]. rewrite elem_of_app, Hl1, Hl2. simpl. split.
    + intros [(k & Hk & -> & Hc)|(j & k & Hjk & Hj & Hk & Hc)].
      * exists 0, (S k). repeat split; [lia|done..].
      * exists (S j), (S k). repeat split; [lia|done..].
    + intros ([|j] & k & Hjk & Hj & Hk & Hc).
      * left. destruct k as [|k]; [lia|]. simpl in Hj, Hk. injection Hj as ->.
        by exists k.
      * right. destruct k as [|k]; [lia|]. exists j, k. repeat split; [lia|done..].
Qed.

(** X12. [fusion_rule] on a roster of entities never raises.  It returns
    [None], without drawing, exactly when no two members at different
    positions have scales less than 0.05 apart on the loop; otherwise it
    returns one "fusion" interaction with [energy_gain] 5 whose participants
    are such a pair, the one that stands earlier in the roster first.  The
    persistent pair and its counter are not touched. *)
Theorem fusion_rule_pairs_close_scales (ents : list ref) (h : gmap nat Entity)
    (w : World) :
  (forall r, r ∈ ents -> is_Some (h !! r)) ->
  (fusion_rule ents h w = (inr None, w) /\
   forall j k a b, j < k -> ents !! j = Some a -> ents !! k = Some b ->
                   ~ close_scales h a b)
  \/ (exists i w' j k a b,
        fusion_rule ents h w = (inr (Some [i]), w') /\
        j < k /\ ents !! j = Some a /\ ents !! k = Some b /\ close_scales h a b /\
        Interaction.participants i = [a; b] /\
        Interaction.interaction_type i = "fusion" /\
        Interaction.metadata i = {["energy_gain" := VInt 5]} /\
        persistent_pair w' = persistent_pair w /\
        persistent_interaction_count w' = persistent_interaction_count w).
Proof.
  intros Hall. unfold fusion_rule.
  destruct (fusion_pairs_run h ents [] Hall) as (l & -> & Hl). simpl.
  destruct l as [|c cs].
  - left. split; [done|]. intros j k a b Hjk Hj Hk Hc.
    apply (elem_of_nil (a, b)), Hl. by exists j, k.
  - right.
    destruct (random_choice_run c cs w) as ([a b] & w1 & Hrun & Hin & _ & _ & Hp1 & Hc1).
    apply Hl in Hin as (j & k & Hjk & Hj & Hk & Hclose). simpl in *.
    destruct (Interaction_init_in_world [a; b] "fusion"
                (Some {["energy_gain" := VInt 5]}) w1)
      as (i & w2 & Hinit & Hps & Hty & Hmd & _ & _ & _ & Hp2 & Hc2); [simpl; lia|].
    exists i, w2, j, k, a, b. unfold bind. rewrite Hrun. cbv beta iota. cbn [fst snd].
    rewrite Hinit.
    split; [done|]. simpl in Hmd. repeat split; (assumption || congruence).
Qed.

(** ** The persistent pair *)

(** Calls of one rule, one after the other, each with a roster of its
    own: the values returned. *)
Fixpoint rule_calls {W} (rule : Rule W) (rosters : list (list ref))
    (h : gmap nat Entity) : M W (list (option (list Interaction))) :=
  match rosters with
  | [] => ret []
  | ents :: rosters' =>
      out <- rule ents h ;;
      outs <- rule_calls rule rosters' h ;;
      ret (out :: outs)
  end.

(** A "persistent_bond" between the participants [pair]. *)
Definition persistent_bond (pair : list ref) (out : option (list Interaction)) : Prop :=
  exists i, out = Some [i] /\ Interaction.participants i = pair /\
    Interaction.interaction_type i = "persistent_bond" /\
    Interaction.metadata i = ∅.

(** One call when the pair has been drawn. *)
Lemma persistent_rule_bonded max_interactions ents (h : gmap nat Entity) w pair :
  2 <= length ents -> persistent_pair w = Some pair -> 2 <= length pair ->
  exists out w',
    persistent_interaction_rule_with max_interactions ents h w = (inr out, w') /\
    persistent_pair w' = Some pair /\
    (if (persistent_interaction_count w <? max_interactions)%Z
     then persistent_bond pair out /\
          persistent_interaction_count w' = (persistent_interaction_count w + 1)%Z
     else out = None /\ w' = w).
Proof.
  intros Hents Hpair Hlen. unfold persistent_interaction_rule_with.
  apply Nat.ltb_ge in Hents. rewrite Hents.
  unfold bind at 1. unfold get at 1. rewrite Hpair.
  unfold bind at 1. unfold ret at 1. unfold bind at 1. unfold get at 1.
  destruct (persistent_interaction_count w <? max_interactions)%Z.
  - unfold bind at 1. unfold put at 1. rewrite Hpair.
    destruct (Interaction_init_in_world pair "persistent_bond" None
                (set_persistent w (Some pair) (persistent_interaction_count w + 1)))
      as (i & w2 & Hinit & Hps & Hty & Hmd & _ & _ & _ & Hp2 & Hc2); [done|].
    exists (Some [i]), w2. unfold bind. simpl default. rewrite Hinit.
    split; [done|]. split; [done|]. split; [by exists i|done].
  - by exists None, w.
Qed.

Lemma persistent_rule_calls_bonded max_interactions rosters (h : gmap nat Entity) w pair :
  Forall (fun ents => 2 <= length ents) rosters ->
  persistent_pair w = Some pair -> 2 <= length pair ->
  exists outs w',
    rule_calls (persistent_interaction_rule_with max_interactions) rosters h w
    = (inr outs, w') /\
    length outs = length rosters /\
    persistent_pair w' = Some pair /\
    persistent_interaction_count w'
    = Z.max (persistent_interaction_count w)
        (Z.min (persistent_interaction_count w + Z.of_nat (length rosters))
               max_interactions) /\
    forall n out, outs !! n = Some out ->
      if (persistent_interaction_count w + Z.of_nat n <? max_interactions)%Z
      then persistent_bond pair out else out = None.
Proof.
  intros Hall. revert w. induction Hall as [|ents rosters Hents _ IH]; intros w Hpair Hlen.
  - exists [], w. repeat split; [done|simpl length; lia|]. by intros n out [=].
  - destruct (persistent_rule_bonded max_interactions ents h w pair Hents Hpair Hlen)
      as (out & w1 & Hrun & Hpair1 & Hout).
    destruct (IH w1 Hpair1 Hlen) as (outs & w2 & Hruns & Hlens & Hpair2 & Hcount & Houts).
    exists (out :: outs), w2. simpl. unfold bind. rewrite Hrun, Hruns.
    split; [done|]. split; [simpl; by rewrite Hlens|]. split; [done|].
    destruct (Z.ltb_spec (persistent_interaction_count w) max_interactions) as [Hlt|Hge].
    + destruct Hout as [Hout Hc1]. rewrite Hc1 in Hcount, Houts. split; [lia|].
      intros [|n] o Ho; simpl in Ho.
      * injection Ho as <-. rewrite Z.add_0_r.
        by assert ((persistent_interaction_count w <? max_interactions)%Z = true) as ->
          by (apply Z.ltb_lt; lia).
      * specialize (Houts n o Ho).
        by replace (persistent_interaction_count w + Z.of_nat (S n))%Z
          with (persistent_interaction_count w + 1 + Z.of_nat n)%Z by lia.
    + destruct Hout as [-> ->]. split; [lia|].
      intros [|n] o Ho; simpl in Ho.
      * injection Ho as <-. rewrite Z.add_0_r.
        by assert ((persistent_interaction_count w <? max_interactions)%Z = false) as ->
          by (apply Z.ltb_ge; lia).
      * specialize (Houts n o Ho).
        assert ((persistent_interaction_count w + Z.of_nat (S n) <? max_interactions)%Z
                = false) as -> by (apply Z.ltb_ge; lia).
        by assert ((persistent_interaction_count w + Z.of_nat n <? max_interactions)%Z
                   = false) as Hf by (apply Z.ltb_ge; lia); rewrite Hf in Houts.
Qed.

(** The first call: the pair is drawn from the roster and the counter is
    set to 0, whatever it held. *)
Lemma persistent_rule_first max_interactions ents (h : gmap nat Entity) w :
  2 <= length ents -> persistent_pair w = None ->
  exists j k a b w0,
    j <> k /\ ents !! j = Some a /\ ents !! k = Some b /\
    persistent_pair w0 = Some [a; b] /\ persistent_interaction_count w0 = 0%Z /\
    persistent_interaction_rule_with max_interactions ents h w
    = persistent_interaction_rule_with max_interactions ents h w0.
Proof.
  intros Hents Hpair.
  destruct (random_sample2_run ents w Hents)
    as (j & k & a & b & w1 & Hrun & Hjk & Ha & Hb & _).
  exists j, k, a, b, (set_persistent w1 (Some [a; b]) 0).
  repeat (split; [done|]).
  unfold persistent_interaction_rule_with.
  apply Nat.ltb_ge in Hents. rewrite Hents.
  unfold bind at 1. unfold get at 1. rewrite Hpair.
  unfold bind at 1. unfold bind at 1. rewrite Hrun.
  unfold bind at 1. unfold get at 1. unfold put at 1.
  unfold bind at 3. unfold get at 2. simpl persistent_pair.
  unfold bind at 3. unfold ret at 3. done.
Qed.

(** X13. [persistent_interaction_rule] keeps its pair in a module global.
    Called again and again with rosters of two members or more, starting
    with no pair, it draws the pair from two different positions of the
    first roster and never again: every call returns, the first
    [max_interactions] calls return one "persistent_bond" interaction
    between that same pair, also when a later roster does not hold the pair
    any more, and every later call returns [None].  The counter ends at the
    number of calls or at [max_interactions], whichever is less. *)
Theorem persistent_rule_bonds_one_pair max_interactions ents rosters
    (h : gmap nat Entity) (w : World) :
  2 <= length ents ->
  Forall (fun ents' => 2 <= length ents') rosters ->
  persistent_pair w = None ->
  exists j k a b outs w',
    j <> k /\ ents !! j = Some a /\ ents !! k = Some b /\
    rule_calls (persistent_interaction_rule_with max_interactions) (ents :: rosters) h w
    = (inr outs, w') /\
    length outs = S (length rosters) /\
    persistent_pair w' = Some [a; b] /\
    persistent_interaction_count w'
    = Z.max 0 (Z.min (Z.of_nat (S (length rosters))) max_interactions) /\
    forall n out, outs !! n = Some out ->
      if (Z.of_nat n <? max_interactions)%Z
      then persistent_bond [a; b] out else out = None.
Proof.
  intros Hents Hall Hpair.
  destruct (persistent_rule_first max_interactions ents h w Hents Hpair)
    as (j & k & a & b & w0 & Hjk & Ha & Hb & Hpair0 & Hcount0 & Hfirst).
  destruct (persistent_rule_calls_bonded max_interactions (ents :: rosters) h w0 [a; b])
    as (outs & w' & Hrun & Hlen & Hpair' & Hcount & Houts);
    [by constructor|done|simpl; lia|].
  exists j, k, a, b, outs, w'. repeat (split; [done|]).
  split; [|split; [done|split; [done|split]]].
  - simpl in *. unfold bind at 1. rewrite Hfirst. exact Hrun.
  - rewrite Hcount, Hcount0. simpl length. lia.
  - intros n out Hn. specialize (Houts n out Hn). by rewrite Hcount0 in Houts.
Qed.

(** * More on group formation *)

(** [counter[k]]: 0 for a key that is missing. *)
Fixpoint counter_get {K} `{EqDecision K} (k : K) (c : list (K * Z)) : Z :=
  match c with
  | [] => 0
  | (k', n) :: c' => if decide (k = k') then n else counter_get k c'
  end.

(** The key under which the first loop counts an interaction: the set of
    the ids of its two participants. *)
Definition pair_key (h : gmap nat Entity) (i : Interaction) : option (uuid * uuid) :=
  match Interaction.participants i with
  | [r1; r2] =>
      match h !! r1, h !! r2 with
      | Some p1, Some p2 => Some (frozenset2 (Entity.id p1) (Entity.id p2))
      | _, _ => None
      end
  | _ => None
  end.

Definition history_of (h : gmap nat Entity) (r : ref) : list Interaction :=
  match h !! r with
  | Some e => Entity.interaction_history e
  | None => []
  end.

(** How often the histories of the roster hold an interaction with the key
    [k]: each member's history is gone through, so an interaction between
    two members is met in both. *)
Definition times_met (h : gmap nat Entity) (ents : list ref) (k : uuid * uuid) : nat :=
  sum_list ((fun r => length (filter (fun i => pair_key h i = Some k) (history_of h r)))
              <$> ents).

(** A counter as the first loop builds it: no key twice, every count at
    least 1, every key a set listed least member first. *)
Definition counter_ok (c : list (uuid * uuid * Z)) : Prop :=
  NoDup c.*1 /\ Forall (fun kn => (1 <= kn.2)%Z /\ (kn.1.1 <= kn.1.2)%N) c.

Lemma counter_get_incr {K} `{EqDecision K} (k k' : K) c :
  counter_get k (counter_incr k' c)
  = (counter_get k c + if decide (k = k') then 1 else 0)%Z.
Proof.
  induction c as [|[k0 n] c IH]; simpl.
  - destruct (decide (k = k')); lia.
  - destruct (decide (k' = k0)) as [->|Hne]; simpl.
    + destruct (decide (k = k0)); lia.
    + destruct (decide (k = k0)) as [->|Hne0]; [|done].
      rewrite decide_False by done. lia.
Qed.

Lemma counter_incr_keys {K} `{EqDecision K} (k : K) c x :
  x ∈ (counter_incr k c).*1 <-> x ∈ c.*1 \/ x = k.
Proof.
  induction c as [|[k0 n] c IH]; simpl.
  - rewrite list_elem_of_singleton. split; [by right|]. by intros [[]%elem_of_nil|].
  - destruct (decide (k = k0)) as [->|Hne]; simpl.
    + rewrite elem_of_cons. split; [by left|]. intros [?| ->]; [done|by left].
    + rewrite !elem_of_cons, IH. tauto.
Qed.

Lemma counter_incr_ok (a b : uuid) c :
  counter_ok c -> counter_ok (counter_incr (frozenset2 a b) c).
Proof.
  unfold counter_ok. set (k := frozenset2 a b).
  assert (k.1 <= k.2)%N as Hk by (unfold k, frozenset2; simpl; lia).
  clearbody k. induction c as [|[k0 n] c IH]; intros [Hnd Hall]; simpl.
  - split; [apply NoDup_singleton|]. repeat constructor; done.
  - apply NoDup_cons in Hnd as [Hk0 Hnd]. apply Forall_cons in Hall as [[Hn Hk0'] Hall].
    destruct (decide (k = k0)) as [->|Hne]; simpl.
    + split; [by apply NoDup_cons|]. apply Forall_cons. simpl in *. split; [split; [lia|done]|done].
    + destruct (IH (conj Hnd Hall)) as [Hnd' Hall']. split.
      * apply NoDup_cons. split; [|done]. rewrite counter_incr_keys.
        intros [?|?]; [done|congruence].
      * by apply Forall_cons.
Qed.

Lemma counter_get_elem {K} `{EqDecision K} (k : K) n c :
  NoDup c.*1 -> (k, n) ∈ c -> counter_get k c = n.
Proof.
  induction c as [|[k0 n0] c IH]; simpl; intros Hnd Hin; [by apply elem_of_nil in Hin|].
  apply NoDup_cons in Hnd as [Hk0 Hnd].
  apply elem_of_cons in Hin as [[= <- <-]|Hin]; [by rewrite decide_True|].
  rewrite decide_False; [by apply IH|].
  intros <-. apply Hk0. by apply (list_elem_of_fmap_2 fst _ (k, n)).
Qed.

Lemma counter_get_positive {K} `{EqDecision K} (k : K) c :
  (0 < counter_get k c)%Z -> (k, counter_get k c) ∈ c.
Proof.
  induction c as [|[k0 n0] c IH]; simpl; [lia|].
  destruct (decide (k = k0)) as [->|Hne]; [left|]. intros Hpos. right. by apply IH.
Qed.

Lemma count_interaction_inr (h : gmap nat Entity) i c c' :
  count_interaction h i c = inr c' ->
  c' = match pair_key h i with
       | Some k => counter_incr k c
       | None => c
       end.
Proof.
  unfold count_interaction, pair_key.
  destruct (Interaction.participants i) as [|r1 [|r2 [|]]]; try by intros [= <-].
  destruct (h !! r1), (h !! r2); try done. by intros [= <-].
Qed.

Lemma count_interaction_counts (h : gmap nat Entity) i c c' k :
  count_interaction h i c = inr c' -> counter_ok c ->
  counter_ok c' /\
  counter_get k c'
  = (counter_get k c + Z.of_nat (length (filter (fun i => pair_key h i = Some k) [i])))%Z.
Proof.
  intros Hrun Hok. apply count_interaction_inr in Hrun as ->.
  rewrite filter_cons, filter_nil.
  destruct (pair_key h i) as [k'|] eqn:Hkey.
  - assert (exists a b, k' = frozenset2 a b) as (a & b & ->).
    { unfold pair_key in Hkey.
      destruct (Interaction.participants i) as [|r1 [|r2 [|]]]; try done.
      destruct (h !! r1), (h !! r2); try done. injection Hkey as <-. by eexists _, _. }
    split; [by apply counter_incr_ok|]. rewrite counter_get_incr.
    destruct (decide (k = frozenset2 a b)) as [->|Hne].
    + by rewrite decide_True.
    + rewrite decide_False by congruence. done.
  - split; [done|]. rewrite decide_False by done. simpl. lia.
Qed.

Lemma count_history_counts (h : gmap nat Entity) hist c c' k :
  count_history h hist c = inr c' -> counter_ok c ->
  counter_ok c' /\
  counter_get k c'
  = (counter_get k c
     + Z.of_nat (length (filter (fun i => pair_key h i = Some k) hist)))%Z.
Proof.
  revert c. induction hist as [|i hist IH]; intros c; simpl.
  - intros [= <-] Hok. split; [done|]. lia.
  - destruct (count_interaction h i c) as [x|c1] eqn:Hi; [done|]. intros Hrun Hok.
    destruct (count_interaction_counts h i c c1 k Hi Hok) as [Hok1 Hget1].
    destruct (IH c1 Hrun Hok1) as [Hok' Hget']. split; [done|].
    rewrite Hget', Hget1. rewrite (filter_cons _ i hist), !filter_cons, filter_nil.
    destruct (decide (pair_key h i = Some k)); simpl; lia.
Qed.

Lemma count_pairs_counts (h : gmap nat Entity) ents c c' k :
  count_pairs h ents c = inr c' -> counter_ok c ->
  counter_ok c' /\
  counter_get k c' = (counter_get k c + Z.of_nat (times_met h ents k))%Z.
Proof.
  unfold times_met. revert c. induction ents as [|r ents IH]; intros c; simpl.
  - intros [= <-] Hok. split; [done|]. lia.
  - unfold history_of at 1. destruct (h !! r) as [e|]; [|done].
    destruct (count_history h _ c) as [x|c1] eqn:Hr; [done|]. intros Hrun Hok.
    destruct (count_history_counts h _ c c1 k Hr Hok) as [Hok1 Hget1].
    destruct (IH c1 Hrun Hok1) as [Hok' Hget']. split; [done|].
    rewrite Hget', Hget1, Nat2Z.inj_add, Z.add_assoc. done.
Qed.

(** The members of the roster and all participants of the interactions in
    their histories are entities. *)
Definition resolved (h : gmap nat Entity) (ents : list ref) : Prop :=
  forall r, r ∈ ents ->
    exists e, h !! r = Some e /\
      forall i p, i ∈ Entity.interaction_history e ->
                  p ∈ Interaction.participants i -> is_Some (h !! p).

Lemma count_history_returns (h : gmap nat Entity) hist c :
  (forall i p, i ∈ hist -> p ∈ Interaction.participants i -> is_Some (h !! p)) ->
  exists c', count_history h hist c = inr c'.
Proof.
  revert c. induction hist as [|i hist IH]; intros c Hall; simpl; [by eexists|].
  assert (exists c1, count_interaction h i c = inr c1) as [c1 ->].
  { unfold count_interaction.
    destruct (Interaction.participants i) as [|r1 [|r2 [|]]] eqn:Hps; try by eexists.
    destruct (Hall i r1) as [p1 ->]; [left|rewrite Hps; left|].
    destruct (Hall i r2) as [p2 ->]; [left|rewrite Hps; right; left|].
    by eexists. }
  apply IH. intros j p Hj. apply Hall. by right.
Qed.

Lemma count_pairs_returns (h : gmap nat Entity) ents c :
  resolved h ents -> exists c', count_pairs h ents c = inr c'.
Proof.
  revert c. induction ents as [|r ents IH]; intros c Hall; simpl; [by eexists|].
  destruct (Hall r) as (e & -> & He); [left|].
  destruct (count_history_returns h (Entity.interaction_history e) c He) as [c1 ->].
  apply IH. intros r' Hr'. apply Hall. by right.
Qed.

(** X14. The first loop of [group_formation_rule] goes through the history
    of every member of the roster.  When the members and the participants
    in their histories are entities it completes, and the counter it leaves
    holds, for every set of two ids, the number of times an interaction
    between two participants with these ids is met in the histories of the
    roster, member by member: an interaction between two members of the
    roster is met in both histories.  No key is held twice and no count is
    below 1. *)
Theorem count_pairs_sums_roster_histories (h : gmap nat Entity) (ents : list ref) :
  resolved h ents ->
  exists counts,
    count_pairs h ents [] = inr counts /\
    NoDup counts.*1 /\
    (forall k n, (k, n) ∈ counts -> (1 <= n)%Z) /\
    forall k, counter_get k counts = Z.of_nat (times_met h ents k).
Proof.
  intros Hres. destruct (count_pairs_returns h ents [] Hres) as [counts Hrun].
  exists counts. split; [done|].
  assert (counter_ok []) as Hok0 by (split; [constructor|constructor]).
  split; [|split].
  - by destruct (count_pairs_counts h ents [] counts (0%N, 0%N) Hrun Hok0) as [[? _] _].
  - intros k n Hin.
    destruct (count_pairs_counts h ents [] counts k Hrun Hok0) as [[_ Hall] _].
    rewrite Forall_forall in Hall. by destruct (Hall _ Hin).
  - intros k. by destruct (count_pairs_counts h ents [] counts k Hrun Hok0) as [_ ->].
Qed.

(** ** What the second loop makes of the counter *)

Lemma find_by_id_Some ents (h : gmap nat Entity) i r :
  find_by_id ents h i = Some r ->
  r ∈ ents /\ exists e, h !! r = Some e /\ Entity.id e = i.
Proof.
  unfold find_by_id. intros Hfind. apply find_some in Hfind as [Hin Hr].
  split; [by apply list_elem_of_In|].
  destruct (h !! r) as [e|]; [|done]. exists e. split; [done|].
  by apply bool_decide_eq_true_1 in Hr.
Qed.

(** A "group_formed" interaction between two members of the roster with
    different ids, for a pair that the counter holds with a count that
    reaches the threshold, carrying a group id that is not [None]. *)
Definition formed (ents : list ref) (h : gmap nat Entity) (threshold : Z)
    (counts : list (uuid * uuid * Z)) (g : Interaction) : Prop :=
  Interaction.interaction_type g = "group_formed" /\
  exists e1 e2 x1 x2 v n,
    Interaction.participants g = [e1; e2] /\
    e1 ∈ ents /\ e2 ∈ ents /\ h !! e1 = Some x1 /\ h !! e2 = Some x2 /\
    Entity.id x1 <> Entity.id x2 /\
    Interaction.metadata g = {["group_id" := v]} /\ v <> VNone /\
    (frozenset2 (Entity.id x1) (Entity.id x2), n) ∈ counts /\ (threshold <= n)%Z.

Lemma formed_mono ents h threshold counts counts' g :
  counts ⊆ counts' -> formed ents h threshold counts g ->
  formed ents h threshold counts' g.
Proof.
  intros Hsub (Hty & e1 & e2 & x1 & x2 & v & n & Hps & H1 & H2 & Hx1 & Hx2 & Hid
               & Hmd & Hv & Hin & Hn).
  split; [done|]. exists e1, e2, x1, x2, v, n. repeat (split; [done|]).
  split; [by apply Hsub|done].
Qed.

Lemma join_group_outcome (h : gmap nat Entity) e1 e2 x1 x2 acc rt :
  h !! e1 = Some x1 -> h !! e2 = Some x2 ->
  exists l rt', join_group h e1 e2 acc rt = (inr (acc ++ l), rt') /\
    (l = [] \/
     exists g v, l = [g] /\
       Interaction.interaction_type g = "group_formed" /\
       Interaction.participants g = [e1; e2] /\
       Interaction.metadata g = {["group_id" := v]} /\ v <> VNone).
Proof.
  intros H1 H2.
  set (g1 := dict_get (Entity.properties x1) "group_id" VNone).
  set (g2 := dict_get (Entity.properties x2) "group_id" VNone).
  destruct (decide ((g1 = VNone /\ g2 = VNone) \/ g1 <> g2)) as [Hcase|Hsame].
  - destruct (join_group_emits h e1 e2 x1 x2 acc rt H1 H2 Hcase)
      as (g & rt' & v & Hrun & Hty & Hps & Hmd & Hv).
    exists [g], rt'. split; [done|]. right. by exists g, v.
  - assert (g1 = g2) as Heq.
    { destruct (decide (g1 = g2)); [done|]. destruct Hsame. by right. }
    assert (g1 <> VNone) as Hnone.
    { intros Hn. apply Hsame. left. split; [done|]. by rewrite <-Heq. }
    exists [], rt. rewrite app_nil_r. split; [|by left].
    by apply (join_group_same h e1 e2 x1 x2).
Qed.

Lemma form_group_outcome ents (h : gmap nat Entity) threshold k n acc rt :
  (k.1 < k.2)%N -> (threshold <= n)%Z ->
  exists l rt', form_group ents h k acc rt = (inr (acc ++ l), rt') /\
    Forall (formed ents h threshold [(k, n)]) l.
Proof.
  intros Hk Hn. unfold form_group.
  rewrite bool_decide_eq_false_2 by lia. unfold bind at 1. unfold get at 1.
  set (ids := if frozenset_order rt k.1 k.2 then (k.1, k.2) else (k.2, k.1)).
  assert (frozenset2 ids.1 ids.2 = k /\ ids.1 <> ids.2) as [Hids Hne].
  { unfold ids, frozenset2. destruct k as [a b]; simpl in *.
    destruct (frozenset_order rt a b); simpl;
      (split; [f_equal; lia|lia]). }
  destruct ids as [e1_id e2_id]. simpl in Hids, Hne.
  destruct (find_by_id ents h e1_id) as [e1|] eqn:F1;
    [|exists [], rt; by rewrite app_nil_r].
  destruct (find_by_id ents h e2_id) as [e2|] eqn:F2;
    [|exists [], rt; by rewrite app_nil_r].
  apply find_by_id_Some in F1 as (Hin1 & x1 & Hx1 & Hid1).
  apply find_by_id_Some in F2 as (Hin2 & x2 & Hx2 & Hid2).
  destruct (join_group_outcome h e1 e2 x1 x2 acc rt Hx1 Hx2)
    as (l & rt' & Hrun & [->|(g & v & -> & Hty & Hps & Hmd & Hv)]).
  - exists [], rt'. by split.
  - exists [g], rt'. split; [done|]. constructor; [|done].
    split; [done|]. exists e1, e2, x1, x2, v, n. repeat (split; [done|]).
    split; [congruence|]. repeat (split; [done|]).
    split; [|done]. rewrite Hid1, Hid2, Hids. left.
Qed.

(** A pair of one id whose count reaches the threshold. *)
Definition self_pair (threshold : Z) (kn : uuid * uuid * Z) : Prop :=
  kn.1.1 = kn.1.2 /\ (threshold <= kn.2)%Z.

#[global] Instance self_pair_dec threshold kn : Decision (self_pair threshold kn).
Proof. unfold self_pair. apply _. Defined.

Lemma form_groups_outcome ents (h : gmap nat Entity) threshold counts acc rt :
  Forall (fun kn => (kn.1.1 <= kn.1.2)%N) counts ->
  exists rt',
    (form_groups ents h threshold counts acc rt
     = (inl (ValueError "not enough values to unpack (expected 2, got 1)"), rt') /\
     Exists (self_pair threshold) counts)
    \/ (exists l,
          form_groups ents h threshold counts acc rt = (inr (acc ++ l), rt') /\
          Forall (fun kn => ~ self_pair threshold kn) counts /\
          Forall (formed ents h threshold counts) l).
Proof.
  intros Hall. revert acc rt.
  induction Hall as [|[k n] counts Hk _ IH]; intros acc rt.
  - exists rt. right. exists []. rewrite app_nil_r. by repeat split.
  - cbn [form_groups]. simpl in Hk.
    assert (forall l, Forall (formed ents h threshold counts) l ->
                      Forall (formed ents h threshold ((k, n) :: counts)) l) as Hweak.
    { intros l Hl. eapply Forall_impl; [exact Hl|]. intros g. apply formed_mono.
      intros x Hx. by right. }
    destruct (Z.leb_spec threshold n) as [Hn|Hn].
    + destruct (decide (k.1 = k.2)) as [Heq|Hne].
      * exists rt. left. unfold bind, form_group.
        rewrite bool_decide_eq_true_2 by done. split; [done|]. by left.
      * destruct (form_group_outcome ents h threshold k n acc rt) as (l1 & rt1 & Hrun & Hl1);
          [lia|done|].
        destruct (IH (acc ++ l1) rt1) as [rt' [[Hrest Hex]|(l & Hrest & Hno & Hl)]].
        -- exists rt'. left. unfold bind. rewrite Hrun. split; [done|]. by right.
        -- exists rt'. right. exists (l1 ++ l). unfold bind. rewrite Hrun, Hrest.
           split; [by rewrite app_assoc|]. split.
           ++ constructor; [|done]. by intros [? _].
           ++ apply Forall_app. split; [|by apply Hweak].
              eapply Forall_impl; [exact Hl1|]. intros g. apply formed_mono.
              intros x ->%list_elem_of_singleton. left.
    + destruct (IH acc rt) as [rt' [[Hrest Hex]|(l & Hrest & Hno & Hl)]].
      * exists rt'. left. split; [done|]. by right.
      * exists rt'. right. exists l. split; [done|]. split; [|by apply Hweak].
        constructor; [|done]. intros [_ Hge]. simpl in Hge. lia.
Qed.

Lemma counter_ok_ordered counts :
  counter_ok counts -> Forall (fun kn => (kn.1.1 <= kn.1.2)%N) counts.
Proof. intros [_ Hall]. eapply Forall_impl; [exact Hall|]. by intros kn [_ ?]. Qed.

(** X15. [group_formation_rule] cannot unpack a pair of one id.  On a
    roster whose members and whose histories' participants are entities the
    rule raises [ValueError] ("not enough values to unpack") exactly when
    the histories of the roster hold, at least once and at least
    [interaction_threshold] times, a binary interaction whose two
    participants have the same id, such as an interaction of an entity with
    itself, which the engine records twice; otherwise it returns a list. *)
Theorem group_formation_rule_fails_on_pair_of_one_id (threshold : Z)
    (ents : list ref) (h : gmap nat Entity) (rt : Runtime) :
  resolved h ents ->
  ((exists x, 0 < times_met h ents (x, x) /\
              (threshold <= Z.of_nat (times_met h ents (x, x)))%Z) ->
   exists rt',
     group_formation_rule_with threshold ents h rt
     = (inl (ValueError "not enough values to unpack (expected 2, got 1)"), rt'))
  /\ ((forall x, 0 < times_met h ents (x, x) ->
                 (Z.of_nat (times_met h ents (x, x)) < threshold)%Z) ->
      exists l rt',
        group_formation_rule_with threshold ents h rt = (inr (Some l), rt')).
Proof.
  intros Hres. destruct (count_pairs_returns h ents [] Hres) as [counts Hrun].
  assert (counter_ok []) as Hok0 by (split; [constructor|constructor]).
  assert (counter_ok counts) as Hok
    by (by destruct (count_pairs_counts h ents [] counts (0%N, 0%N) Hrun Hok0)).
  assert (forall k, counter_get k counts = Z.of_nat (times_met h ents k)) as Hget
    by (intros k; by destruct (count_pairs_counts h ents [] counts k Hrun Hok0) as [_ ->]).
  unfold group_formation_rule_with. rewrite Hrun.
  destruct (form_groups_outcome ents h threshold counts [] rt (counter_ok_ordered _ Hok))
    as [rt' [[Hraise Hex]|(l & Hret & Hno & _)]].
  - split.
    + intros _. exists rt'. unfold bind. by rewrite Hraise.
    + intros Hnone. apply Exists_exists in Hex as ([[a b] n] & Hin & Heq & Hn).
      simpl in Heq, Hn. subst b.
      pose proof (counter_get_elem _ _ _ (proj1 Hok) Hin) as Hn'. rewrite Hget in Hn'.
      destruct Hok as [_ Hpos]. rewrite Forall_forall in Hpos.
      destruct (Hpos _ Hin) as [Hpos1 _]. simpl in Hpos1.
      specialize (Hnone a). lia.
  - split.
    + intros (x & Hpos & Hge). exfalso.
      assert (((x, x), counter_get (x, x) counts) ∈ counts) as Hin
        by (apply counter_get_positive; rewrite Hget; lia).
      rewrite Forall_forall in Hno. apply (Hno _ Hin). split; [done|].
      simpl. by rewrite Hget.
    + intros _. exists l, rt'. unfold bind. by rewrite Hret.
Qed.

(** X16. Whatever [group_formation_rule] returns, it is a list, never
    [None], of "group_formed" interactions, each between two members of
    the roster with different ids that the histories of the roster hold
    together at least [interaction_threshold] times, and each carrying a
    group id that is not [None].  A pair whose partner is not in the roster
    forms no group, however often the two have met. *)
Theorem group_formation_rule_groups_roster_pairs (threshold : Z)
    (ents : list ref) (h : gmap nat Entity) (rt rt' : Runtime) out :
  group_formation_rule_with threshold ents h rt = (inr out, rt') ->
  exists l, out = Some l /\
    forall g, g ∈ l ->
      Interaction.interaction_type g = "group_formed" /\
      exists e1 e2 x1 x2 v,
        Interaction.participants g = [e1; e2] /\
        e1 ∈ ents /\ e2 ∈ ents /\ h !! e1 = Some x1 /\ h !! e2 = Some x2 /\
        Entity.id x1 <> Entity.id x2 /\
        Interaction.metadata g = {["group_id" := v]} /\ v <> VNone /\
        (threshold
         <= Z.of_nat (times_met h ents (frozenset2 (Entity.id x1) (Entity.id x2))))%Z.
Proof.
  unfold group_formation_rule_with.
  destruct (count_pairs h ents []) as [x|counts] eqn:Hrun; [done|].
  assert (counter_ok []) as Hok0 by (split; [constructor|constructor]).
  assert (counter_ok counts) as Hok
    by (by destruct (count_pairs_counts h ents [] counts (0%N, 0%N) Hrun Hok0)).
  assert (forall k, counter_get k counts = Z.of_nat (times_met h ents k)) as Hget
    by (intros k; by destruct (count_pairs_counts h ents [] counts k Hrun Hok0) as [_ ->]).
  destruct (form_groups_outcome ents h threshold counts [] rt (counter_ok_ordered _ Hok))
    as [rt1 [[Hraise _]|(l & Hret & _ & Hl)]]; unfold bind.
  - by rewrite Hraise.
  - rewrite Hret. intros [= <- <-]. exists l. split; [done|]. intros g Hg.
    rewrite Forall_forall in Hl.
    destruct (Hl g Hg) as (Hty & e1 & e2 & x1 & x2 & v & n & Hps & H1 & H2 & Hx1 & Hx2
                           & Hid & Hmd & Hv & Hin & Hn).
    split; [done|]. exists e1, e2, x1, x2, v.
    repeat (split; [done|]).
    rewrite <-Hget, (counter_get_elem _ _ _ (proj1 Hok) Hin). done.
Qed.

(** * A universe of the rules of the module *)

(** The rules of the module that are embedded, with any bound and any
    threshold. *)
Definition known_rule (rule : Rule World) : Prop :=
  rule = gravity_rule \/ rule = fusion_rule \/
  (exists max_interactions, rule = persistent_interaction_rule_with max_interactions) \/
  (exists threshold, rule = in_world (group_formation_rule_with threshold)).

(** An interaction between two different members of [ents] that changes
    masses and energies by integers, if at all. *)
Definition pairs_members (ents : list ref) (i : Interaction) : Prop :=
  (exists a b, Interaction.participants i = [a; b] /\ a <> b /\ a ∈ ents /\ b ∈ ents) /\
  numeric_metadata i.

(** The pair the persistent rule holds, if any, is two different members
    of the roster. *)
Definition pair_of_roster (ents : list ref) (w : World) : Prop :=
  forall p, persistent_pair w = Some p ->
    exists a b, p = [a; b] /\ a <> b /\ a ∈ ents /\ b ∈ ents.

(** What the rules and the engine keep: the roster lists no entity twice
    and its members are entities; masses and energies are integers; no two
    entities share an id; the histories hold interactions between two
    different entities only. *)
Definition settled (ents : list ref) (h : gmap nat Entity) : Prop :=
  NoDup ents /\ ready ents h /\
  (forall r1 r2 e1 e2, h !! r1 = Some e1 -> h !! r2 = Some e2 ->
     Entity.id e1 = Entity.id e2 -> r1 = r2) /\
  (forall r e i, h !! r = Some e -> i ∈ Entity.interaction_history e ->
     exists a b, Interaction.participants i = [a; b] /\ a <> b /\
                 is_Some (h !! a) /\ is_Some (h !! b)).

Lemma settled_resolved ents h : settled ents h -> resolved h ents.
Proof.
  intros (_ & [Hdom _] & _ & Hhist) r Hr. destruct (Hdom r Hr) as [e He].
  exists e. split; [done|]. intros i p Hi Hp.
  destruct (Hhist r e i He Hi) as (a & b & Hps & _ & Ha & Hb).
  rewrite Hps in Hp. apply elem_of_cons in Hp as [->|Hp]; [done|].
  by apply list_elem_of_singleton in Hp as ->.
Qed.

Lemma filter_none {A} (P : A -> Prop) `{!forall x, Decision (P x)} (l : list A) :
  (forall x, x ∈ l -> ~ P x) -> filter P l = [].
Proof.
  intros Hnone. destruct (filter P l) as [|x l'] eqn:Hf; [done|].
  assert (x ∈ filter P l) as Hx by (rewrite Hf; left).
  apply list_elem_of_filter in Hx as [HP Hin]. by destruct (Hnone x Hin).
Qed.

Lemma settled_no_pair_of_one_id ents h x :
  settled ents h -> times_met h ents (x, x) = 0.
Proof.
  intros (_ & [Hdom _] & Hids & Hhist). unfold times_met.
  assert (forall r, r ∈ ents ->
            length (filter (fun i => pair_key h i = Some (x, x)) (history_of h r)) = 0)
    as Hzero.
  { intros r Hr. destruct (Hdom r Hr) as [e He]. unfold history_of. rewrite He.
    rewrite filter_none; [done|]. intros i Hi Hkey.
    destruct (Hhist r e i He Hi) as (a & b & Hps & Hab & [ea Ha] & [eb Hb]).
    unfold pair_key in Hkey. rewrite Hps, Ha, Hb in Hkey.
    injection Hkey as Hmin Hmax. apply Hab, (Hids a b ea eb Ha Hb). lia. }
  clear Hdom. induction ents as [|r ents IH]; [done|]. simpl.
  rewrite Hzero by left. apply IH. intros r' Hr'. apply Hzero. by right.
Qed.

(** What every rule of the module does on a settled roster: it returns, and
    what it returns are interactions between two different members. *)
Definition behaves (ents : list ref) (h : gmap nat Entity) (rule : Rule World) : Prop :=
  forall w, pair_of_roster ents w ->
    exists out w', rule ents h w = (inr out, w') /\ pair_of_roster ents w' /\
      Forall (pairs_members ents) (output out).

Lemma pair_of_roster_same ents w w' :
  persistent_pair w' = persistent_pair w -> pair_of_roster ents w ->
  pair_of_roster ents w'.
Proof. unfold pair_of_roster. by intros ->. Qed.

Lemma numeric_metadata_singleton i k v :
  Interaction.metadata i = {[k := v]} -> (exists n, v = VInt n) \/ k = "group_id" ->
  numeric_metadata i.
Proof.
  intros Hmd Hv. unfold numeric_metadata, int_or_absent. rewrite Hmd.
  split.
  - destruct (decide (k = "mass_change")) as [->|Hne].
    + rewrite lookup_singleton_eq. by destruct Hv as [[n ->]|?].
    + by rewrite lookup_singleton_ne.
  - destruct (decide (k = "energy_gain")) as [->|Hne].
    + rewrite lookup_singleton_eq. by destruct Hv as [[n ->]|?].
    + by rewrite lookup_singleton_ne.
Qed.

Lemma gravity_rule_behaves ents h : settled ents h -> behaves ents h gravity_rule.
Proof.
  intros (Hnd & _) w Hw. destruct (decide (length ents < 2)) as [Hlt|Hge].
  - exists None, w. unfold gravity_rule. apply Nat.ltb_lt in Hlt. rewrite Hlt.
    by repeat split.
  - destruct (gravity_rule_two_members_run ents h w)
      as (i & w' & j & k & a & b & Hrun & Hjk & Ha & Hb & Hps & Hty & Hmd & Hp & _);
      [lia|].
    exists (Some [i]), w'. split; [done|]. split; [by apply (pair_of_roster_same _ w)|].
    constructor; [|done]. split.
    + exists a, b. split; [done|]. split.
      * intros ->. apply Hjk. by eapply NoDup_lookup.
      * split; by eapply list_elem_of_lookup_2.
    + apply (numeric_metadata_singleton i _ _ Hmd). left. by eexists.
Qed.

Lemma fusion_rule_behaves ents h : settled ents h -> behaves ents h fusion_rule.
Proof.
  intros (Hnd & [Hdom _] & _) w Hw. unfold fusion_rule.
  destruct (fusion_pairs_run h ents [] Hdom) as (l & -> & Hl). simpl.
  destruct l as [|c cs].
  - exists None, w. by repeat split.
  - destruct (random_choice_run c cs w) as ([a b] & w1 & Hrun & Hin & _ & _ & Hp1 & _).
    apply Hl in Hin as (j & k & Hjk & Hj & Hk & _). simpl in *.
    destruct (Interaction_init_in_world [a; b] "fusion"
                (Some {["energy_gain" := VInt 5]}) w1)
      as (i & w2 & Hinit & Hps & Hty & Hmd & _ & _ & _ & Hp2 & _); [simpl; lia|].
    exists (Some [i]), w2. unfold bind. rewrite Hrun. cbv beta iota. cbn [fst snd].
    rewrite Hinit. split; [done|].
    split; [apply (pair_of_roster_same _ w); [congruence|done]|].
    constructor; [|done]. split.
    + exists a, b. split; [done|]. split.
      * intros ->. assert (j = k) by (by eapply NoDup_lookup). lia.
      * split; by eapply list_elem_of_lookup_2.
    + apply (numeric_metadata_singleton i _ _ Hmd). left. by eexists.
Qed.

Lemma persistent_rule_behaves max_interactions ents h :
  settled ents h -> behaves ents h (persistent_interaction_rule_with max_interactions).
Proof.
  intros (Hnd & _) w Hw. destruct (decide (length ents < 2)) as [Hlt|Hge].
  { exists None, w. unfold persistent_interaction_rule_with.
    apply Nat.ltb_lt in Hlt. rewrite Hlt. by repeat split. }
  assert (exists w0 a b, persistent_pair w0 = Some [a; b] /\ a <> b /\
            a ∈ ents /\ b ∈ ents /\
            persistent_interaction_rule_with max_interactions ents h w
            = persistent_interaction_rule_with max_interactions ents h w0)
    as (w0 & a & b & Hpair & Hab & Ha & Hb & ->).
  { destruct (persistent_pair w) as [p|] eqn:Hp.
    - destruct (Hw p Hp) as (a & b & -> & Hab & Ha & Hb). by exists w, a, b.
    - destruct (persistent_rule_first max_interactions ents h w)
        as (j & k & a & b & w0 & Hjk & Ha & Hb & Hpair & _ & Hfirst); [lia|done|].
      exists w0, a, b. split; [done|]. split.
      + intros ->. apply Hjk. by eapply NoDup_lookup.
      + repeat split; [by eapply list_elem_of_lookup_2..|done]. }
  destruct (persistent_rule_bonded max_interactions ents h w0 [a; b])
    as (out & w' & Hrun & Hpair' & Hout); [lia|done|simpl; lia|].
  exists out, w'. split; [done|]. split.
  { intros p. rewrite Hpair'. intros [= <-]. by exists a, b. }
  destruct (persistent_interaction_count w0 <? max_interactions)%Z.
  - destruct Hout as [(i & -> & Hps & Hty & Hmd) _]. constructor; [|done]. split.
    + by exists a, b.
    + unfold numeric_metadata, int_or_absent. by rewrite Hmd, !lookup_empty.
  - destruct Hout as [-> _]. constructor.
Qed.

Lemma group_formation_rule_behaves threshold ents h :
  settled ents h -> behaves ents h (in_world (group_formation_rule_with threshold)).
Proof.
  intros Hs w Hw. unfold in_world, lift_runtime, group_formation_rule_with.
  destruct (count_pairs_returns h ents [] (settled_resolved _ _ Hs)) as [counts Hrun].
  assert (counter_ok []) as Hok0 by (split; [constructor|constructor]).
  assert (counter_ok counts) as Hok
    by (by destruct (count_pairs_counts h ents [] counts (0%N, 0%N) Hrun Hok0)).
  assert (forall k, counter_get k counts = Z.of_nat (times_met h ents k)) as Hget
    by (intros k; by destruct (count_pairs_counts h ents [] counts k Hrun Hok0) as [_ ->]).
  rewrite Hrun.
  destruct (form_groups_outcome ents h threshold counts [] (runtime w)
              (counter_ok_ordered _ Hok))
    as [rt' [[_ Hex]|(l & Hret & _ & Hl)]].
  - exfalso. apply Exists_exists in Hex as ([[a b] n] & Hin & Heq & _).
    simpl in Heq. subst b.
    pose proof (counter_get_elem _ _ _ (proj1 Hok) Hin) as Hn. rewrite Hget in Hn.
    rewrite (settled_no_pair_of_one_id ents h a Hs) in Hn.
    destruct Hok as [_ Hpos]. rewrite Forall_forall in Hpos.
    destruct (Hpos _ Hin) as [Hpos1 _]. simpl in Hpos1. lia.
  - unfold bind. rewrite Hret. simpl.
    eexists (Some l), _. split; [done|]. split; [done|]. simpl.
    eapply Forall_impl; [exact Hl|].
    intros g (Hty & e1 & e2 & x1 & x2 & v & n & Hps & H1 & H2 & Hx1 & Hx2 & Hid
              & Hmd & _).
    split.
    + exists e1, e2. split; [done|]. split; [|done]. intros ->.
      rewrite Hx1 in Hx2. by injection Hx2 as ->.
    + apply (numeric_metadata_singleton g _ _ Hmd). by right.
Qed.

Lemma known_rule_behaves ents h rule :
  settled ents h -> known_rule rule -> behaves ents h rule.
Proof.
  intros Hs [->|[->|[[m ->]|[t ->]]]].
  - by apply gravity_rule_behaves.
  - by apply fusion_rule_behaves.
  - by apply persistent_rule_behaves.
  - by apply group_formation_rule_behaves.
Qed.

Lemma rules_called_behaving ents h rules w :
  Forall (behaves ents h) rules -> pair_of_roster ents w ->
  exists outs w', rules_called ents h rules w outs w' /\ pair_of_roster ents w' /\
    Forall (pairs_members ents) (concat (map output outs)).
Proof.
  intros Hall. revert w. induction Hall as [|rule rules Hrule _ IH]; intros w Hw.
  - exists [], w. split; [constructor|]. by split.
  - destruct (Hrule w Hw) as (out & w1 & Hrun & Hw1 & Hout).
    destruct (IH w1 Hw1) as (outs & w' & Hcalled & Hw' & Houts).
    exists (out :: outs), w'. split; [by econstructor|]. split; [done|].
    simpl. by apply Forall_app.
Qed.

(** X17. A universe that runs rules of the module ([gravity_rule],
    [fusion_rule], [persistent_interaction_rule], [group_formation_rule],
    in any number and order) never fails in [tick], and this for every tick
    to come: if the roster lists no entity twice, its members are entities
    with ids of their own and integer masses and energies, the histories
    hold interactions between two different entities only and the
    persistent pair, if drawn, is of the roster, then the call returns,
    every interaction it returns is between two different members of the
    roster, and the same conditions hold for the universe, the store and
    the world it leaves. *)
Theorem tick_of_known_rules_returns (u : Universe World) (h : gmap nat Entity)
    (w : World) :
  Forall known_rule (interaction_rules u) ->
  settled (entities u) h -> pair_of_roster (entities u) w ->
  exists new u' h' w',
    tick u h w = (inr new, (u', h', w')) /\
    Forall (pairs_members (entities u)) new /\
    entities u' = entities u /\ interaction_rules u' = interaction_rules u /\
    settled (entities u') h' /\ pair_of_roster (entities u') w'.
Proof.
  intros Hrules Hs Hw.
  destruct (rules_called_behaving (entities u) h (interaction_rules u) w)
    as (outs & w' & Hcalled & Hw' & Hnew); [|done|].
  { eapply Forall_impl; [exact Hrules|]. intros rule. by apply known_rule_behaves. }
  set (new := concat (map output outs)) in *.
  pose proof Hs as (Hnd & Hready & Hids & Hhist).
  rewrite Forall_forall in Hnew.
  destruct (effects_loop_returns new (entities u) h) as (h' & Heff & Hready'); [|done|].
  { intros i Hi. destruct (Hnew i Hi) as [(a & b & Hps & _ & Ha & Hb) Hmd].
    split; [done|]. intros q. rewrite Hps.
    intros [->|[->|[]%elem_of_nil]%elem_of_cons]%elem_of_cons; done. }
  pose proof (effects_loop_advanced new h) as Hadv. rewrite Heff in Hadv. simpl in Hadv.
  eexists new, _, h', w'. split.
  { unfold tick. rewrite (rules_called_rule_loop _ _ _ [] _ _ _ Hcalled). simpl.
    fold new. by rewrite Heff. }
  split; [by apply Forall_forall|]. split; [done|]. split; [done|].
  split; [|done]. simpl.
  assert (forall r e', h' !! r = Some e' ->
            exists e, h !! r = Some e /\ advanced new e e') as Hback.
  { intros r e' Hr'. specialize (Hadv r). rewrite Hr' in Hadv.
    inversion Hadv as [e e1 He|]; subst. by exists e. }
  assert (forall r, is_Some (h !! r) -> is_Some (h' !! r)) as Hstays.
  { intros r [e He]. destruct (entitywise_lookup _ _ _ r e Hadv He) as (e' & He' & _).
    by exists e'. }
  split; [done|]. split; [done|]. split.
  - intros r1 r2 e1' e2' H1 H2 Hid.
    destruct (Hback r1 e1' H1) as (e1 & He1 & Hid1 & _).
    destruct (Hback r2 e2' H2) as (e2 & He2 & Hid2 & _).
    apply (Hids r1 r2 e1 e2 He1 He2). congruence.
  - intros r e' i Hr' Hi.
    destruct (Hback r e' Hr') as (e & He & _ & _ & _ & l & Hl & Hh & _).
    rewrite Hh in Hi. apply elem_of_app in Hi as [Hi|Hi].
    + destruct (Hhist r e i He Hi) as (a & b & Hps & Hab & Ha & Hb).
      exists a, b. repeat split; auto.
    + destruct (Hnew i (Hl i Hi)) as [(a & b & Hps & Hab & Ha & Hb) _].
      exists a, b. destruct Hready as [Hdom _]. repeat split; auto.
Qed.

(** ** Doubles that are no scales *)

Lemma float_sub_nan_l (y : float) : (nan - y)%float = nan.
Proof.
  apply Prim2SF_inj. rewrite sub_spec.
  change (Prim2SF nan) with S754_nan. by destruct (Prim2SF y).
Qed.

Lemma float_sub_infinity_l (y : float) :
  (0 <=? y)%float = true -> (y <=? 1)%float = true ->
  (infinity - y)%float = infinity.
Proof.
  intros H0 H1. apply Prim2SF_inj. rewrite sub_spec.
  rewrite leb_spec in H0, H1.
  change (Prim2SF infinity) with (S754_infinity false).
  destruct (Prim2SF y) as [s|s| |s m e] eqn:E; try done.
  destruct s; [discriminate H0|discriminate H1].
Qed.

(** X18. On IEEE 754 doubles, as Python computes it, [scale_distance] is
    symmetric for all arguments, gives 0 for equal scales of the unit
    interval, gives NaN when its first argument is NaN, and gives minus
    infinity, not a distance, between an infinite scale and a scale of the
    unit interval. *)
Theorem scale_distance_float_on_all_doubles :
  (forall x y : float, scale_distance x y = scale_distance y x) /\
  (forall x : float, (0 <=? x)%float = true -> (x <=? 1)%float = true ->
     scale_distance x x = 0%float) /\
  (forall y : float, scale_distance nan y = nan) /\
  (forall y : float, (0 <=? y)%float = true -> (y <=? 1)%float = true ->
     scale_distance infinity y = neg_infinity).
Proof.
  split; [|split; [|split]].
  - intros x y. unfold scale_distance. by rewrite (abs_sub_comm x y).
  - apply scale_distance_equal.
  - intros y. unfold scale_distance. rewrite float_sub_nan_l.
    vm_compute. reflexivity.
  - intros y H0 H1. unfold scale_distance.
    rewrite (float_sub_infinity_l y H0 H1). vm_compute. reflexivity.
Qed.

(** * The theorems at work on the scenarios *)

Lemma three_entities_ready : ready [1; 2; 3] three_entities.
Proof.
  split.
  - intros p [->|[->|[->|[]%elem_of_nil]%elem_of_cons]%elem_of_cons]%elem_of_cons;
      by eexists.
  - intros r e Hr. unfold three_entities in Hr.
    repeat (apply lookup_insert_Some in Hr as [[_ <-]|[_ Hr]]; [by split|]).
    by rewrite lookup_empty in Hr.
Defined.

Lemma tick_runs_rules_then_records_witness :
  tick test_universe three_entities runtime0
  = (inr [bond],
     (mkUniverse [1; 2; 3] (interaction_rules test_universe) [bond],
      bonded_once,
      mkRuntime (uuid4_source runtime0) 1 (clock runtime0) 1
                (frozenset_order runtime0)))
  /\ (exists outs,
        length outs = 2 /\ [bond] = concat (map output outs) /\
        forall r e, three_entities !! r = Some e ->
          exists e', bonded_once !! r = Some e' /\
            Entity.interaction_history e' =
              Entity.interaction_history e ++ occurrences r [bond])
  /\ ready [1; 2; 3] three_entities
  /\ exists u' h' w',
       tick test_universe three_entities runtime0 = (inr [bond], (u', h', w')).
Proof.
  assert (tick test_universe three_entities runtime0
          = (inr [bond],
             (mkUniverse [1; 2; 3] (interaction_rules test_universe) [bond],
              bonded_once,
              mkRuntime (uuid4_source runtime0) 1 (clock runtime0) 1
                        (frozenset_order runtime0)))) as Htick
    by (vm_compute; reflexivity).
  destruct (tick_runs_rules_then_records test_universe three_entities runtime0)
    as [Hdone Hreturns].
  split; [exact Htick|]. split; [|split; [exact three_entities_ready|]].
  - destruct (Hdone _ _ _ _ Htick) as (outs & _ & Hlen & Hnew & _ & _ & _ & Hrec).
    exists outs. split; [exact Hlen|]. split; [exact Hnew|].
    intros r e He. destruct (Hrec r e He) as (e' & He' & Hh & _). by exists e'.
  - destruct (Hreturns [Some [bond]; Some []]
                (mkRuntime (uuid4_source runtime0) 1 (clock runtime0) 1
                           (frozenset_order runtime0)) [1; 2; 3])
      as (u' & h' & Hrun).
    + apply (rules_called_cons _ _ _ _ _ (Some [bond])
               (mkRuntime (uuid4_source runtime0) 1 (clock runtime0) 1
                          (frozenset_order runtime0))); [vm_compute; reflexivity|].
      apply (rules_called_cons _ _ _ _ _ (Some [])
               (mkRuntime (uuid4_source runtime0) 1 (clock runtime0) 1
                          (frozenset_order runtime0))); [vm_compute; reflexivity|].
      apply rules_called_nil.
    + intros i Hi. simpl in Hi. apply list_elem_of_singleton in Hi as ->.
      split; [by split|]. intros q Hq. simpl in Hq.
      apply elem_of_cons in Hq as [->|Hq]; [by_evaluation_in|].
      apply list_elem_of_singleton in Hq as ->. by_evaluation_in.
    + exact three_entities_ready.
    + by eexists u', h', _.
Defined.

Lemma tick_leaves_non_participants_witness :
  ~ participates (produced test_universe three_entities runtime0) 3 /\
  (tick test_universe three_entities runtime0).2.1.2 !! 3 = three_entities !! 3.
Proof.
  assert (~ participates (produced test_universe three_entities runtime0) 3) as Hnot.
  { intros (i & Hi & Hin).
    assert (produced test_universe three_entities runtime0 = [bond]) as Hp
      by (vm_compute; reflexivity).
    rewrite Hp in Hi. apply list_elem_of_singleton in Hi as ->.
    revert Hin. by_evaluation_not. }
  split; [exact Hnot|].
  apply (tick_leaves_non_participants test_universe three_entities runtime0
           (tick test_universe three_entities runtime0).1
           (tick test_universe three_entities runtime0).2.1.1
           (tick test_universe three_entities runtime0).2.1.2
           (tick test_universe three_entities runtime0).2.2 3);
    [|exact Hnot].
  by destruct (tick test_universe three_entities runtime0) as [res [[u' h'] w']].
Defined.

Lemma group_formation_counts_each_interaction_twice_witness :
  bonded_once !! 1 = Some (Entity.mk 101 [bond] 1 0.25%float ∅ None) /\
  length [bond] = 1 /\
  count_pairs bonded_once [1; 2] [] = inr [(frozenset2 101 102, 2%Z)] /\
  exists g rt' v,
    group_formation_rule [1; 2] bonded_once runtime0 = (inr (Some [g]), rt') /\
    Interaction.interaction_type g = "group_formed" /\ v <> VNone /\
    exists h' ea' eb',
      effects_loop [g] bonded_once = (inr tt, h') /\
      h' !! 1 = Some ea' /\ h' !! 2 = Some eb' /\
      Entity.properties ea' !! "group_id" = Some v /\
      Entity.properties eb' !! "group_id" = Some v.
Proof.
  split; [reflexivity|]. split; [reflexivity|].
  destruct (group_formation_counts_each_interaction_twice bonded_once 1 2
              (Entity.mk 101 [bond] 1 0.25%float ∅ None)
              (Entity.mk 102 [bond] 1 0.75%float ∅ None) bond [] runtime0)
    as (Hcount & _ & Hemit).
  - reflexivity.
  - reflexivity.
  - discriminate.
  - reflexivity.
  - reflexivity.
  - left. reflexivity.
  - constructor.
  - split; [exact Hcount|].
    destruct Hemit as (g & rt' & v & Hrun & Hty & _ & _ & Hv & Heff);
      [left; split; reflexivity|].
    exists g, rt', v. split; [exact Hrun|]. split; [exact Hty|]. split; [exact Hv|].
    exact Heff.
Defined.

Lemma apply_effects_by_interaction_type_witness :
  three_entities !! 1 = Some (Entity_init 101 0.25%float) /\
  apply_effects gravity2 1 three_entities
  = (inr tt, <[1 := set_properties (Entity_init 101 0.25%float)
                      (<["mass" := VInt (0 + 2)]> ∅)]> three_entities) /\
  apply_effects bond 1 three_entities = (inr tt, three_entities) /\
  exists h' e' eb',
    effects_loop [gravity2] three_entities = (inr tt, h') /\
    h' !! 1 = Some e' /\ h' !! 2 = Some eb' /\
    Entity.properties e' = {["mass" := VInt 2]} /\
    Entity.properties eb' = {["mass" := VInt 2]}.
Proof.
  split; [reflexivity|].
  destruct (apply_effects_by_interaction_type gravity2 1 three_entities
              (Entity_init 101 0.25%float) eq_refl) as (Hgravity & _ & _ & _ & Hengine).
  destruct (apply_effects_by_interaction_type bond 1 three_entities
              (Entity_init 101 0.25%float) eq_refl) as (_ & _ & _ & Hother & _).
  split; [apply Hgravity; reflexivity|].
  split; [apply Hother; discriminate|].
  destruct (Hengine 2 (Entity_init 102 0.75%float) 0%Z 0%Z)
    as (h' & e' & eb' & Hrun & H1 & H2 & Hp1 & Hp2);
    [reflexivity|reflexivity|reflexivity|discriminate|reflexivity|reflexivity
    |reflexivity|].
  exists h', e', eb'. repeat split; assumption.
Defined.

Lemma Interaction_init_needs_two_participants_witness :
  (length [1] < 2) /\
  (Interaction_init [1] "generic" None runtime0
   = (inl (ValueError "Interaction requires at least two participants."), runtime0))
  /\ (2 <= length [1; 2]) /\
  (exists i rt',
     Interaction_init [1; 2] "generic" None runtime0 = (inr i, rt') /\
     Interaction.participants i = [1; 2]) /\
  tick (mkUniverse [1; 2; 3] [lonely_rule] []) three_entities runtime0
  = (inl (ValueError "Interaction requires at least two participants."),
     (mkUniverse [1; 2; 3] [lonely_rule] [], three_entities, runtime0)).
Proof.
  destruct (Interaction_init_needs_two_participants [1] "generic" None runtime0)
    as (Hfew & _ & Htick).
  destruct (Interaction_init_needs_two_participants [1; 2] "generic" None runtime0)
    as (_ & Htwo & _).
  split; [simpl; lia|]. split; [apply Hfew; simpl; lia|]. split; [simpl; lia|].
  split.
  - destruct Htwo as (i & rt' & Hrun & Hps & _); [simpl; lia|].
    by exists i, rt'.
  - apply Htick. reflexivity.
Defined.

Lemma perceive_signal_only_own_interactions_witness :
  (0 ∉ Interaction.participants foreign_signal) /\
  Observer.perceive_signal 0 foreign_signal observed_world = (inr tt, observed_world) /\
  exists res h' o' g',
    for_each [first_signal; foreign_signal] (Observer.perceive_signal 0) observed_world
    = (res, h') /\
    h' !! 0 = Some o' /\ Entity.reality_model o' = Some g' /\
    graph_from_seen 0 observed_world MultiDiGraph.empty
      [first_signal; foreign_signal] g'.
Proof.
  assert (0 ∉ Interaction.participants foreign_signal) as Hnot by by_evaluation_not.
  destruct perceive_signal_only_own_interactions as [Hforeign Horigin].
  split; [exact Hnot|]. split; [by apply Hforeign|].
  eexists _, _, _, _.
  split; [vm_compute; reflexivity|]. split; [vm_compute; reflexivity|].
  split; [reflexivity|].
  eapply (Horigin 0 [first_signal; foreign_signal] observed_world the_observer
            MultiDiGraph.empty); [reflexivity|reflexivity| | |];
    [vm_compute; reflexivity|vm_compute; reflexivity|reflexivity].
Defined.


Lemma perceive_signal_again_keeps_edges_witness :
  exists h1 o1 g1 h2 g2,
    Observer.perceive_signal 0 first_signal observed_world = (inr tt, h1) /\
    h1 !! 0 = Some o1 /\ Entity.reality_model o1 = Some g1 /\
    h2 = <[1 := first_entity_later]> h1 /\
    Observer.perceive_signal 0 first_signal h2
    = (inr tt, <[0 := set_reality_model o1 g2]> h2) /\
    MultiDiGraph.edges g2 = MultiDiGraph.edges g1 /\
    MultiDiGraph.edges g2 !! (100%N, 101%N, 1%N)
    = Some (MultiDiGraph.mk_edge "type_A" 1 ∅) /\
    MultiDiGraph.edges g2 !! (101%N, 100%N, 1%N)
    = Some (MultiDiGraph.mk_edge "type_A" 1 ∅) /\
    (forall u v d, MultiDiGraph.edges g2 !! (u, v, 1%N) = Some d ->
                   (u, v) = (100%N, 101%N) \/ (u, v) = (101%N, 100%N)) /\
    MultiDiGraph.number_of_edges g2 = 2 /\
    MultiDiGraph.nodes g2 !! 101%N
    = Some (MultiDiGraph.mk_node (Some (Entity.properties first_entity_later))
              (Some 0x1.999999999999ap-4%float) (Some 1%Z)).
Proof.
  pose (g1 := perceive_graph [the_observer; first_entity] first_signal
                MultiDiGraph.empty).
  pose (o1 := set_reality_model the_observer g1).
  pose (h1 := <[0 := o1]> observed_world).
  pose (h2 := <[1 := first_entity_later]> h1).
  assert (0 ∈ Interaction.participants first_signal) as Hin by by_evaluation.
  assert (snapshot observed_world (Interaction.participants first_signal)
            [the_observer; first_entity]) as Hsnap
    by (repeat constructor).
  assert (Observer.perceive_signal 0 first_signal observed_world = (inr tt, h1))
    as Hrun by (vm_compute; reflexivity).
  assert (snapshot h2 (Interaction.participants first_signal)
            [o1; first_entity_later]) as Hsnap2
    by (repeat constructor).
  destruct (perceive_signal_again_keeps_edges 0 first_signal observed_world
              the_observer MultiDiGraph.empty [the_observer; first_entity]
              h1 o1 g1 eq_refl eq_refl Hin Hsnap Hrun eq_refl eq_refl
              h2 o1 g1 [o1; first_entity_later] eq_refl eq_refl
              (fun _ _ H => H) (fun _ H => H) Hsnap2)
    as (g2 & Hrun2 & Hedges & _ & Hpair & _ & Hnodes).
  { repeat constructor. }
  destruct (Hpair the_observer first_entity eq_refl) as (H12 & H21 & Honly & Hcount).
  exists h1, o1, g1, h2, g2.
  split; [exact Hrun|]. split; [reflexivity|]. split; [reflexivity|].
  split; [reflexivity|]. split; [exact Hrun2|]. split; [exact Hedges|].
  split; [exact H12|]. split; [exact H21|]. split; [|split].
  - intros u v d Huv.
    exact (proj1 (proj1 (Honly (fun _ _ => eq_refl) (fun _ _ H => H) u v d) Huv)).
  - exact (Hcount ltac:(discriminate) eq_refl eq_refl eq_refl).
  - destruct (Hnodes first_entity_later) as (a & Ha & Hnode).
    + by_evaluation_in.
    + intros e' [->|[->|[]%elem_of_nil]%elem_of_cons]%elem_of_cons Hid.
      * vm_compute in Hid. discriminate Hid.
      * reflexivity.
    + assert (MultiDiGraph.nodes g1 !! 101%N
              = Some (MultiDiGraph.mk_node (Some {["group_id" := VStr "group1"]})
                        (Some 0x1.999999999999ap-4%float) (Some 0%Z))) as Hg1
        by (vm_compute; reflexivity).
      change (Entity.id first_entity_later) with 101%N in Ha.
      rewrite Hg1 in Ha. injection Ha as <-. exact Hnode.
Defined.

(** ** The further properties at work *)

Lemma scale_distance_float_on_all_doubles_witness :
  scale_distance 0.5 0.5 = 0%float /\
  scale_distance infinity 0.5 = neg_infinity.
Proof.
  destruct scale_distance_float_on_all_doubles as (_ & Hzero & _ & Hinf).
  split; [apply Hzero|apply Hinf]; vm_compute; reflexivity.
Defined.

(** The cases of a lookup in a store that is written out. *)
Ltac store_cases H :=
  repeat first
    [ rewrite lookup_empty in H; discriminate H
    | apply lookup_insert_Some in H as [[<- <-]|[_ H]] ].

Lemma tick_histories_only_grow_witness :
  (tick gravity_universe heavy_entities world0).1 = inl TypeError /\
  exists e' l,
    (tick gravity_universe heavy_entities world0).2.1.2 !! 1 = Some e' /\
    l ⊆ produced gravity_universe heavy_entities world0 /\
    Entity.interaction_history e' = l /\
    Entity.local_time e' = Z.of_nat (length (Entity.interaction_history e')).
Proof.
  split; [vm_compute; reflexivity|].
  destruct (tick_histories_only_grow gravity_universe heavy_entities world0
              (tick gravity_universe heavy_entities world0).1
              (tick gravity_universe heavy_entities world0).2.1.1
              (tick gravity_universe heavy_entities world0).2.1.2
              (tick gravity_universe heavy_entities world0).2.2) as [_ Hgrow].
  { by destruct (tick gravity_universe heavy_entities world0) as [res [[u' h'] w']]. }
  destruct (Hgrow 1 (Entity.mk 101 [] 0 0.25%float {["mass" := VStr "heavy"]} None))
    as (e' & l & He' & _ & _ & _ & Hl & Hh & _ & Hlen); [reflexivity|].
  exists e', l. split; [exact He'|]. split; [exact Hl|]. split; [exact Hh|].
  apply Hlen. reflexivity.
Defined.

Lemma tick_writes_three_properties_witness :
  exists e',
    (tick gravity_universe three_entities world0).2.1.2 !! 1 = Some e' /\
    Entity.properties e' !! "mass" = Some (VInt 1) /\
    Entity.properties (Entity_init 101 0.25%float) !! "mass" = None /\
    exists i, i ∈ produced gravity_universe three_entities world0 /\
              Interaction.interaction_type i = "gravity".
Proof.
  exists (Entity.mk 101 [first_gravity] 1 0.25%float {["mass" := VInt 1]} None).
  assert ((tick gravity_universe three_entities world0).2.1.2 !! 1
          = Some (Entity.mk 101 [first_gravity] 1 0.25%float {["mass" := VInt 1]} None))
    as Hafter by (vm_compute; reflexivity).
  split; [exact Hafter|]. split; [reflexivity|]. split; [reflexivity|].
  destruct (tick_writes_three_properties gravity_universe three_entities world0
              (tick gravity_universe three_entities world0).1
              (tick gravity_universe three_entities world0).2.1.1
              (tick gravity_universe three_entities world0).2.1.2
              (tick gravity_universe three_entities world0).2.2
              1 (Entity_init 101 0.25%float)
              (Entity.mk 101 [first_gravity] 1 0.25%float {["mass" := VInt 1]} None) "mass")
    as (i & Hi & [[Hty _]|[[_ Hk]|[_ Hk]]]).
  - by destruct (tick gravity_universe three_entities world0) as [res [[u' h'] w']].
  - reflexivity.
  - exact Hafter.
  - discriminate.
  - by exists i.
  - discriminate Hk.
  - discriminate Hk.
Defined.

Lemma tick_graph_only_grows_witness :
  exists o g o' g',
    observer_after_tick.1.2 !! 0 = Some o /\ Entity.reality_model o = Some g /\
    is_Some (MultiDiGraph.nodes g !! 101%N) /\
    is_Some (MultiDiGraph.edges g !! (100%N, 101%N, 1000%N)) /\
    (tick observer_after_tick.1.1 observer_after_tick.1.2 observer_after_tick.2).2.1.2
      !! 0 = Some o' /\
    Entity.reality_model o' = Some g' /\
    is_Some (MultiDiGraph.nodes g' !! 101%N) /\
    is_Some (MultiDiGraph.edges g' !! (100%N, 101%N, 1000%N)).
Proof.
  assert (exists o g,
            observer_after_tick.1.2 !! 0 = Some o /\ Entity.reality_model o = Some g /\
            is_Some (MultiDiGraph.nodes g !! 101%N) /\
            is_Some (MultiDiGraph.edges g !! (100%N, 101%N, 1000%N)))
    as (o & g & Ho & Hg & Hn & He).
  { vm_compute. eexists _, _. split; [reflexivity|]. split; [reflexivity|].
    split; eexists; reflexivity. }
  destruct (tick_graph_only_grows
              observer_after_tick.1.1 observer_after_tick.1.2 observer_after_tick.2
              (tick observer_after_tick.1.1 observer_after_tick.1.2
                    observer_after_tick.2).1
              (tick observer_after_tick.1.1 observer_after_tick.1.2
                    observer_after_tick.2).2.1.1
              (tick observer_after_tick.1.1 observer_after_tick.1.2
                    observer_after_tick.2).2.1.2
              (tick observer_after_tick.1.1 observer_after_tick.1.2
                    observer_after_tick.2).2.2
              0 o g)
    as (o' & g' & Ho' & Hg' & Hnodes & Hedges).
  - by destruct (tick observer_after_tick.1.1 observer_after_tick.1.2
                      observer_after_tick.2) as [res [[u' h'] w']].
  - exact Ho.
  - exact Hg.
  - exists o, g, o', g'. repeat (split; [assumption|]).
    destruct Hn as [a Ha]. destruct (Hnodes _ a Ha) as (a' & Ha' & _).
    split; [by exists a'|]. by apply Hedges.
Defined.

Lemma empty_graph_symmetric (g : MultiDiGraph) :
  Entity.reality_model the_observer = Some g -> symmetric_graph g.
Proof. intros [= <-] s t k d. simpl. by rewrite lookup_empty. Defined.

Lemma tick_keeps_graphs_symmetric_witness :
  exists o' g',
    observer_after_tick.1.2 !! 0 = Some o' /\ Entity.reality_model o' = Some g' /\
    MultiDiGraph.number_of_edges g' = 2 /\ symmetric_graph g'.
Proof.
  assert (exists o' g',
            observer_after_tick.1.2 !! 0 = Some o' /\
            Entity.reality_model o' = Some g' /\
            MultiDiGraph.number_of_edges g' = 2) as (o' & g' & Ho' & Hg' & Hsize).
  { vm_compute. eexists _, _. split; [reflexivity|]. split; reflexivity. }
  exists o', g'. repeat (split; [assumption|]).
  apply (tick_keeps_graphs_symmetric observer_universe observed_world runtime0
           (tick observer_universe observed_world runtime0).1
           (tick observer_universe observed_world runtime0).2.1.1
           (tick observer_universe observed_world runtime0).2.1.2
           (tick observer_universe observed_world runtime0).2.2
           0 the_observer o' g').
  - by destruct (tick observer_universe observed_world runtime0) as [res [[u' h'] w']].
  - reflexivity.
  - exact empty_graph_symmetric.
  - exact Ho'.
  - exact Hg'.
Defined.

Lemma tick_edges_are_recorded_interactions_witness :
  exists o' g' d i,
    observer_after_tick.1.2 !! 0 = Some o' /\ Entity.reality_model o' = Some g' /\
    MultiDiGraph.edges g' !! (100%N, 101%N, 1000%N) = Some d /\
    i ∈ Entity.interaction_history o' /\ Interaction.id i = 1000%N /\
    MultiDiGraph.type d = Interaction.interaction_type i.
Proof.
  assert (exists o' g' d,
            observer_after_tick.1.2 !! 0 = Some o' /\
            Entity.reality_model o' = Some g' /\
            MultiDiGraph.edges g' !! (100%N, 101%N, 1000%N) = Some d)
    as (o' & g' & d & Ho' & Hg' & Hd).
  { vm_compute. eexists _, _, _. split; [reflexivity|]. split; reflexivity. }
  destruct (tick_edges_are_recorded_interactions observer_universe observed_world
              runtime0
              (tick observer_universe observed_world runtime0).1
              (tick observer_universe observed_world runtime0).2.1.1
              (tick observer_universe observed_world runtime0).2.1.2
              (tick observer_universe observed_world runtime0).2.2
              0 the_observer o' g' 100%N 101%N 1000%N d)
    as (i & Hi & Hid & Hty & _).
  - by destruct (tick observer_universe observed_world runtime0) as [res [[u' h'] w']].
  - reflexivity.
  - intros g s t k d' [= <-]. simpl. by rewrite lookup_empty.
  - exact Ho'.
  - exact Hg'.
  - exact Hd.
  - by exists o', g', d, i.
Defined.

Lemma tick_stops_at_failing_effect_witness :
  tick gravity_universe heavy_entities world0
  = (inl TypeError,
     (mkUniverse [1; 2; 3] [gravity_rule] [first_gravity],
      <[1 := Entity.mk 101 [first_gravity] 1 0.25%float {["mass" := VStr "heavy"]} None]>
        heavy_entities,
      mkWorld (mkRuntime (uuid4_source runtime0) 1 (clock runtime0) 1
                         (frozenset_order runtime0))
              (fun n => n) 2 None 0)).
Proof.
  assert (rule_loop (interaction_rules gravity_universe) (entities gravity_universe)
            heavy_entities [] world0
          = (inr [first_gravity],
             mkWorld (mkRuntime (uuid4_source runtime0) 1 (clock runtime0) 1
                                (frozenset_order runtime0))
                     (fun n => n) 2 None 0)) as Hrules by (vm_compute; reflexivity).
  assert (effects_on first_gravity {["mass" := VStr "heavy"]} = inl TypeError) as Heff
    by (vm_compute; reflexivity).
  exact (tick_stops_at_failing_effect gravity_universe heavy_entities world0 _
           first_gravity [] 1 [2]
           (Entity.mk 101 [] 0 0.25%float {["mass" := VStr "heavy"]} None) TypeError
           Hrules eq_refl eq_refl Heff).
Defined.

Lemma observer_sees_first_participant_updated_witness :
  exists h' ea' eb' g nb,
    effects_loop [observer_gravity] observed_world = (inr tt, h') /\
    h' !! 0 = Some ea' /\ h' !! 1 = Some eb' /\
    Entity.properties eb' !! "mass" = Some (VInt 2) /\
    Entity.local_time eb' = 1%Z /\
    Entity.reality_model ea' = Some g /\
    MultiDiGraph.nodes g !! 101%N = Some nb /\
    MultiDiGraph.properties nb = Some {["group_id" := VStr "group1"]} /\
    MultiDiGraph.local_time nb = Some 0%Z.
Proof.
  destruct (observer_sees_first_participant_updated observer_gravity 0 1 observed_world
              the_observer first_entity
              {["mass" := VInt 2]}
              (<["mass" := VInt 2]> {["group_id" := VStr "group1"]}))
    as (h' & ea' & eb' & Hrun & Ha & Hb & _ & _ & Hpb & Htb & Hobs & _).
  - reflexivity.
  - discriminate.
  - reflexivity.
  - reflexivity.
  - discriminate.
  - vm_compute. reflexivity.
  - vm_compute. reflexivity.
  - destruct Hobs as (g & na & nb & Hg & _ & _ & _ & Hnb & Hnbp & Hnbt); [reflexivity|].
    exists h', ea', eb', g, nb. split; [exact Hrun|]. split; [exact Ha|].
    split; [exact Hb|]. split; [rewrite Hpb; reflexivity|]. split; [exact Htb|].
    split; [exact Hg|]. split; [exact Hnb|]. split; [exact Hnbp|exact Hnbt].
Defined.

Lemma three_entities_listed_once : NoDup [1; 2; 3].
Proof. by_evaluation. Defined.

Lemma gravity_rule_pairs_two_members_witness :
  length [1; 2; 3] >= 2 /\ NoDup [1; 2; 3] /\
  exists i w' a b,
    gravity_rule [1; 2; 3] three_entities world0 = (inr (Some [i]), w') /\
    a <> b /\ Interaction.participants i = [a; b] /\
    Interaction.interaction_type i = "gravity".
Proof.
  split; [simpl; lia|]. split; [exact three_entities_listed_once|].
  destruct (gravity_rule_pairs_two_members [1; 2; 3] three_entities world0)
    as [_ Hpair].
  destruct Hpair as (i & w' & j & k & a & b & Hrun & _ & _ & _ & Hab & Hps & Hty & _);
    [simpl; lia|].
  exists i, w', a, b. split; [exact Hrun|].
  split; [exact (Hab three_entities_listed_once)|]. split; [exact Hps|exact Hty].
Defined.

Lemma tick_of_gravity_rule_witness :
  exists i a b u' h' w' e',
    tick gravity_universe three_entities world0 = (inr [i], (u', h', w')) /\
    a <> b /\ Interaction.participants i = [a; b] /\
    h' !! a = Some e' /\ Entity.properties e' !! "mass" = Some (VInt 1).
Proof.
  destruct (tick_of_gravity_rule gravity_universe three_entities world0)
    as (i & a & b & u' & h' & w' & Htick & Ha & _ & Hab & Hps & _ & Hall).
  - reflexivity.
  - exact three_entities_listed_once.
  - simpl. lia.
  - exact three_entities_ready.
  - destruct (three_entities_ready) as [Hdom _].
    destruct (Hdom a Ha) as [e He].
    destruct (Hall a e He) as (e' & He' & Hmass & _).
    destruct Hmass as (m & Hm & Hprops); [by left|].
    exists i, a, b, u', h', w', e'. split; [exact Htick|]. split; [exact Hab|].
    split; [exact Hps|]. split; [exact He'|].
    assert (Entity.properties e = ∅) as Hempty.
    { unfold three_entities in He. store_cases He; reflexivity. }
    rewrite Hempty in Hm, Hprops. injection Hm as <-. by rewrite Hprops.
Defined.

Lemma loop_neighbours_entities r : r ∈ [1; 2; 3] -> is_Some (loop_neighbours !! r).
Proof.
  intros [->|[->|[->|[]%elem_of_nil]%elem_of_cons]%elem_of_cons]%elem_of_cons;
    by eexists.
Defined.

Lemma fusion_rule_pairs_close_scales_witness :
  exists i w' j k a b,
    fusion_rule [1; 2; 3] loop_neighbours world0 = (inr (Some [i]), w') /\
    j < k /\ [1; 2; 3] !! j = Some a /\ [1; 2; 3] !! k = Some b /\
    close_scales loop_neighbours a b /\
    Interaction.participants i = [a; b] /\
    Interaction.metadata i = {["energy_gain" := VInt 5]}.
Proof.
  destruct (fusion_rule_pairs_close_scales [1; 2; 3] loop_neighbours world0
              loop_neighbours_entities)
    as [[Hnone _]|(i & w' & j & k & a & b & Hrun & Hjk & Hj & Hk & Hclose & Hps & _
                   & Hmd & _)].
  - vm_compute in Hnone. discriminate Hnone.
  - by exists i, w', j, k, a, b.
Defined.

(** At the threshold the rounded distance decides: [|0.004 - 0.054|] is
    the double 0.05, which is not below 0.05, and the two do not fuse. *)
Lemma fusion_rule_at_the_threshold :
  scale_distance 0x1.0624dd2f1a9fcp-8 0x1.ba5e353f7ced9p-5
  = 0x1.999999999999ap-5%float /\
  fusion_rule [1; 2] threshold_neighbours world0 = (inr None, world0).
Proof. split; vm_compute; reflexivity. Qed.

Lemma persistent_rule_bonds_one_pair_witness :
  exists a b outs w',
    rule_calls (persistent_interaction_rule_with 2) [[1; 2; 3]; [3; 4]; [5; 6]]
               three_entities world0 = (inr outs, w') /\
    persistent_pair w' = Some [a; b] /\ persistent_interaction_count w' = 2%Z /\
    exists i1 i2, outs = [Some [i1]; Some [i2]; None] /\
      Interaction.participants i1 = [a; b] /\ Interaction.participants i2 = [a; b].
Proof.
  destruct (persistent_rule_bonds_one_pair 2 [1; 2; 3] [[3; 4]; [5; 6]]
              three_entities world0)
    as (j & k & a & b & outs & w' & _ & _ & _ & Hrun & Hlen & Hpair & Hcount & Houts).
  - simpl. lia.
  - repeat constructor.
  - reflexivity.
  - exists a, b, outs, w'. split; [exact Hrun|]. split; [exact Hpair|].
    split; [exact Hcount|].
    destruct outs as [|o1 [|o2 [|o3 [|o4 outs]]]]; try discriminate Hlen.
    destruct (Houts 0 o1 eq_refl) as (i1 & -> & Hp1 & _).
    destruct (Houts 1 o2 eq_refl) as (i2 & -> & Hp2 & _).
    pose proof (Houts 2 o3 eq_refl) as Hnone. simpl in Hnone. subst o3.
    by exists i1, i2.
Defined.

Lemma bonded_once_resolved : resolved bonded_once [1; 2].
Proof.
  intros r Hr.
  assert (forall i p, i ∈ [bond] -> p ∈ Interaction.participants i ->
                      is_Some (bonded_once !! p)) as Hbond.
  { intros i p ->%list_elem_of_singleton.
    intros [->|[->|[]%elem_of_nil]%elem_of_cons]%elem_of_cons; by eexists. }
  apply elem_of_cons in Hr as [->|Hr]; [by eexists|].
  apply list_elem_of_singleton in Hr as ->. by eexists.
Defined.

Lemma count_pairs_sums_roster_histories_witness :
  exists counts,
    count_pairs bonded_once [1; 2] [] = inr counts /\
    times_met bonded_once [1; 2] (101%N, 102%N) = 2 /\
    counter_get (101%N, 102%N) counts = 2%Z.
Proof.
  destruct (count_pairs_sums_roster_histories bonded_once [1; 2] bonded_once_resolved)
    as (counts & Hrun & _ & _ & Hget).
  exists counts. split; [exact Hrun|]. split; [vm_compute; reflexivity|].
  rewrite Hget. vm_compute. reflexivity.
Defined.

Lemma self_bonded_resolved : resolved self_bonded [1; 2; 3].
Proof.
  intros r Hr.
  assert (forall i p, i ∈ [self_bond; self_bond] -> p ∈ Interaction.participants i ->
                      is_Some (self_bonded !! p)) as Hself.
  { intros i p [->|[->|[]%elem_of_nil]%elem_of_cons]%elem_of_cons;
      intros [->|[->|[]%elem_of_nil]%elem_of_cons]%elem_of_cons; by eexists. }
  apply elem_of_cons in Hr as [->|Hr]; [by eexists|].
  apply elem_of_cons in Hr as [->|Hr];
    [eexists; split; [reflexivity|]; by intros i p []%elem_of_nil|].
  apply list_elem_of_singleton in Hr as ->.
  eexists; split; [reflexivity|]; by intros i p []%elem_of_nil.
Defined.

Lemma group_formation_rule_fails_on_pair_of_one_id_witness :
  (tick self_universe three_entities runtime0).1 = inr [self_bond] /\
  (tick self_universe three_entities runtime0).2.1.2 = self_bonded /\
  times_met self_bonded [1; 2; 3] (101%N, 101%N) = 2 /\
  exists rt',
    group_formation_rule [1; 2; 3] self_bonded runtime0
    = (inl (ValueError "not enough values to unpack (expected 2, got 1)"), rt').
Proof.
  split; [vm_compute; reflexivity|]. split; [vm_compute; reflexivity|].
  split; [vm_compute; reflexivity|].
  destruct (group_formation_rule_fails_on_pair_of_one_id 2 [1; 2; 3] self_bonded
              runtime0 self_bonded_resolved) as [Hfails _].
  apply Hfails. exists 101%N. split; vm_compute; [lia|discriminate].
Defined.

Lemma group_formation_rule_groups_roster_pairs_witness :
  group_formation_rule [1; 2] bonded_once runtime0
  = (inr (Some [first_group]),
     mkRuntime (uuid4_source runtime0) 2 (clock runtime0) 1 (frozenset_order runtime0))
  /\ exists e1 e2 x1 x2,
       Interaction.participants first_group = [e1; e2] /\
       bonded_once !! e1 = Some x1 /\ bonded_once !! e2 = Some x2 /\
       Entity.id x1 <> Entity.id x2 /\
       2 <= times_met bonded_once [1; 2] (frozenset2 (Entity.id x1) (Entity.id x2)).
Proof.
  assert (group_formation_rule [1; 2] bonded_once runtime0
          = (inr (Some [first_group]),
             mkRuntime (uuid4_source runtime0) 2 (clock runtime0) 1
                       (frozenset_order runtime0))) as Hrun
    by (vm_compute; reflexivity).
  split; [exact Hrun|].
  destruct (group_formation_rule_groups_roster_pairs 2 [1; 2] bonded_once runtime0 _
              (Some [first_group]) Hrun) as (l & Hl & Hall).
  injection Hl as <-.
  destruct (Hall first_group)
    as (_ & e1 & e2 & x1 & x2 & v & Hps & _ & _ & H1 & H2 & Hid & _ & _ & Hmet).
  - left.
  - exists e1, e2, x1, x2. repeat (split; [assumption|]). lia.
Defined.

Lemma three_entities_settled : settled [1; 2; 3] three_entities.
Proof.
  split; [exact three_entities_listed_once|]. split; [exact three_entities_ready|].
  split.
  - intros r1 r2 e1 e2 H1 H2. unfold three_entities in H1, H2.
    store_cases H1; store_cases H2; (reflexivity || discriminate).
  - intros r e i Hr. unfold three_entities in Hr.
    store_cases Hr; by intros []%elem_of_nil.
Defined.

Lemma tick_of_known_rules_returns_witness :
  exists new u' h' w',
    tick main_universe three_entities world0 = (inr new, (u', h', w')) /\
    Forall (pairs_members [1; 2; 3]) new /\
    settled (entities u') h' /\ pair_of_roster (entities u') w'.
Proof.
  destruct (tick_of_known_rules_returns main_universe three_entities world0)
    as (new & u' & h' & w' & Htick & Hnew & _ & _ & Hsettled & Hpair).
  - apply Forall_cons. split; [by left|].
    apply Forall_cons. split; [right; by left|].
    apply Forall_cons. split; [right; right; right; by exists 2%Z|].
    apply Forall_cons. split; [right; right; left; by exists 5%Z|].
    apply Forall_nil_2.
  - exact three_entities_settled.
  - intros p Hp. discriminate Hp.
  - exists new, u', h', w'. split; [exact Htick|]. split; [exact Hnew|].
    split; [exact Hsettled|exact Hpair].
Defined.
